(** * Answer extraction and tolerant validation of the cocoa-agent example tasks

    A shallow embedding of the two graders

      - [cocoabench-example-tasks/eight-puzzle-game/test.py]
      - [cocoabench-example-tasks/linear-regime-estimation/test.py]

    and of the library functions they call: [json.loads], the three
    regular expressions, [str.strip], [str.upper] and
    [datetime.strptime] with the format [%Y-%m-%d].

    Python values are a closed inductive type and exceptions an explicit
    result type, so that a function that can raise returns [res].  A
    [str] is a sequence of 8-bit characters, read as the UTF-8 encoding
    of the text; case mapping, digits and the whitespace class are the
    ASCII ones, so the embedding is exact on ASCII text.  [json.dumps],
    which only prints the payload in the feedback, is a parameter of the
    linear-regime grader.

    The development also embeds [retry_request] and [extract_config_info]
    of [executor/utils.py], with the state of the retried function, the
    sleeps and the caller's dictionary made explicit, and the four
    functions of [decrypt_utils.py], with [hashlib.sha256],
    [base64.b64decode] and the file system as parameters.

    The limits of the interpreter (the digits of an integer that
    [json.loads] converts, the depth of recursion, the lengths that
    [time.sleep] accepts) and the padding of years below 1000 by
    [strftime] are not part of the embedding; a property that depends on
    them says so in a hypothesis. *)

From Stdlib Require Import ZArith List String Ascii Bool Lia DecimalString.
From Stdlib Require Import Sorting.Sorted Sorting.Permutation.
From Stdlib Require Import QArith.
Import ListNotations.
Open Scope string_scope.
Open Scope Z_scope.

(** ** Python values *)

Module Py.

(** A Python [float]: the double nearest to [m * 10^e], an infinity or a
    NaN.  The graders only ever look at its type and its truth value. *)
Inductive pyfloat : Type :=
| FDec (m e : Z)
| FInf (neg : bool)
| FNaN.

#[warnings="-register-all"]
Inductive pyval : Type :=
| PNone
| PBool (b : bool)
| PInt (z : Z)
| PFloat (f : pyfloat)
| PStr (s : string)
| PList (l : list pyval)
| PDict (d : list (string * pyval)).

(** A [dict] with [str] keys, in insertion order; lookup takes the first
    binding of the key. *)
Definition dict : Type := list (string * pyval).

(** The exceptions the graders can meet. [JSONDecodeError] is a subclass
    of [ValueError]; every one of them is an [Exception]. *)
Inductive exn : Type :=
| TypeError
| AttributeError
| KeyError
| ValueError (msg : string)
| JSONDecodeError.

Inductive res (A : Type) : Type :=
| Ok (a : A)
| Raise (e : exn).
Arguments Ok {A} a.
Arguments Raise {A} e.

Definition bind {A B : Type} (m : res A) (k : A -> res B) : res B :=
  match m with
  | Ok a => k a
  | Raise e => Raise e
  end.

(** [try: m  except Exception: pass], with [d] the value left in place. *)
Definition catch_all {A : Type} (m : res A) (d : A) : A :=
  match m with
  | Ok a => a
  | Raise _ => d
  end.

(** [isinstance(e, ValueError)] *)
Definition is_value_error (e : exn) : bool :=
  match e with
  | ValueError _ | JSONDecodeError => true
  | _ => false
  end.

(** [str(e)]; only the message of a [ValueError] is ever printed. *)
Definition message (e : exn) : string :=
  match e with
  | ValueError msg => msg
  | _ => EmptyString
  end.

(** A double literal [m * 10^e] rounds to zero exactly when its magnitude
    is at most [2^-1075], half the least subnormal. *)
Definition float_is_zero (f : pyfloat) : bool :=
  match f with
  | FDec m e =>
      (m =? 0) || ((e <? 0) && (Z.abs m * 2 ^ 1075 <=? 10 ^ (- e)))
  | FInf _ | FNaN => false
  end.

(** [bool(v)] *)
Definition truthy (v : pyval) : bool :=
  match v with
  | PNone => false
  | PBool b => b
  | PInt z => negb (z =? 0)
  | PFloat f => negb (float_is_zero f)
  | PStr s => negb (s =? "")%string
  | PList l => match l with [] => false | _ => true end
  | PDict d => match d with [] => false | _ => true end
  end.

(** [a or b] *)
Definition py_or (a b : pyval) : pyval := if truthy a then a else b.

(** [d.get(k)], [None] when absent, and [d.get(k, default)] *)
Fixpoint lookup (k : string) (d : dict) : option pyval :=
  match d with
  | [] => None
  | (k', v) :: d' => if (k' =? k)%string then Some v else lookup k d'
  end.

Definition get (d : dict) (k : string) : pyval :=
  match lookup k d with Some v => v | None => PNone end.

Definition get_default (d : dict) (k : string) (default : pyval) : pyval :=
  match lookup k d with Some v => v | None => default end.

(** [d[k] = v]: an existing key keeps its position. *)
Fixpoint set (k : string) (v : pyval) (d : dict) : dict :=
  match d with
  | [] => [(k, v)]
  | (k', v') :: d' =>
      if (k' =? k)%string then (k, v) :: d' else (k', v') :: set k v d'
  end.

(** [v == s] for a [str] literal [s] *)
Definition eq_str (v : pyval) (s : string) : bool :=
  match v with
  | PStr s' => (s' =? s)%string
  | _ => false
  end.

(** [type(v).__name__] *)
Definition type_name (v : pyval) : string :=
  match v with
  | PNone => "NoneType"
  | PBool _ => "bool"
  | PInt _ => "int"
  | PFloat _ => "float"
  | PStr _ => "str"
  | PList _ => "list"
  | PDict _ => "dict"
  end.

(** The characters of a [str], each as a one-character [str]. *)
Fixpoint chars (s : string) : list pyval :=
  match s with
  | EmptyString => []
  | String c s' => PStr (String c "") :: chars s'
  end.

(** The items a [for] loop draws from [v]; an object that is not iterable
    raises [TypeError]. *)
Definition iter (v : pyval) : res (list pyval) :=
  match v with
  | PList l => Ok l
  | PStr s => Ok (chars s)
  | PDict d => Ok (map (fun kv => PStr (fst kv)) d)
  | _ => Raise TypeError
  end.

(** [reversed(v)]: lists, strings and dicts are reversible. *)
Definition reversed (v : pyval) : res (list pyval) :=
  bind (iter v) (fun l => Ok (rev l)).

(** The code points of a text held as its UTF-8 encoding: the bytes that
    are not continuation bytes, 80 to BF. *)
Fixpoint code_points (s : string) : nat :=
  match s with
  | EmptyString => O
  | String c s' =>
      let n := nat_of_ascii c in
      if ((128 <=? n) && (n <=? 191))%nat then code_points s'
      else S (code_points s')
  end.

(** [len(v)] *)
Definition len (v : pyval) : res Z :=
  match v with
  | PList l => Ok (Z.of_nat (List.length l))
  | PStr s => Ok (Z.of_nat (code_points s))
  | PDict d => Ok (Z.of_nat (List.length d))
  | _ => Raise TypeError
  end.

End Py.
Import Py.

Notation "x <- m ;; k" := (bind m (fun x => k))
  (at level 61, m at next level, right associativity).

(** ** Text primitives *)

Module Text.

Definition code (c : ascii) : nat := nat_of_ascii c.

(** [str.isspace] on ASCII: TAB..CR, FS..US and the blank. *)
Definition is_space (c : ascii) : bool :=
  let n := code c in
  ((9 <=? n) && (n <=? 13) || (28 <=? n) && (n <=? 32))%nat.

Definition is_upper (c : ascii) : bool :=
  let n := code c in ((65 <=? n) && (n <=? 90))%nat.

Definition is_lower (c : ascii) : bool :=
  let n := code c in ((97 <=? n) && (n <=? 122))%nat.

Definition to_lower (c : ascii) : ascii :=
  if is_upper c then ascii_of_nat (code c + 32) else c.

Definition to_upper (c : ascii) : ascii :=
  if is_lower c then ascii_of_nat (code c - 32) else c.

(** [s.upper()] *)
Fixpoint upper (s : string) : string :=
  match s with
  | EmptyString => EmptyString
  | String c s' => String (to_upper c) (upper s')
  end.

Fixpoint lstrip (s : string) : string :=
  match s with
  | EmptyString => EmptyString
  | String c s' => if is_space c then lstrip s' else s
  end.

Fixpoint rstrip (s : string) : string :=
  match s with
  | EmptyString => EmptyString
  | String c s' =>
      match rstrip s' with
      | EmptyString => if is_space c then EmptyString else String c EmptyString
      | r => String c r
      end
  end.

(** [s.strip()] *)
Definition strip (s : string) : string := rstrip (lstrip s).

(** [starts p s] is what follows [p] when [s] begins with [p]. *)
Fixpoint starts (p s : string) : option string :=
  match p, s with
  | EmptyString, _ => Some s
  | String a p', String b s' => if (a =? b)%char then starts p' s' else None
  | String _ _, EmptyString => None
  end.

(** The same, ignoring ASCII case; [p] is given in lower case. *)
Fixpoint starts_ci (p s : string) : option string :=
  match p, s with
  | EmptyString, _ => Some s
  | String a p', String b s' =>
      if (a =? to_lower b)%char then starts_ci p' s' else None
  | String _ _, EmptyString => None
  end.

(** Leftmost occurrence of [p] in [s], ignoring case: the text before it
    and the text after it. *)
Fixpoint find_ci (p s : string) : option (string * string) :=
  match starts_ci p s with
  | Some rest => Some (EmptyString, rest)
  | None =>
      match s with
      | EmptyString => None
      | String c s' =>
          match find_ci p s' with
          | Some (before, rest) => Some (String c before, rest)
          | None => None
          end
      end
  end.

(** Leftmost occurrence of [p] in [s], as [p in s] tests it. *)
Fixpoint contains (p s : string) : bool :=
  match starts p s with
  | Some _ => true
  | None =>
      match s with
      | EmptyString => false
      | String _ s' => contains p s'
      end
  end.

(** [k in v] for a [str] [k]: key lookup in a dict, membership in a list,
    substring test in a [str]; [TypeError] otherwise. *)
Definition py_in (k : string) (v : pyval) : res bool :=
  match v with
  | PDict d => Ok (match lookup k d with Some _ => true | None => false end)
  | PStr s => Ok (contains k s)
  | PList l => Ok (existsb (fun x => eq_str x k) l)
  | _ => Raise TypeError
  end.

(** [str(z)] for an [int] *)
Definition show_int (z : Z) : string := NilZero.string_of_int (Z.to_int z).

Definition newline : string := String (ascii_of_nat 10) EmptyString.

(** [sep.join(parts)] *)
Fixpoint join (sep : string) (parts : list string) : string :=
  match parts with
  | [] => EmptyString
  | [p] => p
  | p :: ps => (p ++ sep ++ join sep ps)%string
  end.

End Text.

(** ** [json.loads]

    The decoder of Python's [json] module with its default settings:
    strict strings, [NaN] and the infinities accepted, the last binding of
    a repeated key kept.  The interpreter's recursion limit and its limit
    on the digits of an integer literal are not modelled. *)

Module Json.
Import Text.

Definition dquote : ascii := ascii_of_nat 34.

Definition is_digit (c : ascii) : bool :=
  let n := code c in ((48 <=? n) && (n <=? 57))%nat.

Definition digit_val (c : ascii) : Z := Z.of_nat (code c) - 48.

Definition hex_val (c : ascii) : option Z :=
  let n := code c in
  if ((48 <=? n) && (n <=? 57))%nat then Some (Z.of_nat n - 48)
  else if ((65 <=? n) && (n <=? 70))%nat then Some (Z.of_nat n - 55)
  else if ((97 <=? n) && (n <=? 102))%nat then Some (Z.of_nat n - 87)
  else None.

Definition hex4 (a b c d : ascii) : option Z :=
  match hex_val a, hex_val b, hex_val c, hex_val d with
  | Some x, Some y, Some z, Some w => Some (((x * 16 + y) * 16 + z) * 16 + w)
  | _, _, _, _ => None
  end.

Definition byte (z : Z) : ascii := ascii_of_nat (Z.to_nat z).

(** UTF-8 encoding of a code point (surrogates are encoded like any other
    three-byte value). *)
Definition utf8 (cp : Z) : string :=
  if cp <? 128 then String (byte cp) ""
  else if cp <? 2048 then
    String (byte (192 + cp / 64)) (String (byte (128 + cp mod 64)) "")
  else if cp <? 65536 then
    String (byte (224 + cp / 4096))
      (String (byte (128 + (cp / 64) mod 64))
         (String (byte (128 + cp mod 64)) ""))
  else
    String (byte (240 + cp / 262144))
      (String (byte (128 + (cp / 4096) mod 64))
         (String (byte (128 + (cp / 64) mod 64))
            (String (byte (128 + cp mod 64)) ""))).

Definition is_high_surrogate (cp : Z) : bool := (55296 <=? cp) && (cp <=? 56319).
Definition is_low_surrogate (cp : Z) : bool := (56320 <=? cp) && (cp <=? 57343).
Definition join_surrogates (hi lo : Z) : Z :=
  65536 + ((hi - 55296) * 1024 + (lo - 56320)).

(** The character a one-letter escape stands for. *)
Definition escape (c : ascii) : option ascii :=
  if (c =? dquote)%char then Some c
  else if (c =? "\")%char then Some c
  else if (c =? "/")%char then Some c
  else if (c =? "b")%char then Some (ascii_of_nat 8)
  else if (c =? "f")%char then Some (ascii_of_nat 12)
  else if (c =? "n")%char then Some (ascii_of_nat 10)
  else if (c =? "r")%char then Some (ascii_of_nat 13)
  else if (c =? "t")%char then Some (ascii_of_nat 9)
  else None.

Definition prepend (p : string) (r : option (string * string))
  : option (string * string) :=
  match r with
  | Some (body, rest) => Some ((p ++ body)%string, rest)
  | None => None
  end.

(** [scanstring]: the text after an opening quote, up to its closing
    quote; the decoded string and what follows the closing quote. *)
Fixpoint scanstring (s : string) : option (string * string) :=
  match s with
  | EmptyString => None
  | String c s1 =>
      if (c =? dquote)%char then Some (EmptyString, s1)
      else if (c =? "\")%char then
        match s1 with
        | EmptyString => None
        | String e s2 =>
            if (e =? "u")%char then
              match s2 with
              | String h1 (String h2 (String h3 (String h4 s3))) =>
                  match hex4 h1 h2 h3 h4 with
                  | None => None
                  | Some hi =>
                      match s3 with
                      | String b (String u
                          (String l1 (String l2 (String l3 (String l4 s4))))) =>
                          match
                            (if is_high_surrogate hi && (b =? "\")%char
                                && (u =? "u")%char
                             then hex4 l1 l2 l3 l4 else None)
                          with
                          | Some lo =>
                              if is_low_surrogate lo
                              then prepend (utf8 (join_surrogates hi lo))
                                     (scanstring s4)
                              else prepend (utf8 hi) (scanstring s3)
                          | None => prepend (utf8 hi) (scanstring s3)
                          end
                      | _ => prepend (utf8 hi) (scanstring s3)
                      end
                  end
              | _ => None
              end
            else
              match escape e with
              | Some ch => prepend (String ch "") (scanstring s2)
              | None => None
              end
        end
      else if (code c <? 32)%nat then None
      else prepend (String c "") (scanstring s1)
  end.

(** JSON whitespace: blank, TAB, LF, CR. *)
Definition is_ws (c : ascii) : bool :=
  let n := code c in ((n =? 32) || (n =? 9) || (n =? 10) || (n =? 13))%nat.

Fixpoint skip_ws (s : string) : string :=
  match s with
  | EmptyString => EmptyString
  | String c s' => if is_ws c then skip_ws s' else s
  end.

(** The longest run of decimal digits at the head of [s]. *)
Fixpoint digits (s : string) : string * string :=
  match s with
  | EmptyString => (EmptyString, EmptyString)
  | String c s' =>
      if is_digit c
      then let (d, rest) := digits s' in (String c d, rest)
      else (EmptyString, s)
  end.

Fixpoint decimal (acc : Z) (d : string) : Z :=
  match d with
  | EmptyString => acc
  | String c d' => decimal (acc * 10 + digit_val c) d'
  end.

(** The integer part: an optional minus sign, then either a lone zero or
    a nonzero digit and the digits after it. *)
Definition int_part (s : string) : option (bool * string * string) :=
  let (neg, s1) :=
    match s with
    | String c s' => if (c =? "-")%char then (true, s') else (false, s)
    | EmptyString => (false, s)
    end in
  match s1 with
  | EmptyString => None
  | String c s2 =>
      if (c =? "0")%char then Some (neg, String c "", s2)
      else if is_digit c
      then let (d, rest) := digits s2 in Some (neg, String c d, rest)
      else None
  end.

(** The optional fraction: a dot and at least one digit. *)
Definition frac_part (s : string) : option string * string :=
  match s with
  | String c s1 =>
      if (c =? ".")%char then
        match digits s1 with
        | (EmptyString, _) => (None, s)
        | (d, rest) => (Some d, rest)
        end
      else (None, s)
  | EmptyString => (None, s)
  end.

(** The optional exponent: [e] or [E], an optional sign, at least one
    digit. *)
Definition exp_part (s : string) : option Z * string :=
  match s with
  | String c s1 =>
      if (c =? "e")%char || (c =? "E")%char then
        let (neg, s2) :=
          match s1 with
          | String g s' =>
              if (g =? "-")%char then (true, s')
              else if (g =? "+")%char then (false, s')
              else (false, s1)
          | EmptyString => (false, s1)
          end in
        match digits s2 with
        | (EmptyString, _) => (None, s)
        | (d, rest) =>
            (Some (if neg then - decimal 0 d else decimal 0 d), rest)
        end
      else (None, s)
  | EmptyString => (None, s)
  end.

Definition signed (neg : bool) (z : Z) : Z := if neg then - z else z.

(** [match_number] and the conversion of its groups: an [int] when there
    is neither fraction nor exponent, a [float] otherwise. *)
Definition number (s : string) : option (pyval * string) :=
  match int_part s with
  | None => None
  | Some (neg, ip, r1) =>
      let (frac, r2) := frac_part r1 in
      let (ex, r3) := exp_part r2 in
      match frac, ex with
      | None, None => Some (PInt (signed neg (decimal 0 ip)), r3)
      | _, _ =>
          let fd := match frac with Some d => d | None => EmptyString end in
          let e := match ex with Some e => e | None => 0 end in
          Some (PFloat (FDec (signed neg (decimal 0 (ip ++ fd)))
                          (e - Z.of_nat (String.length fd))), r3)
      end
  end.

Inductive parsed : Type :=
| Parsed (v : pyval) (rest : string)
| Malformed
| Exhausted.

(** The constants and numbers [scan_once] tries after strings, objects
    and arrays, in its order. *)
Definition scalar (s : string) : parsed :=
  match starts "null" s with
  | Some rest => Parsed PNone rest
  | None =>
  match starts "true" s with
  | Some rest => Parsed (PBool true) rest
  | None =>
  match starts "false" s with
  | Some rest => Parsed (PBool false) rest
  | None =>
  match number s with
  | Some (v, rest) => Parsed v rest
  | None =>
  match starts "NaN" s with
  | Some rest => Parsed (PFloat FNaN) rest
  | None =>
  match starts "Infinity" s with
  | Some rest => Parsed (PFloat (FInf false)) rest
  | None =>
  match starts "-Infinity" s with
  | Some rest => Parsed (PFloat (FInf true)) rest
  | None => Malformed
  end end end end end end end.

(** [scan_once], [JSONObject] and [JSONArray].  [members] starts at a
    property name, [elements] at an element; both carry what has been
    read so far.  The first argument bounds the number of calls. *)
Fixpoint value (n : nat) (s : string) {struct n} : parsed :=
  match n with
  | O => Exhausted
  | S n' =>
      match s with
      | EmptyString => Malformed
      | String c s1 =>
          if (c =? dquote)%char then
            match scanstring s1 with
            | Some (str, rest) => Parsed (PStr str) rest
            | None => Malformed
            end
          else if (c =? "{")%char then
            match skip_ws s1 with
            | EmptyString => Malformed
            | String c2 rest as s2 =>
                if (c2 =? "}")%char then Parsed (PDict []) rest
                else members n' [] s2
            end
          else if (c =? "[")%char then
            match skip_ws s1 with
            | EmptyString => Malformed
            | String c2 rest as s2 =>
                if (c2 =? "]")%char then Parsed (PList []) rest
                else elements n' [] s2
            end
          else scalar s
      end
  end

with members (n : nat) (acc : dict) (s : string) {struct n} : parsed :=
  match n with
  | O => Exhausted
  | S n' =>
      match s with
      | EmptyString => Malformed
      | String q s1 =>
          if (q =? dquote)%char then
            match scanstring s1 with
            | None => Malformed
            | Some (key, s2) =>
                match skip_ws s2 with
                | EmptyString => Malformed
                | String colon s3 =>
                    if (colon =? ":")%char then
                      match value n' (skip_ws s3) with
                      | Parsed v s4 =>
                          let acc' := set key v acc in
                          match skip_ws s4 with
                          | EmptyString => Malformed
                          | String d s5 =>
                              if (d =? "}")%char then Parsed (PDict acc') s5
                              else if (d =? ",")%char
                              then members n' acc' (skip_ws s5)
                              else Malformed
                          end
                      | other => other
                      end
                    else Malformed
                end
            end
          else Malformed
      end
  end

with elements (n : nat) (acc : list pyval) (s : string) {struct n} : parsed :=
  match n with
  | O => Exhausted
  | S n' =>
      match value n' s with
      | Parsed v s1 =>
          let acc' := (acc ++ [v])%list in
          match skip_ws s1 with
          | EmptyString => Malformed
          | String d s2 =>
              if (d =? "]")%char then Parsed (PList acc') s2
              else if (d =? ",")%char then elements n' acc' (skip_ws s2)
              else Malformed
          end
      | other => other
      end
  end.

(** Enough calls for any text: every call but the first follows a
    character that has been consumed. *)
Definition budget (s : string) : nat := 2 * String.length s + 2.

(** [json.loads(s)]; [None] stands for [JSONDecodeError]. *)
Definition loads (s : string) : option pyval :=
  match value (budget s) (skip_ws s) with
  | Parsed v rest =>
      match skip_ws rest with
      | EmptyString => Some v
      | _ => None
      end
  | _ => None
  end.

(** What a successful parse leaves is shorter than what it was given. *)
Definition shorter (p : parsed) (s : string) : Prop :=
  match p with
  | Parsed _ rest => (String.length rest < String.length s)%nat
  | _ => True
  end.

End Json.

(** ** The conversation scanner

    [_extract_answer_from_conversation] and
    [_extract_json_from_conversation] are the same function up to the
    extractor they apply to a text; it is a parameter here, together with
    the truth value of what it extracts. *)

Module Scanner.
Section Scan.

Variable A : Type.
(** The extractor applied to an arbitrary object (it raises on anything
    but a [str]). *)
Variable extract : pyval -> res (option A).
(** [bool(answer)] for an extracted answer. *)
Variable found : A -> bool.

(** [if answer: return answer] *)
Definition keep (answer : option A) : option A :=
  match answer with
  | Some a => if found a then Some a else None
  | None => None
  end.

(** ["result" in args] *)
Definition has_result (args : pyval) : res bool :=
  Text.py_in "result" args.

(** [args["result"]] *)
Definition result_of (args : pyval) : res pyval :=
  match args with
  | PDict d =>
      match lookup "result" d with
      | Some v => Ok v
      | None => Raise KeyError
      end
  | _ => Raise TypeError
  end.

(** [json.loads(args_str) if isinstance(args_str, str) else args_str] *)
Definition decode_arguments (args_str : pyval) : res pyval :=
  match args_str with
  | PStr s =>
      match Json.loads s with
      | Some v => Ok v
      | None => Raise JSONDecodeError
      end
  | _ => Ok args_str
  end.

(** The body of the [try] block of one [task_complete] tool call. *)
Definition try_tool_call (func : dict) : res (option A) :=
  let args_str := get_default func "arguments" (PStr "{}") in
  args <- decode_arguments args_str ;;
  has <- has_result args ;;
  if has then
    result_str <- result_of args ;;
    answer <- extract result_str ;;
    Ok (keep answer)
  else Ok None.

(** The loop over the tool calls of one message.  Whatever the [try]
    block raises is swallowed; [func.get] on a [function] entry that is
    not a dict is outside it. *)
Fixpoint scan_tool_calls (tcs : list pyval) : res (option A) :=
  match tcs with
  | [] => Ok None
  | PDict tc :: rest =>
      match get_default tc "function" (PDict []) with
      | PDict func =>
          if eq_str (get func "name") "task_complete" then
            match catch_all (try_tool_call func) None with
            | Some a => Ok (Some a)
            | None => scan_tool_calls rest
            end
          else scan_tool_calls rest
      | _ => Raise AttributeError
      end
  | _ :: rest => scan_tool_calls rest
  end.

(** The body of the first loop for one message. *)
Definition tool_call_answer (message : pyval) : res (option A) :=
  match message with
  | PDict m =>
      if eq_str (get m "role") "assistant" && truthy (get m "tool_calls")
      then
        tcs <- iter (get_default m "tool_calls" (PList [])) ;;
        scan_tool_calls tcs
      else Ok None
  | _ => Ok None
  end.

(** The body of the second loop for one message. *)
Definition content_answer (message : pyval) : res (option A) :=
  match message with
  | PDict m =>
      if eq_str (get m "role") "assistant" then
        let content := py_or (get m "content") (PStr "") in
        answer <- extract content ;;
        Ok (keep answer)
      else Ok None
  | _ => Ok None
  end.

(** A [for] loop that returns at the first message giving an answer. *)
Fixpoint first_answer (body : pyval -> res (option A)) (messages : list pyval)
  : res (option A) :=
  match messages with
  | [] => Ok None
  | message :: rest =>
      r <- body message ;;
      match r with
      | Some a => Ok (Some a)
      | None => first_answer body rest
      end
  end.

(** The whole function: the loop over tool calls runs to its end before
    the loop over contents starts. *)
Definition scan (conversation : pyval) : res (option A) :=
  newest_first <- reversed (py_or conversation (PList [])) ;;
  r <- first_answer tool_call_answer newest_first ;;
  match r with
  | Some a => Ok (Some a)
  | None =>
      newest_first' <- reversed (py_or conversation (PList [])) ;;
      first_answer content_answer newest_first'
  end.

End Scan.
End Scanner.

(** ** The outcome record *)

Record outcome : Type := {
  passed : bool;
  feedback : string;
  details : dict
}.

(** ** eight-puzzle-game/test.py *)

Module EightPuzzle.
Import Text.

Definition EXPECTED_ANSWER : string := "EFPTGK".

(** The pattern [<answer>(.*?)</answer>] with IGNORECASE and DOTALL: the
    leftmost opening tag and the nearest closing tag after it. *)
Definition answer_pattern_search (text : string) : option string :=
  match find_ci "<answer>" text with
  | None => None
  | Some (_, after) =>
      match find_ci "</answer>" after with
      | None => None
      | Some (body, _) => Some body
      end
  end.

Definition _extract_answer_from_text (text : string) : option string :=
  match answer_pattern_search text with
  | Some group1 => Some (strip group1)
  | None => None
  end.

(** The same on an arbitrary object: [Pattern.search] raises [TypeError]
    on anything but a [str]. *)
Definition extract_answer (text : pyval) : res (option string) :=
  match text with
  | PStr s => Ok (_extract_answer_from_text s)
  | _ => Raise TypeError
  end.

(** [bool(answer)] for a [str] *)
Definition nonempty (s : string) : bool := negb (s =? "")%string.

Definition _extract_answer_from_conversation (conversation : pyval)
  : res (option string) :=
  Scanner.scan string extract_answer nonempty conversation.

Definition _normalize_answer (answer : string) : string :=
  upper (strip answer).

(** The outcome returned when no answer was found. *)
Definition not_found (task_completed : bool) (conversation : pyval)
  : res outcome :=
  n <- len conversation ;;
  Ok {| passed := false;
        feedback := "No valid answer found in assistant responses. Expected format: <answer>CODE</answer>";
        details := [("task_completed", PBool task_completed);
                    ("conversation_length", PInt n)] |}.

(** The comparison and the outcome built from an extracted answer. *)
Definition grade (task_completed : bool) (output_answer : string) : outcome :=
  let normalized_output := _normalize_answer output_answer in
  let normalized_expected := _normalize_answer EXPECTED_ANSWER in
  let answer_correct := (normalized_output =? normalized_expected)%string in
  let passed := task_completed && answer_correct in
  let feedback_parts :=
    List.app
      ["Found answer: " ++ output_answer;
       (if answer_correct then "✓" else "✗") ++ " Code: got '" ++ output_answer
         ++ "', expected '" ++ EXPECTED_ANSWER ++ "'."]
      (if negb task_completed then ["✗ Task status is not success."] else [])
  in
  {| passed := passed;
     feedback := join newline feedback_parts;
     details := [("task_completed", PBool task_completed);
                 ("output_answer", PStr output_answer);
                 ("answer_correct", PBool answer_correct);
                 ("expected_answer", PStr EXPECTED_ANSWER)] |}.

Definition test (result : dict) : res outcome :=
  let conversation := py_or (get result "conversation") (PList []) in
  let task_completed := eq_str (get result "status") "success" in
  let task_result := get result "task_result" in
  output_answer <-
    (if truthy task_result
     then extract_answer task_result
     else Ok None) ;;
  output_answer <-
    (match Scanner.keep string nonempty output_answer with
     | Some a => Ok (Some a)
     | None => _extract_answer_from_conversation conversation
     end) ;;
  match Scanner.keep string nonempty output_answer with
  | None => not_found task_completed conversation
  | Some a => Ok (grade task_completed a)
  end.

End EightPuzzle.

(** ** linear-regime-estimation/test.py *)

Module LinearRegime.
Import Text.

Definition EXPECTED_REGIME_COUNT : Z := 3.
Definition EXPECTED_BREAKPOINTS : list string := ["2024-07-27"; "2025-02-16"].
Definition TOLERANCE_DAYS : Z := 7.

(** *** Dates *)

(** A [datetime] at midnight. *)
Record datetime : Type := { year : Z; month : Z; day : Z }.

Definition is_leap (y : Z) : bool :=
  (y mod 4 =? 0) && (negb (y mod 100 =? 0) || (y mod 400 =? 0)).

Definition days_in_month (y m : Z) : Z :=
  if m =? 2 then (if is_leap y then 29 else 28)
  else if (m =? 4) || (m =? 6) || (m =? 9) || (m =? 11) then 30
  else 31.

Definition days_before_year (y : Z) : Z :=
  let p := y - 1 in p * 365 + p / 4 - p / 100 + p / 400.

Fixpoint days_before_month_from (y : Z) (m : nat) : Z :=
  match m with
  | O => 0
  | S m' => days_before_month_from y m' + days_in_month y (Z.of_nat m)
  end.

Definition days_before_month (y m : Z) : Z :=
  days_before_month_from y (Z.to_nat (m - 1)).

(** [d.toordinal()]: 1 for 0001-01-01. *)
Definition toordinal (d : datetime) : Z :=
  days_before_year (year d) + days_before_month (year d) (month d) + day d.

(** [(a - b).days] *)
Definition days_between (a b : datetime) : Z := toordinal a - toordinal b.

(** [a <= b] on datetimes. *)
Definition date_leb (a b : datetime) : bool :=
  (year a <? year b)
  || ((year a =? year b)
      && ((month a <? month b)
          || ((month a =? month b) && (day a <=? day b)))).

Fixpoint insert_date (d : datetime) (l : list datetime) : list datetime :=
  match l with
  | [] => [d]
  | x :: l' => if date_leb d x then d :: l else x :: insert_date d l'
  end.

(** [l.sort()] *)
Fixpoint sort_dates (l : list datetime) : list datetime :=
  match l with
  | [] => []
  | d :: l' => insert_date d (sort_dates l')
  end.

Definition digit_val (c : ascii) : Z := Json.digit_val c.
Definition is_digit (c : ascii) : bool := Json.is_digit c.
Definition in_range (lo hi c : ascii) : bool :=
  ((code lo <=? code c) && (code c <=? code hi))%nat.

(** The directive [%Y]: exactly four digits. *)
Definition read_year (s : string) : option (Z * string) :=
  match s with
  | String a (String b (String c (String d rest))) =>
      if is_digit a && is_digit b && is_digit c && is_digit d
      then Some (((digit_val a * 10 + digit_val b) * 10 + digit_val c) * 10
                 + digit_val d, rest)
      else None
  | _ => None
  end.

(** The directive [%m]: 10..12, or 01..09, or 1..9, tried in that order. *)
Definition read_month (s : string) : option (Z * string) :=
  match s with
  | String a rest1 =>
      match rest1 with
      | String b rest2 =>
          if (a =? "1")%char && in_range "0" "2" b
          then Some (10 + digit_val b, rest2)
          else if (a =? "0")%char && in_range "1" "9" b
          then Some (digit_val b, rest2)
          else if in_range "1" "9" a then Some (digit_val a, rest1)
          else None
      | EmptyString =>
          if in_range "1" "9" a then Some (digit_val a, rest1) else None
      end
  | EmptyString => None
  end.

(** The directive [%d]: 30..31, or 10..29, or 01..09, or 1..9, or a blank
    and 1..9, tried in that order. *)
Definition read_day (s : string) : option (Z * string) :=
  match s with
  | String a rest1 =>
      match rest1 with
      | String b rest2 =>
          if (a =? "3")%char && in_range "0" "1" b
          then Some (30 + digit_val b, rest2)
          else if in_range "1" "2" a && is_digit b
          then Some (digit_val a * 10 + digit_val b, rest2)
          else if (a =? "0")%char && in_range "1" "9" b
          then Some (digit_val b, rest2)
          else if in_range "1" "9" a then Some (digit_val a, rest1)
          else if (a =? " ")%char && in_range "1" "9" b
          then Some (digit_val b, rest2)
          else None
      | EmptyString =>
          if in_range "1" "9" a then Some (digit_val a, rest1) else None
      end
  | EmptyString => None
  end.

(** [datetime.strptime(s, "%Y-%m-%d")]; [None] stands for its
    [ValueError]: no match of the format, unconverted data left, year 0,
    or a day the month does not have. *)
Definition strptime (s : string) : option datetime :=
  match read_year s with
  | None => None
  | Some (y, s1) =>
  match starts "-" s1 with
  | None => None
  | Some s2 =>
  match read_month s2 with
  | None => None
  | Some (m, s3) =>
  match starts "-" s3 with
  | None => None
  | Some s4 =>
  match read_day s4 with
  | None => None
  | Some (d, s5) =>
      match s5 with
      | EmptyString =>
          if (1 <=? y) && (d <=? days_in_month y m)
          then Some {| year := y; month := m; day := d |}
          else None
      | _ => None
      end
  end end end end end.

Definition _parse_date (date_str : pyval) : res datetime :=
  match date_str with
  | PStr s =>
      match strptime (strip s) with
      | Some d => Ok d
      | None =>
          Raise (ValueError
                   ("Invalid date format: " ++ s ++ ". Expected YYYY-MM-DD"))
      end
  | _ => Raise AttributeError
  end.

Definition _dates_within_tolerance (date1 date2 : datetime)
  (tolerance_days : Z) : bool :=
  let delta := Z.abs (days_between date1 date2) in
  delta <=? tolerance_days.

Definition pad (width : nat) (z : Z) : string :=
  let s := show_int z in
  (string_of_list_ascii (repeat "0"%char (width - String.length s)) ++ s)%string.

(** [d.strftime('%Y-%m-%d')].  The year is printed on four digits, as the
    library documents it; every year from 1000 on prints so everywhere. *)
Definition strftime (d : datetime) : string :=
  pad 4 (year d) ++ "-" ++ pad 2 (month d) ++ "-" ++ pad 2 (day d).

(** *** Extraction of a JSON object from a text *)

Definition backticks : string := "```".

(** The lazy body of a fenced block, read after its opening brace: up to
    the first closing brace that is followed by optional whitespace and
    the closing fence. *)
Fixpoint block_body (s : string) : option string :=
  match s with
  | EmptyString => None
  | String c s' =>
      if (c =? "}")%char
         && match starts backticks (lstrip s') with Some _ => true | None => false end
      then Some (String c EmptyString)
      else
        match block_body s' with
        | Some body => Some (String c body)
        | None => None
        end
  end.

(** A match of the fenced-block pattern at the head of [s]: the fence, an
    optional [json] label, whitespace, and the braced group. *)
Definition block_at (s : string) : option string :=
  match starts backticks s with
  | None => None
  | Some r1 =>
      let r2 := match starts "json" r1 with Some r => r | None => r1 end in
      match lstrip r2 with
      | String c r3 =>
          if (c =? "{")%char then
            match block_body r3 with
            | Some body => Some (String c body)
            | None => None
            end
          else None
      | EmptyString => None
      end
  end.

(** [json_block_pattern.search(text)], group 1 of the leftmost match. *)
Fixpoint json_block_search (text : string) : option string :=
  match block_at text with
  | Some group1 => Some group1
  | None =>
      match text with
      | EmptyString => None
      | String _ text' => json_block_search text'
      end
  end.

(** A match of the brace pattern, read after its opening brace: text
    without braces, with inner brace pairs one level deep, up to the
    closing brace.  [inner] tells whether an inner pair is open. *)
Fixpoint brace_body (inner : bool) (s : string) : option string :=
  match s with
  | EmptyString => None
  | String c s' =>
      if (c =? "{")%char then
        if inner then None
        else match brace_body true s' with
             | Some m => Some (String c m)
             | None => None
             end
      else if (c =? "}")%char then
        if inner
        then match brace_body false s' with
             | Some m => Some (String c m)
             | None => None
             end
        else Some (String c EmptyString)
      else
        match brace_body inner s' with
        | Some m => Some (String c m)
        | None => None
        end
  end.

(** [json_pattern.findall(text)]: the matches from left to right, none
    overlapping another; [skip] counts the characters still inside the
    last match. *)
Fixpoint findall (skip : nat) (text : string) : list string :=
  match text with
  | EmptyString => []
  | String c text' =>
      match skip with
      | S k => findall k text'
      | O =>
          if (c =? "{")%char then
            match brace_body false text' with
            | Some m => String c m :: findall (String.length m) text'
            | None => findall 0 text'
            end
          else findall 0 text'
      end
  end.

(** The loop over the matches: the first one that decodes. *)
Fixpoint first_decoded (matches : list string) : option pyval :=
  match matches with
  | [] => None
  | m :: rest =>
      match Json.loads m with
      | Some v => Some v
      | None => first_decoded rest
      end
  end.

Definition _extract_json_from_text (text : string) : option pyval :=
  let in_block :=
    match json_block_search text with
    | Some group1 => Json.loads group1
    | None => None
    end in
  match in_block with
  | Some v => Some v
  | None => first_decoded (findall 0 text)
  end.

(** The same on an arbitrary object: [Pattern.search] raises [TypeError]
    on anything but a [str]. *)
Definition extract_json (text : pyval) : res (option pyval) :=
  match text with
  | PStr s => Ok (_extract_json_from_text s)
  | _ => Raise TypeError
  end.

Definition _extract_json_from_conversation (conversation : pyval)
  : res (option pyval) :=
  Scanner.scan pyval extract_json truthy conversation.

(** *** The grader *)

Section Grader.

(** [json.dumps(obj, indent=2)], which only contributes the first line of
    the feedback text. *)
Variable json_dumps : pyval -> string.

(** The list comprehension [[_parse_date(bp) for bp in l]]. *)
Fixpoint parse_dates (l : list pyval) : res (list datetime) :=
  match l with
  | [] => Ok []
  | bp :: l' =>
      d <- _parse_date bp ;;
      ds <- parse_dates l' ;;
      Ok (d :: ds)
  end.

Definition within (pair : datetime * datetime) : bool :=
  _dates_within_tolerance (fst pair) (snd pair) TOLERANCE_DAYS.

(** [delta > TOLERANCE_DAYS] for a pair. *)
Definition exceeds (pair : datetime * datetime) : bool :=
  TOLERANCE_DAYS <? Z.abs (days_between (fst pair) (snd pair)).

Definition describe_mismatch (pair : datetime * datetime) : string :=
  let delta := Z.abs (days_between (fst pair) (snd pair)) in
  "Expected " ++ strftime (fst pair) ++ ", got " ++ strftime (snd pair)
    ++ " (delta: " ++ show_int delta ++ " days)".

(** The body of the [try] block: parse, sort, pair and compare. *)
Definition compare_breakpoints (breakpoints : list pyval)
  : res (bool * string) :=
  expected_dates <- parse_dates (map PStr EXPECTED_BREAKPOINTS) ;;
  output_dates <- parse_dates breakpoints ;;
  let expected_dates := sort_dates expected_dates in
  let output_dates := sort_dates output_dates in
  let pairs := combine expected_dates output_dates in
  let all_within_tolerance := forallb within pairs in
  let breakpoints_correct := all_within_tolerance in
  if breakpoints_correct
  then Ok (true, "✓ All breakpoints are within ±7 day tolerance.")
  else
    let mismatches := map describe_mismatch (filter exceeds pairs) in
    Ok (false, "✗ Breakpoint mismatches:" ++ newline ++ join newline mismatches).

(** The check of the [breakpoints] field: its verdict and its line of
    feedback.  Only a [ValueError] of the [try] block is handled. *)
Definition check_breakpoints (breakpoints : list pyval)
  : res (bool * string) :=
  if negb (List.length breakpoints =? List.length EXPECTED_BREAKPOINTS)%nat
  then
    Ok (false,
        "Expected " ++ show_int (Z.of_nat (List.length EXPECTED_BREAKPOINTS))
          ++ " breakpoints, got "
          ++ show_int (Z.of_nat (List.length breakpoints)) ++ ".")
  else
    match compare_breakpoints breakpoints with
    | Ok r => Ok r
    | Raise e =>
        if is_value_error e
        then Ok (false, "Error parsing breakpoint dates: " ++ message e)
        else Raise e
    end.

(** [isinstance(v, int)], with the integer it stands for: a [bool] is an
    [int]. *)
Definition as_int (v : pyval) : option Z :=
  match v with
  | PInt z => Some z
  | PBool b => Some (if b then 1 else 0)
  | _ => None
  end.

(** [str(v)] for an instance of [int]. *)
Definition show_value (v : pyval) : string :=
  match v with
  | PInt z => show_int z
  | PBool true => "True"
  | PBool false => "False"
  | _ => EmptyString
  end.

(** An early return: the payload failed a presence or a type check. *)
Definition rejected (task_completed : bool) (output_json : pyval)
  (why : string) : outcome :=
  {| passed := false;
     feedback := why;
     details := [("task_completed", PBool task_completed);
                 ("output_json", output_json)] |}.

(** The outcome returned when no JSON object was found. *)
Definition not_found (task_completed : bool) (conversation : pyval)
  : res outcome :=
  n <- len conversation ;;
  Ok {| passed := false;
        feedback := "No valid JSON object found in assistant responses.";
        details := [("task_completed", PBool task_completed);
                    ("conversation_length", PInt n)] |}.

(** The final record, once both fields have been checked. *)
Definition verdict (task_completed : bool) (output_json regime_count : pyval)
  (regime_count_correct breakpoints_correct : bool)
  (breakpoint_feedback : string) : outcome :=
  let passed := task_completed && regime_count_correct && breakpoints_correct in
  let feedback_parts :=
    List.app
      ["Found JSON output: " ++ json_dumps output_json;
       (if regime_count_correct then "✓" else "✗") ++ " Regime count: got "
         ++ show_value regime_count ++ ", expected "
         ++ show_int EXPECTED_REGIME_COUNT ++ ".";
       breakpoint_feedback]
      (if negb task_completed then ["✗ Task status is not success."] else [])
  in
  {| passed := passed;
     feedback := join newline feedback_parts;
     details :=
       [("task_completed", PBool task_completed);
        ("output_json", output_json);
        ("regime_count_correct", PBool regime_count_correct);
        ("breakpoints_correct", PBool breakpoints_correct);
        ("expected_regime_count", PInt EXPECTED_REGIME_COUNT);
        ("expected_breakpoints", PList (map PStr EXPECTED_BREAKPOINTS));
        ("tolerance_days", PInt TOLERANCE_DAYS)] |}.

(** Everything [test] does with an extracted object. *)
Definition grade (task_completed : bool) (output_json : pyval) : res outcome :=
  has_regime_count <- py_in "regime_count" output_json ;;
  if negb has_regime_count
  then Ok (rejected task_completed output_json
             "JSON output missing 'regime_count' field.")
  else
  has_breakpoints <- py_in "breakpoints" output_json ;;
  if negb has_breakpoints
  then Ok (rejected task_completed output_json
             "JSON output missing 'breakpoints' field.")
  else
  match output_json with
  | PDict j =>
      let regime_count := get j "regime_count" in
      let breakpoints := get_default j "breakpoints" (PList []) in
      match as_int regime_count with
      | None =>
          Ok (rejected task_completed output_json
                ("regime_count must be an integer, got "
                   ++ type_name regime_count ++ "."))
      | Some count =>
          match breakpoints with
          | PList bps =>
              let regime_count_correct := count =? EXPECTED_REGIME_COUNT in
              checked <- check_breakpoints bps ;;
              Ok (verdict task_completed output_json regime_count
                    regime_count_correct (fst checked) (snd checked))
          | _ =>
              Ok (rejected task_completed output_json
                    ("breakpoints must be a list, got "
                       ++ type_name breakpoints ++ "."))
          end
      end
  | _ => Raise AttributeError
  end.

Definition test (result : dict) : res outcome :=
  let conversation := py_or (get result "conversation") (PList []) in
  let task_completed := eq_str (get result "status") "success" in
  let task_result := get result "task_result" in
  output_json <-
    (if truthy task_result
     then extract_json task_result
     else Ok None) ;;
  output_json <-
    (match Scanner.keep pyval truthy output_json with
     | Some j => Ok (Some j)
     | None => _extract_json_from_conversation conversation
     end) ;;
  match Scanner.keep pyval truthy output_json with
  | None => not_found task_completed conversation
  | Some j => grade task_completed j
  end.

End Grader.

End LinearRegime.

(** ** The rules the graders are checked against *)

Module Rules.
Import Text.

(** The completion flag: the [status] field is the literal [success]. *)
Definition task_completed (result : dict) : bool :=
  match lookup "status" result with
  | Some (PStr s) => (s =? "success")%string
  | _ => false
  end.

(** Exact mode for the tag answer: trimmed and upper-cased, it is the
    expected code. *)
Definition answer_valid (answer : string) : bool :=
  (upper (strip answer) =? "EFPTGK")%string.

(** Exact mode for the scalar field: an integer equal to the expected
    count. *)
Definition regime_count_valid (payload : pyval) : bool :=
  match payload with
  | PDict d =>
      match lookup "regime_count" d with
      | Some (PInt z) => z =? 3
      | _ => false
      end
  | _ => false
  end.

(** The expected breakpoints as dates. *)
Definition expected_dates : list LinearRegime.datetime :=
  [ {| LinearRegime.year := 2024; LinearRegime.month := 7; LinearRegime.day := 27 |};
    {| LinearRegime.year := 2025; LinearRegime.month := 2; LinearRegime.day := 16 |} ].

(** Two dates at most [tolerance] days apart. *)
Definition close (tolerance : Z) (e o : LinearRegime.datetime) : Prop :=
  Z.abs (LinearRegime.toordinal e - LinearRegime.toordinal o) <= tolerance.

Definition closeb (tolerance : Z) (e o : LinearRegime.datetime) : bool :=
  Z.abs (LinearRegime.toordinal e - LinearRegime.toordinal o) <=? tolerance.

(** Chronological order. *)
Definition ordered (a b : LinearRegime.datetime) : Prop :=
  LinearRegime.date_leb a b = true.

Fixpoint all_close (tolerance : Z) (es os : list LinearRegime.datetime) : bool :=
  match es, os with
  | [], [] => true
  | e :: es', o :: os' => closeb tolerance e o && all_close tolerance es' os'
  | _, _ => false
  end.

(** Tolerant ordered-set mode for the date field: a list of as many dates
    as expected, every one of which parses, and which, both lists sorted,
    are pairwise within seven days of the expected ones. *)
Definition breakpoints_valid (payload : pyval) : bool :=
  match payload with
  | PDict d =>
      match lookup "breakpoints" d with
      | Some (PList bps) =>
          match LinearRegime.parse_dates bps with
          | Ok ds =>
              all_close 7 (LinearRegime.sort_dates expected_dates)
                (LinearRegime.sort_dates ds)
          | Raise _ => false
          end
      | _ => false
      end
  | _ => false
  end.

(** What the eight-puzzle grader returns when only the conversation is
    read. *)
Definition from_conversation (result : dict) : res outcome :=
  let conversation := py_or (get result "conversation") (PList []) in
  answer <- EightPuzzle._extract_answer_from_conversation conversation ;;
  match Scanner.keep string EightPuzzle.nonempty answer with
  | Some a => Ok (EightPuzzle.grade (task_completed result) a)
  | None => EightPuzzle.not_found (task_completed result) conversation
  end.

(** [newest_with body msgs a]: in the conversation [msgs], given oldest
    first, [a] is what [body] finds in the newest message in which it
    finds anything, and it finds nothing (and raises nothing) in the
    messages after it. *)
Definition newest_with {A : Type} (body : pyval -> res (option A))
  (msgs : list pyval) (a : A) : Prop :=
  exists older m newer,
    msgs = (older ++ m :: newer)%list
    /\ Forall (fun x => body x = Ok None) newer
    /\ body m = Ok (Some a).

(** [body] finds nothing in any message of [msgs]. *)
Definition silent {A : Type} (body : pyval -> res (option A))
  (msgs : list pyval) : Prop :=
  Forall (fun x => body x = Ok None) msgs.

(** The payload of the first source that gives one: the direct result
    when an answer that counts is extracted from it; the conversation when
    the direct result is absent or empty, or is a text that gives no
    answer that counts. *)
Inductive first_payload {A : Type} (extract : string -> option A)
  (found : A -> bool) (scan : pyval -> res (option A)) (result : dict) (a : A)
  : Prop :=
| from_direct_result (s : string) :
    get result "task_result" = PStr s ->
    extract s = Some a ->
    found a = true ->
    first_payload extract found scan result a
| from_conversation_scan :
    (truthy (get result "task_result") = false
     \/ exists s, get result "task_result" = PStr s
          /\ Scanner.keep A found (extract s) = None) ->
    scan (py_or (get result "conversation") (PList [])) = Ok (Some a) ->
    first_payload extract found scan result a.

(** No source gives a payload: the direct result is absent or empty, or
    is a text that gives no answer that counts, and the scan of the
    conversation finds nothing. *)
Definition no_payload {A : Type} (extract : string -> option A)
  (found : A -> bool) (scan : pyval -> res (option A)) (result : dict)
  : Prop :=
  (truthy (get result "task_result") = false
   \/ exists s, get result "task_result" = PStr s
        /\ Scanner.keep A found (extract s) = None)
  /\ scan (py_or (get result "conversation") (PList [])) = Ok None.

(** A payload with a field missing or of the wrong type: no
    [regime_count], no [breakpoints], a [regime_count] that is no [int]
    (a [bool] is one) or [breakpoints] that are no list. *)
Definition malformed (payload : pyval) : bool :=
  match payload with
  | PDict d =>
      match lookup "regime_count" d, lookup "breakpoints" d with
      | Some (PInt _ | PBool _), Some (PList _) => false
      | _, _ => true
      end
  | _ => true
  end.

(** What the details of an eight-puzzle outcome hold, by the source of
    the outcome: the completion flag and the length of the conversation
    when no source gives a payload; the completion flag, the first
    payload, its correctness and the expected answer otherwise. *)
Definition puzzle_details (result : dict) (o : outcome) : Prop :=
  (no_payload EightPuzzle._extract_answer_from_text EightPuzzle.nonempty
     EightPuzzle._extract_answer_from_conversation result
   /\ passed o = false
   /\ exists n,
        len (py_or (get result "conversation") (PList [])) = Ok n
        /\ details o = [("task_completed", PBool (task_completed result));
                        ("conversation_length", PInt n)])
  \/ (exists a,
        first_payload EightPuzzle._extract_answer_from_text
          EightPuzzle.nonempty EightPuzzle._extract_answer_from_conversation
          result a
        /\ details o = [("task_completed", PBool (task_completed result));
                        ("output_answer", PStr a);
                        ("answer_correct", PBool (answer_valid a));
                        ("expected_answer", PStr "EFPTGK")]).

(** What the details of a linear-regime outcome hold, by the source of
    the outcome: the completion flag and the length of the conversation
    when no source gives a payload; the completion flag and the first
    payload when that payload has a field missing or of the wrong type;
    all seven entries otherwise. *)
Definition regime_details (result : dict) (o : outcome) : Prop :=
  (no_payload LinearRegime._extract_json_from_text truthy
     LinearRegime._extract_json_from_conversation result
   /\ passed o = false
   /\ exists n,
        len (py_or (get result "conversation") (PList [])) = Ok n
        /\ details o = [("task_completed", PBool (task_completed result));
                        ("conversation_length", PInt n)])
  \/ (exists j,
        first_payload LinearRegime._extract_json_from_text truthy
          LinearRegime._extract_json_from_conversation result j
        /\ malformed j = true
        /\ passed o = false
        /\ details o = [("task_completed", PBool (task_completed result));
                        ("output_json", j)])
  \/ (exists j,
        first_payload LinearRegime._extract_json_from_text truthy
          LinearRegime._extract_json_from_conversation result j
        /\ malformed j = false
        /\ details o = [("task_completed", PBool (task_completed result));
                        ("output_json", j);
                        ("regime_count_correct", PBool (regime_count_valid j));
                        ("breakpoints_correct", PBool (breakpoints_valid j));
                        ("expected_regime_count", PInt 3);
                        ("expected_breakpoints",
                         PList [PStr "2024-07-27"; PStr "2025-02-16"]);
                        ("tolerance_days", PInt 7)]).

(** A text made of whitespace only. *)
Fixpoint blank (s : string) : bool :=
  match s with
  | EmptyString => true
  | String c s' => Text.is_space c && blank s'
  end.

(** Both components of a split text in upper case. *)
Definition upper_both (x : string * string) : string * string :=
  (Text.upper (fst x), Text.upper (snd x)).

(** A JSON object, and a text that opens with a brace. *)
Definition is_dict (v : pyval) : Prop := exists d, v = PDict d.

Definition opens_with_brace (s : string) : Prop :=
  exists tail, s = String "{" tail.

End Rules.

(** ** Sample records *)

Module Samples.

Definition quoted (s : string) : string :=
  (String Json.dquote s ++ String Json.dquote EmptyString)%string.

(** An assistant message that only speaks. *)
Definition says (content : string) : pyval :=
  PDict [("role", PStr "assistant"); ("content", PStr content)].

(** An assistant message that calls [task_complete] with a [result]. *)
Definition completes (result : string) : pyval :=
  PDict
    [("role", PStr "assistant");
     ("content", PNone);
     ("tool_calls",
      PList
        [PDict
           [("id", PStr "call_1");
            ("type", PStr "function");
            ("function",
             PDict
               [("name", PStr "task_complete");
                ("arguments",
                 PStr ("{" ++ quoted "result" ++ ": " ++ quoted result ++ "}"))])]])].

(** An older tool-call result followed by a newer content answer. *)
Definition old_call_new_content : pyval :=
  PList [completes "<answer>OLD</answer>"; says "<answer>NEW</answer>"].

(** A record whose direct result and whose conversation both carry an
    answer, and the same record with another conversation. *)
Definition direct_and_conversation : dict :=
  [("status", PStr "success");
   ("task_result", PStr "The code is <answer>EFPTGK</answer>.");
   ("conversation", PList [says "<answer>ABCDEF</answer>"])].

Definition direct_only : dict :=
  [("status", PStr "success");
   ("task_result", PStr "The code is <answer>EFPTGK</answer>.")].

(** A JSON payload whose breakpoints are numbers. *)
Definition numeric_breakpoints : dict :=
  [("status", PStr "success");
   ("task_result",
    PStr ("{" ++ quoted "regime_count" ++ ": 3, "
            ++ quoted "breakpoints" ++ ": [1, 2]}"))].

(** A message whose content is a list of parts. *)
Definition structured_content : dict :=
  [("status", PStr "success");
   ("conversation",
    PList
      [PDict
         [("role", PStr "assistant");
          ("content",
           PList [PDict [("type", PStr "text");
                         ("text", PStr "<answer>EFPTGK</answer>")]])]])].

(** An empty direct answer, a wrong answer in a tool-call result and the
    right answer in a newer content. *)
Definition wrong_call_right_content : dict :=
  [("status", PStr "success");
   ("task_result", PStr "<answer> </answer>");
   ("conversation",
    PList [completes "<answer>ABCDEF</answer>"; says "<answer>EFPTGK</answer>"])].

Definition full_json : string :=
  "{" ++ quoted "regime_count" ++ ": 3, " ++ quoted "breakpoints" ++ ": ["
    ++ quoted "2024-07-27" ++ ", " ++ quoted "2025-02-16" ++ "]}".


(** A stand-in for [json.dumps] where a concrete one is needed. *)
Definition no_dump (v : pyval) : string := EmptyString.

(** Two breakpoints in the wrong order, each within tolerance, and two
    breakpoints that are both too far. *)
Definition close_breakpoints : list pyval :=
  [PStr "2025-02-20"; PStr "2024-07-25"].

Definition far_breakpoints : list pyval :=
  [PStr "2025-03-20"; PStr "2024-07-30"].

(** A payload with one breakpoint, which is not even a string. *)
Definition one_breakpoint : dict :=
  [("regime_count", PInt 3); ("breakpoints", PList [PInt 20250216])].

(** The right answer from a run that did not complete, and a wrong count
    from a run that did. *)
Definition right_answer_failed_run : dict :=
  [("status", PStr "failed");
   ("task_result", PStr "<answer>EFPTGK</answer>")].

Definition wrong_count_json : string :=
  "{" ++ quoted "regime_count" ++ ": 2, " ++ quoted "breakpoints" ++ ": ["
    ++ quoted "2024-07-27" ++ ", " ++ quoted "2025-02-16" ++ "]}".

Definition wrong_count_completed_run : dict :=
  [("status", PStr "success"); ("task_result", PStr wrong_count_json)].

Definition wrong_count_payload : pyval :=
  PDict [("regime_count", PInt 2);
         ("breakpoints", PList [PStr "2024-07-27"; PStr "2025-02-16"])].

(** A direct payload without its breakpoints. *)
Definition missing_breakpoints : dict :=
  [("status", PStr "success");
   ("task_result", PStr ("{" ++ quoted "regime_count" ++ ": 3}"))].


End Samples.

(** ** Notions the further properties are stated with *)

Module Transcript.

(** [isinstance(message, dict) and message.get("role") == "assistant"] *)
Definition is_assistant (message : pyval) : bool :=
  match message with
  | PDict m => eq_str (get m "role") "assistant"
  | _ => false
  end.

(** A [task_complete] call, or any other, that the scanner passes over:
    another function, arguments that do not decode, arguments without a
    [result], or a [result] that is not a text. *)
Inductive ignorable (func : dict) : Prop :=
| other_function :
    eq_str (get func "name") "task_complete" = false -> ignorable func
| undecodable_arguments (s : string) :
    lookup "arguments" func = Some (PStr s) ->
    Json.loads s = None -> ignorable func
| no_result (args : dict) :
    Scanner.decode_arguments (get_default func "arguments" (PStr "{}"))
    = Ok (PDict args) ->
    lookup "result" args = None -> ignorable func
| result_not_text (args : dict) (v : pyval) :
    Scanner.decode_arguments (get_default func "arguments" (PStr "{}"))
    = Ok (PDict args) ->
    lookup "result" args = Some v ->
    (forall s, v <> PStr s) -> ignorable func.

End Transcript.

Module Tags.
Import Text.

(** [s.lower()] on ASCII. *)
Fixpoint lower (s : string) : string :=
  match s with
  | EmptyString => EmptyString
  | String c s' => String (to_lower c) (lower s')
  end.

(** A text without whitespace at either end. *)
Definition trimmed (s : string) : Prop := lstrip s = s /\ rstrip s = s.

(** An ASCII text: on these the whitespace and the case mapping of the
    interpreter are the ones above, whatever it does elsewhere. *)
Fixpoint ascii_only (s : string) : bool :=
  match s with
  | EmptyString => true
  | String c s' => (code c <? 128)%nat && ascii_only s'
  end.

End Tags.

Module Calendar.
Import LinearRegime.

(** A date of the proleptic Gregorian calendar that [datetime] can hold. *)
Definition valid_date (d : datetime) : Prop :=
  1 <= year d <= 9999
  /\ 1 <= month d <= 12
  /\ 1 <= day d <= days_in_month (year d) (month d).

(** A month and a day of that month, in whatever year. *)
Definition well_formed (d : datetime) : Prop :=
  1 <= month d <= 12 /\ 1 <= day d <= days_in_month (year d) (month d).

Definition year_length (y : Z) : Z := if is_leap y then 366 else 365.

(** The days of a year before each month, and the days of each month. *)
Definition days_before_table (leap : bool) (m : Z) : Z :=
  let l := if leap then 1 else 0 in
  match m with
  | 1 => 0 | 2 => 31 | 3 => 59 + l | 4 => 90 + l | 5 => 120 + l
  | 6 => 151 + l | 7 => 181 + l | 8 => 212 + l | 9 => 243 + l
  | 10 => 273 + l | 11 => 304 + l | 12 => 334 + l
  | _ => 0
  end.

Definition days_in_table (leap : bool) (m : Z) : Z :=
  match m with
  | 2 => if leap then 29 else 28
  | 4 | 6 | 9 | 11 => 30
  | _ => 31
  end.

(** The day after a date, by the calendar alone: the next day of the
    month, the first of the next month, or the first of January. *)
Definition next_day (d : datetime) : datetime :=
  if day d <? days_in_table (is_leap (year d)) (month d)
  then {| year := year d; month := month d; day := day d + 1 |}
  else if month d <? 12
  then {| year := year d; month := month d + 1; day := 1 |}
  else {| year := year d + 1; month := 1; day := 1 |}.

(** The date [n] days after a date. *)
Fixpoint days_after (n : nat) (d : datetime) : datetime :=
  match n with
  | O => d
  | S n => next_day (days_after n d)
  end.

(** Two dates [n] days apart: one is [n] days after the other. *)
Definition days_apart (n : nat) (a b : datetime) : Prop :=
  b = days_after n a \/ a = days_after n b.

End Calendar.

Module Printing.
Import Text LinearRegime.

(** The year [n] prints on four digits that read back as [n]. *)
Definition prints_as_read (y : Z) : bool :=
  match pad 4 y with
  | String a (String b (String c (String d EmptyString))) =>
      is_digit a && is_digit b && is_digit c && is_digit d
      && (((digit_val a * 10 + digit_val b) * 10 + digit_val c) * 10
          + digit_val d =? y)
  | _ => false
  end.

(** The years of four digits. *)
Definition four_digit_years : list Z :=
  map (fun n => 1000 + Z.of_nat n) (seq 0 (Z.to_nat 9000)).

End Printing.

Module Typed.





(** A breakpoint that is not a text. *)
Definition not_text (v : pyval) : Prop := forall s, v <> PStr s.

(** The opening brackets of a text, and the backslashes that can escape
    one in a JSON string. *)
Fixpoint openings (s : string) : nat :=
  match s with
  | EmptyString => O
  | String c s' =>
      if ((c =? "[") || (c =? "{") || (c =? "\"))%char
      then S (openings s') else openings s'
  end.

(** A text on which the embedding is exact, and so is it on every text
    decoded from it: ASCII, without an escape that could stand for
    another character, of at most 4300 bytes, so that no integer has
    more digits than [json.loads] converts by default, and with at most
    200 opening brackets, so that nothing is nested deeper than the
    interpreter lets it recurse. *)
Definition plain (s : string) : bool :=
  Tags.ascii_only s
  && negb (Text.contains "\u" s)
  && (String.length s <=? 4300)%nat
  && (openings s <=? 200)%nat.


End Typed.

Module Braces.

Definition is_brace (c : ascii) : bool := (c =? "{")%char || (c =? "}")%char.

(** A text without braces. *)
Fixpoint brace_free (s : string) : bool :=
  match s with
  | EmptyString => true
  | String c s' => negb (is_brace c) && brace_free s'
  end.

(** A text without a backtick, so without a fence. *)
Fixpoint fence_free (s : string) : bool :=
  match s with
  | EmptyString => true
  | String c s' => negb (c =? "`")%char && fence_free s'
  end.

(** What may stand between the braces of an object that holds objects
    without objects of their own: brace-free text and brace-free text
    between braces, in turn. *)
Inductive nested_once : string -> Prop :=
| plain (p : string) : brace_free p = true -> nested_once p
| group (p q rest : string) :
    brace_free p = true -> brace_free q = true -> nested_once rest ->
    nested_once (p ++ "{" ++ q ++ "}" ++ rest).

End Braces.

(** ** executor/utils.py *)

Module Config.

(** [d.pop(k, None)] on a dict: what is left of the dict. *)
Fixpoint pop (k : string) (d : dict) : dict :=
  match d with
  | [] => []
  | (k', v) :: d' =>
      if (k' =? k)%string then pop k d' else (k', v) :: pop k d'
  end.

(** [v.pop(k, None)], done in place: the value the object holds afterwards.
    A list takes one argument at most; the other values have no [pop]. *)
Definition pop_in_place (v : pyval) (k : string) : res pyval :=
  match v with
  | PDict d => Ok (PDict (pop k d))
  | PList _ => Raise TypeError
  | _ => Raise AttributeError
  end.

(** [extract_config_info(config)].  [config_info['controller']] is the very
    object stored in [config], so the [pop] on its [args] also changes the
    caller's dict: the call gives [config_info] and the [config] it leaves
    behind.  [config] is a tree, as [json.load] builds it: the args are
    reachable through the controller only. *)
Definition extract_config_info (config : dict) : res (dict * dict) :=
  let controller_config := get_default config "controller" (PDict []) in
  let sandbox_config := get_default config "sandbox" (PDict []) in
  match controller_config with
  | PDict controller =>
      match lookup "args" controller with
      | Some args =>
          args <- pop_in_place args "api_key" ;;
          let controller_config := PDict (set "args" args controller) in
          Ok ([("controller", controller_config);
               ("sandbox", sandbox_config)],
              set "controller" controller_config config)
      | None => Raise KeyError
      end
  | _ => Raise TypeError
  end.

End Config.

Module Retry.

Section Request.

(** What [func] can see and change, what it returns and what it raises;
    [E] is the class [Exception], the only one the loop catches. *)
Variables State A E : Type.

(** One call of [func]. *)
Inductive attempted : Type :=
| Returned (a : A)
| Failed (e : E).

Variable func : State -> attempted * State.

(** The [ValueError] of [time.sleep] for a negative length. *)
Variable sleep_error : E.

(** The state [func] works on and the sleeps made so far, oldest first. *)
Record world : Type := { state : State; slept : list Q }.

(** How a call of [retry_request] ends; falling off the loop gives
    [None]. *)
Inductive outcome : Type :=
| Return (a : A)
| ReturnNone
| Raise (e : E).

(** A length that [time.sleep] accepts on every platform, about 46 days;
    far above it, the conversion of the length overflows. *)
Definition max_sleep : Q := 4000000.

(** [time.sleep(d)], for lengths up to [max_sleep]. *)
Definition sleep (d : Q) (w : world) : option world :=
  if Qle_bool 0 d
  then Some {| state := state w; slept := slept w ++ [d] |}
  else None.

(** The iterations of the loop from [attempt] on; [remaining] is what is
    left of [range(max_retries)].  The delay is a rational, as a finite
    [float] or an [int] is, and its product with a power of two is exact
    short of an overflow. *)
Fixpoint attempts (max_retries : Z) (delay : Q) (remaining : nat)
  (attempt : Z) (w : world) : outcome * world :=
  match remaining with
  | O => (ReturnNone, w)
  | S remaining =>
      let (r, s) := func (state w) in
      let w := {| state := s; slept := slept w |} in
      match r with
      | Returned a => (Return a, w)
      | Failed e =>
          if attempt =? max_retries - 1 then (Raise e, w)
          else
            match sleep (delay * inject_Z (2 ^ attempt)) w with
            | Some w => attempts max_retries delay remaining (attempt + 1) w
            | None => (Raise sleep_error, w)
            end
      end
  end.

Definition retry_request (max_retries : Z) (delay : Q) (w : world)
  : outcome * world :=
  attempts max_retries delay (Z.to_nat max_retries) 0 w.

(** The state after [k] calls of [func]. *)
Fixpoint after (k : nat) (s : State) : State :=
  match k with
  | O => s
  | S k => after k (snd (func s))
  end.

(** The first [k] calls from [s] all raise. *)
Definition failing (k : nat) (s : State) : Prop :=
  forall i, (i < k)%nat -> exists e, fst (func (after i s)) = Failed e.

(** The sleeps between [k + 1] attempts. *)
Definition backoff (delay : Q) (k : nat) : list Q :=
  map (fun i => (delay * inject_Z (2 ^ Z.of_nat i))%Q) (seq 0 k).

(** The sleeps of [k] failed iterations from [attempt] on. *)
Definition backoff_from (delay : Q) (attempt : Z) (k : nat) : list Q :=
  map (fun i => (delay * inject_Z (2 ^ (attempt + Z.of_nat i)))%Q) (seq 0 k).

Definition total (l : list Q) : Q := fold_right Qplus 0%Q l.

End Request.

Arguments Returned {A E} a.
Arguments Failed {A E} e.
Arguments Return {A E} a.
Arguments ReturnNone {A E}.
Arguments Raise {A E} e.
Arguments state {State} w.
Arguments slept {State} w.

End Retry.

(** ** decrypt_utils.py *)

Module Decrypt.

(** [bytes] and [str] are both strings of 8-bit characters: a [str] is
    held as its UTF-8 encoding, so that [password.encode()] leaves it as
    it is and [decode('utf-8')] checks that the bytes are well formed. *)

(** [a ^ b] on two bytes. *)
Definition xor_byte (a b : ascii) : ascii :=
  match a, b with
  | Ascii a0 a1 a2 a3 a4 a5 a6 a7, Ascii b0 b1 b2 b3 b4 b5 b6 b7 =>
      Ascii (xorb a0 b0) (xorb a1 b1) (xorb a2 b2) (xorb a3 b3)
            (xorb a4 b4) (xorb a5 b5) (xorb a6 b6) (xorb a7 b7)
  end.

(** [bytes(a ^ b for a, b in zip(x, y))] *)
Fixpoint xor_zip (x y : string) : string :=
  match x, y with
  | String a x', String b y' => String (xor_byte a b) (xor_zip x' y')
  | _, _ => EmptyString
  end.

(** [key * k] *)
Fixpoint times (k : nat) (key : string) : string :=
  match k with
  | O => EmptyString
  | S k => key ++ times k key
  end.

(** [key[:n]] *)
Fixpoint take (n : nat) (key : string) : string :=
  match n, key with
  | S n, String c key' => String c (take n key')
  | _, _ => EmptyString
  end.

Definition between (lo hi : nat) (c : ascii) : bool :=
  ((lo <=? Text.code c) && (Text.code c <=? hi))%nat.

(** A continuation byte, 80 to BF. *)
Definition continuation (c : ascii) : bool := between 128 191 c.

(** The second byte of a three-byte sequence: no overlong form after E0,
    no surrogate after ED. *)
Definition second_of_three (a b : ascii) : bool :=
  if (Text.code a =? 224)%nat then between 160 191 b
  else if (Text.code a =? 237)%nat then between 128 159 b
  else continuation b.

(** The second byte of a four-byte sequence: no overlong form after F0,
    nothing above U+10FFFF after F4. *)
Definition second_of_four (a b : ascii) : bool :=
  if (Text.code a =? 240)%nat then between 144 191 b
  else if (Text.code a =? 244)%nat then between 128 143 b
  else continuation b.

(** Whether [bytes.decode('utf-8')] accepts the bytes. *)
Fixpoint valid_utf8 (s : string) : bool :=
  match s with
  | EmptyString => true
  | String a s1 =>
      if (Text.code a <=? 127)%nat then valid_utf8 s1
      else if between 194 223 a then
        match s1 with
        | String b s2 => continuation b && valid_utf8 s2
        | _ => false
        end
      else if between 224 239 a then
        match s1 with
        | String b (String c s3) =>
            second_of_three a b && continuation c && valid_utf8 s3
        | _ => false
        end
      else if between 240 244 a then
        match s1 with
        | String b (String c (String d s4)) =>
            second_of_four a b && continuation c && continuation d
            && valid_utf8 s4
        | _ => false
        end
      else false
  end.

(** The exceptions of the module: [UnicodeDecodeError] is a subclass of
    [ValueError]; [FileNotFoundError] and the other [OSError]s are not. *)
Inductive error : Type :=
| ValueError (msg : string)
| UnicodeDecodeError (msg : string)
| FileNotFoundError (msg : string)
| OSError (msg : string).

Inductive result (A : Type) : Type :=
| Done (a : A)
| Fail (e : error).
Arguments Done {A} a.
Arguments Fail {A} e.

(** [isinstance(e, ValueError)] *)
Definition is_value_error (e : error) : bool :=
  match e with
  | ValueError _ | UnicodeDecodeError _ => true
  | FileNotFoundError _ | OSError _ => false
  end.

(** [str(e)] *)
Definition message (e : error) : string :=
  match e with
  | ValueError msg | UnicodeDecodeError msg | FileNotFoundError msg
  | OSError msg => msg
  end.

(** What a path leads to: something that [Path.exists] itself cannot
    look at (a name too long, a directory that may not be searched), so
    that it raises an [OSError] outside every [try]; nothing; something
    that [open] or [read] refuses with an [IOError]; bytes that are no
    UTF-8 text; or the text that [read] gives. *)
Inductive file : Type :=
| Inaccessible (msg : string)
| Missing
| Unreadable (msg : string)
| Undecodable (msg : string)
| Holds (content : string).

Section Library.

(** [hashlib.sha256(m).digest()]; the digest has 32 bytes, so the
    division below is defined. *)
Variable sha256 : string -> string.

(** [base64.b64decode]: the bytes, or the text of what it raises. *)
Variable b64decode : string -> string + string.

(** The text of the [UnicodeDecodeError] for ill-formed bytes. *)
Variable decode_error : string -> string.

(** Paths, their [str] and [/], and what they lead to. *)
Variable path : Type.
Variable show : path -> string.
Variable child : path -> string -> path.
Variable fs : path -> file.

Definition derive_key (password : string) (length : Z) : string :=
  let key := sha256 password in
  let n := Z.of_nat (String.length key) in
  times (Z.to_nat (length / n)) key ++ take (Z.to_nat (length mod n)) key.

Definition decrypt (ciphertext_b64 password : string) : result string :=
  match b64decode ciphertext_b64 with
  | inr e => Fail (ValueError ("Failed to decode base64: " ++ e))
  | inl encrypted =>
      let key := derive_key password (Z.of_nat (String.length encrypted)) in
      let decrypted := xor_zip encrypted key in
      if valid_utf8 decrypted then Done decrypted
      else Fail (ValueError ("Failed to decode decrypted content as UTF-8: "
                             ++ decode_error decrypted))
  end.

Definition decrypt_file_to_memory (encrypted_file_path : path)
  (canary : string) : result string :=
  match fs encrypted_file_path with
  | Inaccessible e => Fail (OSError e)
  | Missing =>
      Fail (FileNotFoundError
              ("Encrypted file not found: " ++ show encrypted_file_path))
  | Unreadable e =>
      Fail (ValueError ("Failed to read encrypted file "
                        ++ show encrypted_file_path ++ ": " ++ e))
  | Undecodable e => Fail (UnicodeDecodeError e)
  | Holds content =>
      let encrypted_content := Text.strip content in
      if (encrypted_content =? "")%string then
        Fail (ValueError ("Encrypted file " ++ show encrypted_file_path
                          ++ " is empty"))
      else
        match decrypt encrypted_content canary with
        | Done decrypted_content => Done decrypted_content
        | Fail e =>
            if is_value_error e then
              Fail (ValueError ("Failed to decrypt "
                                ++ show encrypted_file_path ++ ": "
                                ++ message e))
            else Fail e
        end
  end.

Definition read_canary (task_dir : path) : result (option string) :=
  let canary_file := child task_dir "canary.txt" in
  match fs canary_file with
  | Inaccessible e => Fail (OSError e)
  | Missing => Done None
  | Unreadable e =>
      Fail (ValueError ("Failed to read canary file " ++ show canary_file
                        ++ ": " ++ e))
  | Undecodable e => Fail (UnicodeDecodeError e)
  | Holds content =>
      let canary := Text.strip content in
      if (canary =? "")%string then
        Fail (ValueError ("Canary file " ++ show canary_file ++ " is empty"))
      else Done (Some canary)
  end.

End Library.

(** The XOR of a text with the key derived for its length. *)
Definition xor_with_key (sha256 : string -> string)
  (password text : string) : string :=
  xor_zip text
    (derive_key sha256 password (Z.of_nat (String.length text))).

End Decrypt.

(** ** More sample inputs *)

Module Cases.

(** A record whose only message is the user's, although it holds a tagged
    answer. *)
Definition user_message : pyval :=
  PDict [("role", PStr "user"); ("content", PStr "<answer>EFPTGK</answer>")].

Definition user_only : dict :=
  [("status", PStr "success"); ("conversation", PList [user_message])].

(** A call of another tool. *)
Definition search_function : dict :=
  [("name", PStr "search"); ("arguments", PStr "{}")].

Definition search_call : dict :=
  [("id", PStr "call_0"); ("type", PStr "function");
   ("function", PDict search_function)].

(** The expected payload as the direct result of a run that completed. *)
Definition right_payload_run : dict :=
  [("status", PStr "success"); ("task_result", PStr Samples.full_json)].

Definition right_payload : pyval :=
  PDict [("regime_count", PInt 3);
         ("breakpoints", PList [PStr "2024-07-27"; PStr "2025-02-16"])].

(** An opening tag without a closing one. *)
Definition unclosed_tag : string := "The code is <answer>EFPTGK.".

(** An answer between tags of mixed case. *)
Definition mixed_case_tags : string :=
  "The code is <Answer> efptgk </ANSWER>.".

(** Two breakpoints, the later one first. *)
Definition later_first : list pyval :=
  [PStr "2025-02-14"; PStr " 2024-07-30 "].

Definition later_first_dates : list LinearRegime.datetime :=
  [ {| LinearRegime.year := 2025; LinearRegime.month := 2;
       LinearRegime.day := 14 |};
    {| LinearRegime.year := 2024; LinearRegime.month := 7;
       LinearRegime.day := 30 |} ].

Definition leap_day : LinearRegime.datetime :=
  {| LinearRegime.year := 2024; LinearRegime.month := 2;
     LinearRegime.day := 29 |}.

(** A configuration with a key to hide, what is reported of it and what
    the caller is left with. *)
Definition llm_config : dict :=
  [("controller",
    PDict [("type", PStr "llm");
           ("args", PDict [("model", PStr "gpt"); ("api_key", PStr "sk-1");
                           ("temperature", PInt 0)])]);
   ("sandbox", PDict [("docker_port", PInt 8080)]);
   ("log_level", PStr "INFO")].

Definition llm_controller : pyval :=
  PDict [("type", PStr "llm");
         ("args", PDict [("model", PStr "gpt"); ("temperature", PInt 0)])].

Definition llm_info : dict :=
  [("controller", llm_controller);
   ("sandbox", PDict [("docker_port", PInt 8080)])].

Definition llm_config_after : dict :=
  [("controller", llm_controller);
   ("sandbox", PDict [("docker_port", PInt 8080)]);
   ("log_level", PStr "INFO")].

(** A request that fails twice and then returns the number of calls made
    before, and one that always fails; the state counts the calls. *)
Definition flaky (calls : nat) : Retry.attempted nat string * nat :=
  (if (calls <? 2)%nat then Retry.Failed "timeout"
   else Retry.Returned calls, S calls).

Definition broken (calls : nat) : Retry.attempted nat string * nat :=
  (Retry.Failed "refused", S calls).

Definition negative_sleep : string := "sleep length must be non-negative".

Definition fresh : Retry.world nat :=
  {| Retry.state := O; Retry.slept := [] |}.

(** The SHA-256 digest of [canary], whatever the password. *)
Definition canary_digest (password : string) : string :=
  fold_right (fun n s => String (ascii_of_nat n) s) EmptyString
    [225; 0; 251; 206; 0; 140; 4; 236; 64; 99; 122; 240; 175; 145; 251; 47;
     5; 174; 237; 194; 63; 133; 106; 45; 60; 11; 21; 128; 98; 93; 117;
     94]%nat.

(** The base64 decoder on the one text met below: [hello] under the key
    of [canary]. *)
Definition decode_hello (text : string) : string + string :=
  if (text =? "iWWXom8=")%string
  then inl (fold_right (fun n s => String (ascii_of_nat n) s) EmptyString
              [137; 101; 151; 162; 111]%nat)
  else inr "Incorrect padding".

Definition no_text (bytes : string) : string :=
  "'utf-8' codec can't decode bytes".

(** A directory with the encrypted file alone, its text ending in a
    newline. *)
Definition task_files (p : string) : Decrypt.file :=
  if (p =? "task.yaml.enc")%string
  then Decrypt.Holds ("iWWXom8=" ++ String (ascii_of_nat 10) EmptyString)
  else Decrypt.Missing.

(** A directory with a canary file, its text ending in a newline. *)
Definition inside (directory name : string) : string :=
  directory ++ "/" ++ name.

Definition canary_files (p : string) : Decrypt.file :=
  if (p =? "task/canary.txt")%string
  then Decrypt.Holds ("canary" ++ String (ascii_of_nat 10) EmptyString)
  else Decrypt.Missing.

(** A payload in prose: an object that holds one object. *)
Definition payload_before : string :=
  Samples.quoted "regime_count" ++ ": 3, " ++ Samples.quoted "meta" ++ ": ".

Definition payload_inside : string := Samples.quoted "n" ++ ": 1".

Definition payload_in_prose : string :=
  "Result: " ++ "{" ++ (payload_before ++ "{" ++ payload_inside ++ "}" ++ "")
  ++ "}" ++ " as asked.".

End Cases.

(** * Properties *)

(** ** [json.loads]: the call budget is enough *)
Module JsonFacts.
Import Json.

Lemma prepend_rest (p : string) (x : option (string * string)) (b r : string) :
  prepend p x = Some (b, r) -> exists b', x = Some (b', r).
Proof.
  destruct x as [[b' r']|]; simpl; [|discriminate].
  intros H. injection H as _ <-. eauto.
Qed.

Ltac break_match H :=
  match type of H with
  | context [match ?x with _ => _ end] =>
      let E := fresh "E" in destruct x eqn:E
  | context [if ?x then _ else _] =>
      let E := fresh "E" in destruct x eqn:E
  end.

Lemma scanstring_shorter (k : nat) :
  forall s body rest,
    (String.length s <= k)%nat ->
    scanstring s = Some (body, rest) ->
    (String.length rest < String.length s)%nat.
Proof.
  induction k as [|k IH]; intros s body rest Hk H.
  - destruct s; simpl in *; [discriminate|lia].
  - destruct s as [|c s1]; [discriminate|].
    cbn [scanstring] in H.
    repeat (break_match H; try discriminate);
    try (injection H as <- <-);
    try (apply prepend_rest in H as (b' & H);
         apply IH in H; simpl String.length in *; lia);
    simpl String.length in *; try lia.
Qed.

Lemma skip_ws_shorter (s : string) :
  (String.length (skip_ws s) <= String.length s)%nat.
Proof.
  induction s as [|c s IH]; simpl; [lia|].
  destruct (is_ws c); simpl; lia.
Qed.

Lemma starts_length (p s rest : string) :
  Text.starts p s = Some rest ->
  (String.length rest + String.length p = String.length s)%nat.
Proof.
  revert s. induction p as [|a p IH]; intros s H; simpl in *.
  - injection H as <-. lia.
  - destruct s as [|b s]; [discriminate|].
    destruct (a =? b)%char; [|discriminate].
    apply IH in H. simpl. lia.
Qed.

Lemma digits_shorter (s d rest : string) :
  digits s = (d, rest) -> (String.length rest <= String.length s)%nat.
Proof.
  revert d rest. induction s as [|c s IH]; intros d rest H; simpl in *.
  - injection H as <- <-. simpl. lia.
  - destruct (is_digit c).
    + destruct (digits s) as [d' r'] eqn:E. injection H as <- <-.
      specialize (IH _ _ eq_refl). lia.
    + injection H as <- <-. simpl. lia.
Qed.

Lemma int_part_shorter (s : string) (neg : bool) (ip rest : string) :
  int_part s = Some (neg, ip, rest) ->
  (String.length rest < String.length s)%nat.
Proof.
  unfold int_part. intros H.
  assert (Hbody : forall s1 n,
    (String.length s1 <= String.length s)%nat ->
    match s1 with
    | EmptyString => None
    | String c s2 =>
        if (c =? "0")%char then Some (n, String c EmptyString, s2)
        else if is_digit c
             then let (d, r) := digits s2 in Some (n, String c d, r)
             else None
    end = Some (neg, ip, rest) ->
    (String.length rest < String.length s)%nat).
  { intros s1 n Hle Hb. destruct s1 as [|c s2]; [discriminate|].
    simpl in Hle.
    destruct (c =? "0")%char.
    - injection Hb as _ _ <-. lia.
    - destruct (is_digit c); [|discriminate].
      destruct (digits s2) as [d r] eqn:E. apply digits_shorter in E.
      injection Hb as _ _ <-. lia. }
  destruct s as [|c s']; [discriminate|].
  destruct (c =? "-")%char.
  - apply (Hbody s' true); [simpl; lia|exact H].
  - apply (Hbody (String c s') false); [simpl; lia|exact H].
Qed.

Lemma frac_part_shorter (s : string) (f : option string) (rest : string) :
  frac_part s = (f, rest) -> (String.length rest <= String.length s)%nat.
Proof.
  unfold frac_part. intros H.
  repeat (break_match H; try discriminate);
    repeat match goal with
           | E : digits _ = _ |- _ => apply digits_shorter in E
           end;
    injection H as <- <-; subst; simpl String.length in *; lia.
Qed.

Lemma exp_part_shorter (s : string) (e : option Z) (rest : string) :
  exp_part s = (e, rest) -> (String.length rest <= String.length s)%nat.
Proof.
  unfold exp_part. intros H.
  destruct s as [|c s1]; [injection H as _ <-; lia|].
  destruct ((c =? "e")%char || (c =? "E")%char);
    [|injection H as _ <-; lia].
  assert (Hsign : forall neg s2,
    (String.length s2 <= String.length s1)%nat ->
    match digits s2 with
    | (EmptyString, _) => (None, String c s1)
    | (d, r) => (Some (if neg : bool then - decimal 0 d else decimal 0 d), r)
    end = (e, rest) ->
    (String.length rest <= String.length (String c s1))%nat).
  { intros neg s2 Hle Hd.
    destruct (digits s2) as [d r] eqn:E. apply digits_shorter in E.
    destruct d; injection Hd as _ <-; simpl; lia. }
  destruct s1 as [|g s']; [exact (Hsign false EmptyString (le_n _) H)|].
  destruct (g =? "-")%char.
  - apply (Hsign true s'); [simpl; lia|exact H].
  - destruct (g =? "+")%char.
    + apply (Hsign false s'); [simpl; lia|exact H].
    + apply (Hsign false (String g s')); [simpl; lia|exact H].
Qed.

Lemma number_shorter (s : string) (v : pyval) (rest : string) :
  number s = Some (v, rest) -> (String.length rest < String.length s)%nat.
Proof.
  unfold number. intros H.
  destruct (int_part s) as [[[neg ip] r1]|] eqn:E1; [|discriminate].
  destruct (frac_part r1) as [f r2] eqn:E2.
  destruct (exp_part r2) as [e r3] eqn:E3.
  apply int_part_shorter in E1. apply frac_part_shorter in E2.
  apply exp_part_shorter in E3.
  destruct f, e; injection H as <- <-; lia.
Qed.

Lemma scalar_shorter (s : string) (v : pyval) (rest : string) :
  scalar s = Parsed v rest -> (String.length rest < String.length s)%nat.
Proof.
  unfold scalar. intros H.
  repeat (break_match H; try discriminate);
    repeat match goal with
           | E : Text.starts _ _ = Some _ |- _ => apply starts_length in E
           | E : number _ = Some _ |- _ => apply number_shorter in E
           end;
    injection H as <- <-; subst; simpl String.length in *; lia.
Qed.

Lemma parsers_consume (n : nat) :
  (forall s, shorter (value n s) s)
  /\ (forall acc s, shorter (members n acc s) s)
  /\ (forall acc s, shorter (elements n acc s) s).
Proof.
  induction n as [|n (IHv & IHm & IHe)]; [repeat split|].
  split; [|split].
  - intros s. cbn [value].
    destruct s as [|c s1]; [exact I|].
    destruct (c =? dquote)%char.
    { destruct (scanstring s1) as [[str rest]|] eqn:E; [|exact I].
      apply (scanstring_shorter _ _ _ _ (le_n _)) in E. simpl. lia. }
    destruct (c =? "{")%char.
    { pose proof (skip_ws_shorter s1) as Hws.
      destruct (skip_ws s1) as [|c2 rest] eqn:E; [exact I|].
      destruct (c2 =? "}")%char.
      - simpl in *. lia.
      - specialize (IHm [] (String c2 rest)).
        destruct (members n [] (String c2 rest)); try exact I.
        simpl in *. lia. }
    destruct (c =? "[")%char.
    { pose proof (skip_ws_shorter s1) as Hws.
      destruct (skip_ws s1) as [|c2 rest] eqn:E; [exact I|].
      destruct (c2 =? "]")%char.
      - simpl in *. lia.
      - specialize (IHe [] (String c2 rest)).
        destruct (elements n [] (String c2 rest)); try exact I.
        simpl in *. lia. }
    destruct (scalar (String c s1)) as [v rest| |] eqn:E; try exact I.
    now apply scalar_shorter in E.
  - intros acc s. cbn [members].
    destruct s as [|q s1]; [exact I|].
    destruct (q =? dquote)%char; [|exact I].
    destruct (scanstring s1) as [[key s2]|] eqn:Ekey; [|exact I].
    apply (scanstring_shorter _ _ _ _ (le_n _)) in Ekey.
    pose proof (skip_ws_shorter s2) as Hws2.
    destruct (skip_ws s2) as [|colon s3]; [exact I|].
    destruct (colon =? ":")%char; [|exact I].
    pose proof (skip_ws_shorter s3) as Hws3.
    specialize (IHv (skip_ws s3)).
    destruct (value n (skip_ws s3)) as [v s4| |]; try exact I.
    pose proof (skip_ws_shorter s4) as Hws4.
    destruct (skip_ws s4) as [|d s5]; [exact I|].
    destruct (d =? "}")%char.
    { simpl in *. lia. }
    destruct (d =? ",")%char; [|exact I].
    pose proof (skip_ws_shorter s5) as Hws5.
    specialize (IHm (set key v acc) (skip_ws s5)).
    destruct (members n (set key v acc) (skip_ws s5)); try exact I.
    simpl in *. lia.
  - intros acc s. cbn [elements].
    specialize (IHv s).
    destruct (value n s) as [v s1| |]; try exact I.
    pose proof (skip_ws_shorter s1) as Hws1.
    destruct (skip_ws s1) as [|d s2]; [exact I|].
    destruct (d =? "]")%char.
    { simpl in *. lia. }
    destruct (d =? ",")%char; [|exact I].
    pose proof (skip_ws_shorter s2) as Hws2.
    specialize (IHe (acc ++ [v])%list (skip_ws s2)).
    destruct (elements n (acc ++ [v])%list (skip_ws s2)); try exact I.
    simpl in *. lia.
Qed.

Lemma parsers_never_exhausted (n : nat) :
  (forall s, (2 * String.length s + 1 <= n)%nat -> value n s <> Exhausted)
  /\ (forall acc s, (2 * String.length s + 1 <= n)%nat ->
                    members n acc s <> Exhausted)
  /\ (forall acc s, (2 * String.length s + 2 <= n)%nat ->
                    elements n acc s <> Exhausted).
Proof.
  induction n as [|n (IHv & IHm & IHe)].
  { repeat split; intros; lia. }
  destruct (parsers_consume n) as (Cv & Cm & Ce).
  split; [|split].
  - intros s Hn. cbn [value].
    destruct s as [|c s1]; [discriminate|].
    simpl String.length in Hn.
    destruct (c =? dquote)%char.
    { destruct (scanstring s1) as [[str rest]|]; discriminate. }
    destruct (c =? "{")%char.
    { pose proof (skip_ws_shorter s1) as Hws.
      destruct (skip_ws s1) as [|c2 rest] eqn:E; [discriminate|].
      destruct (c2 =? "}")%char; [discriminate|].
      apply IHm. lia. }
    destruct (c =? "[")%char.
    { pose proof (skip_ws_shorter s1) as Hws.
      destruct (skip_ws s1) as [|c2 rest] eqn:E; [discriminate|].
      destruct (c2 =? "]")%char; [discriminate|].
      apply IHe. lia. }
    unfold scalar.
    repeat match goal with
           | |- context [match ?x with _ => _ end] => destruct x
           end; discriminate.
  - intros acc s Hn. cbn [members].
    destruct s as [|q s1]; [discriminate|].
    simpl String.length in Hn.
    destruct (q =? dquote)%char; [|discriminate].
    destruct (scanstring s1) as [[key s2]|] eqn:Ekey; [|discriminate].
    apply (scanstring_shorter _ _ _ _ (le_n _)) in Ekey.
    pose proof (skip_ws_shorter s2) as Hws2.
    destruct (skip_ws s2) as [|colon s3]; [discriminate|].
    destruct (colon =? ":")%char; [|discriminate].
    pose proof (skip_ws_shorter s3) as Hws3.
    simpl String.length in Hws2.
    specialize (Cv (skip_ws s3)).
    assert (Hv : value n (skip_ws s3) <> Exhausted) by (apply IHv; lia).
    destruct (value n (skip_ws s3)) as [v s4| |]; [|discriminate|contradiction].
    simpl in Cv.
    pose proof (skip_ws_shorter s4) as Hws4.
    destruct (skip_ws s4) as [|d s5]; [discriminate|].
    destruct (d =? "}")%char; [discriminate|].
    destruct (d =? ",")%char; [|discriminate].
    pose proof (skip_ws_shorter s5) as Hws5.
    simpl String.length in Hws4.
    apply IHm. lia.
  - intros acc s Hn. cbn [elements].
    specialize (Cv s).
    assert (Hv : value n s <> Exhausted) by (apply IHv; lia).
    destruct (value n s) as [v s1| |]; [|discriminate|contradiction].
    simpl in Cv.
    pose proof (skip_ws_shorter s1) as Hws1.
    destruct (skip_ws s1) as [|d s2]; [discriminate|].
    destruct (d =? "]")%char; [discriminate|].
    destruct (d =? ",")%char; [|discriminate].
    pose proof (skip_ws_shorter s2) as Hws2.
    simpl String.length in Hws1.
    apply IHe. lia.
Qed.

(** The budget of [loads] is never used up. *)
Lemma loads_budget (s : string) :
  value (budget s) (skip_ws s) <> Exhausted.
Proof.
  apply (proj1 (parsers_never_exhausted (budget s))).
  unfold budget. pose proof (skip_ws_shorter s). lia.
Qed.

End JsonFacts.

(** ** Dictionaries *)
Module PyFacts.

Lemma lookup_set_same (k : string) (v : pyval) (d : dict) :
  lookup k (set k v d) = Some v.
Proof.
  induction d as [|[k' v'] d IH]; simpl.
  - now rewrite String.eqb_refl.
  - destruct (k' =? k)%string eqn:E; simpl.
    + now rewrite String.eqb_refl.
    + now rewrite E.
Qed.

Lemma lookup_set_other (k k' : string) (v : pyval) (d : dict) :
  k <> k' -> lookup k' (set k v d) = lookup k' d.
Proof.
  intros Hne. induction d as [|[k0 v0] d IH]; simpl.
  - destruct (k =? k')%string eqn:E; [|reflexivity].
    apply String.eqb_eq in E. contradiction.
  - destruct (k0 =? k)%string eqn:E; simpl.
    + apply String.eqb_eq in E. subst k0.
      destruct (k =? k')%string eqn:E'; [|reflexivity].
      apply String.eqb_eq in E'. contradiction.
    + now rewrite IH.
Qed.

(** [x or []] leaves a list as it is. *)
Lemma py_or_list (l : list pyval) : py_or (PList l) (PList []) = PList l.
Proof. now destruct l. Qed.

End PyFacts.

(** ** The scanner: two passes *)
Module ScannerFacts.
Import Scanner.
Local Open Scope list_scope.

Section Facts.

Variable A : Type.
Variable extract : pyval -> res (option A).
Variable found : A -> bool.
Variable body : pyval -> res (option A).

(** The loop finds nothing exactly when its body finds nothing in any
    message. *)
Lemma first_answer_none (l : list pyval) :
  first_answer A body l = Ok None <-> Forall (fun x => body x = Ok None) l.
Proof.
  induction l as [|m l IH]; simpl.
  - split; auto.
  - destruct (body m) as [[a|]|e] eqn:E; simpl.
    + split; [discriminate|]. intros H. inversion H; subst. congruence.
    + rewrite IH. split.
      * intros H. now constructor.
      * intros H. now inversion H.
    + split; [discriminate|]. intros H. inversion H; subst. congruence.
Qed.

(** The loop returns the answer of the first message that has one,
    provided the body neither finds nor raises anything before it. *)
Lemma first_answer_some (l : list pyval) (a : A) :
  first_answer A body l = Ok (Some a) <->
  exists pre m post,
    l = pre ++ m :: post /\ Forall (fun x => body x = Ok None) pre /\ body m = Ok (Some a).
Proof.
  induction l as [|m l IH]; simpl.
  - split; [discriminate|].
    intros (pre & m & post & H & _). now destruct pre.
  - destruct (body m) as [[b|]|e] eqn:E; simpl.
    + split.
      * intros H. injection H as <-. exists [], m, l. repeat split; auto.
      * intros (pre & m' & post & H & Hpre & Hm).
        destruct pre as [|p pre]; simpl in H; injection H as H1 H2; subst.
        -- congruence.
        -- inversion Hpre; subst. congruence.
    + rewrite IH. split.
      * intros (pre & m' & post & Hl & Hpre & Hm).
        exists (m :: pre), m', post. rewrite Hl. repeat split; auto.
      * intros (pre & m' & post & H & Hpre & Hm).
        destruct pre as [|p pre]; simpl in H; injection H as H1 H2; subst.
        -- congruence.
        -- inversion Hpre; subst. eauto 7.
    + split; [discriminate|].
      intros (pre & m' & post & H & Hpre & Hm).
      destruct pre as [|p pre]; simpl in H; injection H as H1 H2; subst.
      * congruence.
      * inversion Hpre; subst. congruence.
Qed.

(** The same, for a conversation given oldest first and read backwards. *)
Lemma first_answer_rev_some (msgs : list pyval) (a : A) :
  first_answer A body (rev msgs) = Ok (Some a) <->
  exists older m newer,
    msgs = older ++ m :: newer /\ Forall (fun x => body x = Ok None) newer /\ body m = Ok (Some a).
Proof.
  rewrite first_answer_some. split.
  - intros (pre & m & post & H & Hpre & Hm).
    exists (rev post), m, (rev pre). repeat split; auto.
    + rewrite <- (rev_involutive msgs), H, rev_app_distr. simpl.
      now rewrite <- app_assoc.
    + now apply Forall_rev.
  - intros (older & m & newer & -> & Hnew & Hm).
    exists (rev newer), m, (rev older). repeat split; auto.
    + rewrite rev_app_distr. simpl. now rewrite <- app_assoc.
    + now apply Forall_rev.
Qed.

Lemma first_answer_rev_none (msgs : list pyval) :
  first_answer A body (rev msgs) = Ok None <-> Forall (fun x => body x = Ok None) msgs.
Proof.
  rewrite first_answer_none. split; intros H.
  - rewrite <- (rev_involutive msgs). now apply Forall_rev.
  - now apply Forall_rev.
Qed.

End Facts.

Section TwoPasses.

Variable A : Type.
Variable extract : pyval -> res (option A).
Variable found : A -> bool.

(** On a list, [scan] is the tool-call loop followed by the content loop,
    both over the reversed list. *)
Lemma scan_list (msgs : list pyval) :
  scan A extract found (PList msgs) =
  match first_answer A (tool_call_answer A extract found) (rev msgs) with
  | Ok (Some a) => Ok (Some a)
  | Ok None => first_answer A (content_answer A extract found) (rev msgs)
  | Raise e => Raise e
  end.
Proof.
  unfold scan. rewrite PyFacts.py_or_list. simpl.
  destruct (first_answer A _ (rev msgs)) as [[a|]|e]; reflexivity.
Qed.

(** What [scan] returns on a list of messages: the tool-call result of
    the newest message that has one, whatever the contents say; failing
    that, the content answer of the newest message that has one. *)
Lemma scan_spec (msgs : list pyval) (a : A) :
  scan A extract found (PList msgs) = Ok (Some a) <->
  (exists older m newer,
      msgs = older ++ m :: newer
      /\ Forall (fun x => tool_call_answer A extract found x = Ok None) newer
      /\ tool_call_answer A extract found m = Ok (Some a))
  \/ (Forall (fun x => tool_call_answer A extract found x = Ok None) msgs
      /\ exists older m newer,
          msgs = older ++ m :: newer
          /\ Forall (fun x => content_answer A extract found x = Ok None) newer
          /\ content_answer A extract found m = Ok (Some a)).
Proof.
  rewrite scan_list.
  destruct (first_answer A (tool_call_answer A extract found) (rev msgs))
    as [[b|]|e] eqn:E.
  - apply first_answer_rev_some in E as E'. split.
    + intros H. injection H as <-. now left.
    + intros [H|[H _]].
      * apply first_answer_rev_some in H. congruence.
      * apply first_answer_rev_none in H. congruence.
  - apply first_answer_rev_none in E as E'.
    rewrite first_answer_rev_some. split.
    + intros H. right. now split.
    + intros [H|[_ H]]; [|exact H].
      apply first_answer_rev_some in H. congruence.
  - split; [discriminate|].
    intros [H|[H _]].
    + apply first_answer_rev_some in H. congruence.
    + apply first_answer_rev_none in H. congruence.
Qed.

End TwoPasses.

End ScannerFacts.

(** ** eight-puzzle-game: the direct result and the conversation *)
Module EightPuzzleFacts.
Import Text EightPuzzle.

Lemma puzzle_completed_rule (result : dict) :
  eq_str (get result "status") "success" = Rules.task_completed result.
Proof.
  unfold get, Rules.task_completed.
  destruct (lookup "status" result) as [[]|]; reflexivity.
Qed.

(** No answer can be read from the empty text. *)
Lemma extract_answer_empty : _extract_answer_from_text EmptyString = None.
Proof. reflexivity. Qed.

(** A direct result that gives a non-empty answer settles the outcome. *)
Lemma puzzle_test_direct (result : dict) (s a : string) :
  get result "task_result" = PStr s ->
  _extract_answer_from_text s = Some a ->
  a <> EmptyString ->
  test result = Ok (grade (Rules.task_completed result) a).
Proof.
  intros Hres Hext Hne. unfold test. rewrite Hres, puzzle_completed_rule.
  destruct s as [|c s].
  - rewrite extract_answer_empty in Hext. discriminate.
  - cbn [truthy String.eqb negb extract_answer bind].
    rewrite Hext. cbn [Scanner.keep].
    assert (Hn : nonempty a = true).
    { unfold nonempty. destruct a; [contradiction|reflexivity]. }
    rewrite Hn. cbn [bind Scanner.keep]. now rewrite Hn.
Qed.

(** A direct result that is absent, empty, or gives no non-empty answer
    leaves the outcome to the conversation. *)
Lemma test_falls_through (result : dict) :
  (truthy (get result "task_result") = false
   \/ exists s, get result "task_result" = PStr s
        /\ Scanner.keep string nonempty (_extract_answer_from_text s) = None) ->
  test result = Rules.from_conversation result.
Proof.
  intros H. unfold test, Rules.from_conversation. rewrite puzzle_completed_rule.
  destruct H as [H|(s & Hs & Hk)].
  - rewrite H. reflexivity.
  - rewrite Hs. destruct (truthy (PStr s)).
    + cbn [extract_answer bind]. now rewrite Hk.
    + reflexivity.
Qed.

End EightPuzzleFacts.

(** ** The scanner only returns answers that count *)

Module ScannerAnswers.
Import Scanner.

Section Sound.

Variable A : Type.
Variable extract : pyval -> res (option A).
Variable found : A -> bool.

(** A property of every answer that is extracted and counts. *)
Variable P : A -> Prop.
Hypothesis extract_sound :
  forall v a, extract v = Ok (Some a) -> found a = true -> P a.

Lemma keep_some (x : option A) (a : A) :
  keep A found x = Some a -> x = Some a /\ found a = true.
Proof.
  destruct x as [b|]; simpl; [|discriminate].
  destruct (found b) eqn:E; [|discriminate].
  intros H. injection H as <-. now split.
Qed.

Lemma try_tool_call_sound (func : dict) (a : A) :
  catch_all (try_tool_call A extract found func) None = Some a -> P a.
Proof.
  unfold try_tool_call.
  destruct (decode_arguments _) as [args|e]; simpl; [|discriminate].
  destruct (has_result args) as [[|]|e]; simpl; try discriminate.
  destruct (result_of args) as [v|e]; simpl; [|discriminate].
  destruct (extract v) as [x|e] eqn:E; simpl; [|discriminate].
  intros H. apply keep_some in H as [-> H]. eauto.
Qed.

Lemma scan_tool_calls_sound (tcs : list pyval) (a : A) :
  scan_tool_calls A extract found tcs = Ok (Some a) -> P a.
Proof.
  induction tcs as [|tc tcs IH]; simpl; [discriminate|].
  destruct tc as [| | | | | |d]; auto.
  destruct (get_default d "function" (PDict [])) as [| | | | | |func];
    try discriminate.
  destruct (eq_str (get func "name") "task_complete"); auto.
  destruct (catch_all (try_tool_call A extract found func) None) as [b|] eqn:E;
    auto.
  intros H. injection H as <-. now apply try_tool_call_sound in E.
Qed.

Lemma tool_call_answer_sound (m : pyval) (a : A) :
  tool_call_answer A extract found m = Ok (Some a) -> P a.
Proof.
  destruct m as [| | | | | |d]; simpl; try discriminate.
  destruct (eq_str (get d "role") "assistant" && truthy (get d "tool_calls"));
    [|discriminate].
  destruct (iter _) as [tcs|e]; simpl; [|discriminate].
  apply scan_tool_calls_sound.
Qed.

Lemma content_answer_sound (m : pyval) (a : A) :
  content_answer A extract found m = Ok (Some a) -> P a.
Proof.
  destruct m as [| | | | | |d]; simpl; try discriminate.
  destruct (eq_str (get d "role") "assistant"); [|discriminate].
  destruct (extract _) as [x|e] eqn:E; simpl; [|discriminate].
  intros H. injection H as H. apply keep_some in H as [-> H]. eauto.
Qed.

Lemma first_answer_sound (body : pyval -> res (option A)) :
  (forall m a, body m = Ok (Some a) -> P a) ->
  forall l a, first_answer A body l = Ok (Some a) -> P a.
Proof.
  intros Hbody l a H.
  apply ScannerFacts.first_answer_some in H as (pre & m & post & _ & _ & Hm).
  eauto.
Qed.

Lemma scan_sound (conversation : pyval) (a : A) :
  scan A extract found conversation = Ok (Some a) -> P a.
Proof.
  unfold scan.
  destruct (reversed _) as [l|e]; simpl; [|discriminate].
  destruct (first_answer A (tool_call_answer A extract found) l)
    as [[b|]|e] eqn:E; simpl; try discriminate.
  - intros H. injection H as <-.
    eapply first_answer_sound; [|exact E]. apply tool_call_answer_sound.
  - apply first_answer_sound. apply content_answer_sound.
Qed.

End Sound.

Lemma keep_found (A : Type) (found : A -> bool) (x : option A) (a : A) :
  keep A found x = Some a -> found a = true.
Proof. intros H. now apply keep_some in H. Qed.

(** Whatever the scanner returns counts as an answer. *)
Lemma scan_found (A : Type) (extract : pyval -> res (option A))
  (found : A -> bool) (conversation : pyval) (a : A) :
  scan A extract found conversation = Ok (Some a) -> found a = true.
Proof.
  apply (scan_sound A extract found (fun a => found a = true)). auto.
Qed.

End ScannerAnswers.

(** ** What is extracted as JSON is an object *)

Module ObjectFacts.
Import Text Json LinearRegime.

Lemma members_give_dict (n : nat) :
  forall acc s v rest, members n acc s = Parsed v rest -> Rules.is_dict v.
Proof.
  induction n as [|n IH]; intros acc s v rest H; [discriminate|].
  cbn [members] in H.
  destruct s as [|q s1]; [discriminate|].
  destruct (q =? dquote)%char; [|discriminate].
  destruct (scanstring s1) as [[key s2]|]; [|discriminate].
  destruct (skip_ws s2) as [|colon s3]; [discriminate|].
  destruct (colon =? ":")%char; [|discriminate].
  destruct (value n (skip_ws s3)) as [v' s4| |]; try discriminate.
  destruct (skip_ws s4) as [|d s5]; [discriminate|].
  destruct (d =? "}")%char.
  - injection H as <- _. now eexists.
  - destruct (d =? ",")%char; [|discriminate]. eauto.
Qed.

Lemma brace_is_no_space : is_ws "{" = false.
Proof. reflexivity. Qed.

(** A text that opens with a brace decodes to a dict or not at all. *)
Lemma loads_object (tail : string) (v : pyval) :
  loads (String "{" tail) = Some v -> Rules.is_dict v.
Proof.
  unfold loads. cbn [skip_ws]. rewrite brace_is_no_space.
  unfold budget. cbn [String.length Nat.mul Nat.add].
  cbn [value]. change ("{" =? dquote)%char with false.
  change ("{" =? "{")%char with true. cbv iota.
  destruct (skip_ws tail) as [|c2 rest] eqn:E; [discriminate|].
  destruct (c2 =? "}")%char.
  - destruct (skip_ws rest); [|discriminate].
    intros H. injection H as <-. now eexists.
  - destruct (members _ [] (String c2 rest)) as [v' r| |] eqn:Em;
      try discriminate.
    destruct (skip_ws r); [|discriminate].
    intros H. injection H as <-. eapply members_give_dict. exact Em.
Qed.

Lemma block_at_brace (s g : string) :
  block_at s = Some g -> Rules.opens_with_brace g.
Proof.
  unfold block_at. destruct (starts backticks s) as [r1|]; [|discriminate].
  destruct (lstrip _) as [|c r3]; [discriminate|].
  destruct (c =? "{")%char eqn:E; [|discriminate].
  apply Ascii.eqb_eq in E. subst c.
  destruct (block_body r3) as [body|]; [|discriminate].
  intros H. injection H as <-. now eexists.
Qed.

Lemma json_block_search_brace (s g : string) :
  json_block_search s = Some g -> Rules.opens_with_brace g.
Proof.
  induction s as [|c s IH]; cbn [json_block_search].
  - destruct (block_at EmptyString) eqn:E; [|discriminate].
    intros H. injection H as <-. now apply block_at_brace in E.
  - destruct (block_at (String c s)) eqn:E.
    + intros H. injection H as <-. now apply block_at_brace in E.
    + exact IH.
Qed.

Lemma findall_brace (text : string) :
  forall skip, Forall Rules.opens_with_brace (findall skip text).
Proof.
  induction text as [|c text IH]; intros skip; cbn [findall].
  - constructor.
  - destruct skip as [|k]; [|apply IH].
    destruct (c =? "{")%char eqn:E; [|apply IH].
    apply Ascii.eqb_eq in E. subst c.
    destruct (brace_body false text) as [m|]; [|apply IH].
    constructor; [now eexists|apply IH].
Qed.

Lemma first_decoded_dict (matches : list string) (v : pyval) :
  Forall Rules.opens_with_brace matches ->
  first_decoded matches = Some v -> Rules.is_dict v.
Proof.
  induction 1 as [|m matches (tail & ->) _ IH]; cbn [first_decoded];
    [discriminate|].
  destruct (loads (String "{" tail)) as [v'|] eqn:E; [|exact IH].
  intros H. injection H as <-. now apply loads_object in E.
Qed.

(** [_extract_json_from_text] returns a dict or nothing. *)
Lemma extract_json_gives_dict (text : string) (v : pyval) :
  _extract_json_from_text text = Some v -> Rules.is_dict v.
Proof.
  unfold _extract_json_from_text.
  destruct (json_block_search text) as [g|] eqn:Eg.
  - apply json_block_search_brace in Eg as (tail & ->).
    destruct (loads (String "{" tail)) as [v'|] eqn:E.
    + intros H. injection H as <-. now apply loads_object in E.
    + apply first_decoded_dict, findall_brace.
  - apply first_decoded_dict, findall_brace.
Qed.

(** So does the scanner. *)
Lemma scan_gives_dict (conversation v : pyval) :
  _extract_json_from_conversation conversation = Ok (Some v) ->
  Rules.is_dict v.
Proof.
  apply (ScannerAnswers.scan_sound pyval extract_json truthy Rules.is_dict).
  intros x a H _. destruct x; try discriminate.
  injection H as H. now apply extract_json_gives_dict in H.
Qed.

End ObjectFacts.

(** ** linear-regime-estimation: the direct result and the conversation *)
Module LinearRegimeFacts.
Import Text LinearRegime.

Section WithDumps.

Variable json_dumps : pyval -> string.

Lemma regime_completed_rule (result : dict) :
  eq_str (get result "status") "success" = Rules.task_completed result.
Proof.
  unfold get, Rules.task_completed.
  destruct (lookup "status" result) as [[]|]; reflexivity.
Qed.

Lemma extract_json_empty : _extract_json_from_text EmptyString = None.
Proof. reflexivity. Qed.

(** A direct result that gives a non-empty object settles the outcome. *)
Lemma regime_test_direct (result : dict) (s : string) (j : pyval) :
  get result "task_result" = PStr s ->
  _extract_json_from_text s = Some j ->
  truthy j = true ->
  test json_dumps result = grade json_dumps (Rules.task_completed result) j.
Proof.
  intros Hres Hext Hj. unfold test. rewrite Hres, regime_completed_rule.
  destruct s as [|c s].
  - rewrite extract_json_empty in Hext. discriminate.
  - cbn [truthy String.eqb negb extract_json bind].
    rewrite Hext. cbn [Scanner.keep]. rewrite Hj.
    cbn [bind Scanner.keep]. now rewrite Hj.
Qed.

(** Otherwise the outcome is settled by what the scanner returns. *)
Lemma regime_test_scanned (result : dict) (j : pyval) :
  (truthy (get result "task_result") = false
   \/ exists s, get result "task_result" = PStr s
        /\ Scanner.keep pyval truthy (_extract_json_from_text s) = None) ->
  _extract_json_from_conversation
    (py_or (get result "conversation") (PList [])) = Ok (Some j) ->
  test json_dumps result = grade json_dumps (Rules.task_completed result) j.
Proof.
  intros H Hscan. unfold test. rewrite regime_completed_rule.
  assert (Hj : truthy j = true).
  { eapply ScannerAnswers.scan_found. exact Hscan. }
  assert (Hdirect :
    (if truthy (get result "task_result")
     then extract_json (get result "task_result") else Ok None)
    = Ok None
    \/ exists x, (if truthy (get result "task_result")
                  then extract_json (get result "task_result") else Ok None)
                 = Ok x /\ Scanner.keep pyval truthy x = None).
  { destruct H as [H|(s & Hs & Hk)].
    - left. now rewrite H.
    - right. rewrite Hs. destruct (truthy (PStr s)).
      + eexists. split; [reflexivity|exact Hk].
      + exists None. split; reflexivity. }
  destruct Hdirect as [Hd|(x & Hd & Hk)]; rewrite Hd; cbn [bind].
  - cbn [Scanner.keep]. rewrite Hscan. cbn [bind Scanner.keep]. now rewrite Hj.
  - rewrite Hk, Hscan. cbn [bind Scanner.keep]. now rewrite Hj.
Qed.

End WithDumps.

End LinearRegimeFacts.

Module EightPuzzleScan.
Import Text EightPuzzle.

Lemma puzzle_test_scanned (result : dict) (a : string) :
  (truthy (get result "task_result") = false
   \/ exists s, get result "task_result" = PStr s
        /\ Scanner.keep string nonempty (_extract_answer_from_text s) = None) ->
  _extract_answer_from_conversation
    (py_or (get result "conversation") (PList [])) = Ok (Some a) ->
  test result = Ok (grade (Rules.task_completed result) a).
Proof.
  intros H Hscan.
  rewrite (EightPuzzleFacts.test_falls_through result H).
  unfold Rules.from_conversation. rewrite Hscan. cbn [bind].
  apply ScannerAnswers.scan_found in Hscan. simpl. now rewrite Hscan.
Qed.

End EightPuzzleScan.

(** ** Validation never goes back to another source *)
Module GradeFacts.
Import Text LinearRegime.

(** Every outcome of the grading of an object records that object. *)
Lemma grade_records_payload (json_dumps : pyval -> string) (tc : bool)
  (j : pyval) (o : outcome) :
  grade json_dumps tc j = Ok o -> lookup "output_json" (details o) = Some j.
Proof.
  unfold grade.
  destruct (py_in "regime_count" j) as [[|]|e]; simpl; try discriminate.
  2:{ intros H. injection H as <-. reflexivity. }
  destruct (py_in "breakpoints" j) as [[|]|e]; simpl; try discriminate.
  2:{ intros H. injection H as <-. reflexivity. }
  destruct j as [| | | | | |d]; try discriminate.
  destruct (as_int (get d "regime_count")) as [count|].
  2:{ intros H. injection H as <-. reflexivity. }
  destruct (get_default d "breakpoints" (PList [])) as [| | | | |bps|];
    try (intros H; injection H as <-; reflexivity).
  destruct (check_breakpoints bps) as [[ok line]|e]; simpl; [|discriminate].
  intros H. injection H as <-. reflexivity.
Qed.

End GradeFacts.

(** ** Dates: sorting and pairing *)
Module BreakpointFacts.
Import Text LinearRegime.
Local Open Scope list_scope.

Lemma date_leb_spec (a b : datetime) :
  date_leb a b = true <->
  year a < year b
  \/ (year a = year b
      /\ (month a < month b \/ (month a = month b /\ day a <= day b))).
Proof.
  unfold date_leb.
  rewrite orb_true_iff, andb_true_iff, orb_true_iff, andb_true_iff.
  rewrite !Z.ltb_lt, !Z.eqb_eq, Z.leb_le. reflexivity.
Qed.

Lemma date_leb_total (a b : datetime) :
  date_leb a b = false -> date_leb b a = true.
Proof.
  intros H. apply date_leb_spec.
  assert (Hn : ~ (date_leb a b = true)) by (rewrite H; discriminate).
  rewrite date_leb_spec in Hn. lia.
Qed.

Lemma date_leb_trans (a b c : datetime) :
  date_leb a b = true -> date_leb b c = true -> date_leb a c = true.
Proof. rewrite !date_leb_spec. lia. Qed.

Lemma insert_date_perm (d : datetime) (l : list datetime) :
  Permutation (d :: l) (insert_date d l).
Proof.
  induction l as [|x l IH]; simpl; [reflexivity|].
  destruct (date_leb d x); [reflexivity|].
  rewrite perm_swap. now constructor.
Qed.

Lemma sort_dates_perm (l : list datetime) : Permutation l (sort_dates l).
Proof.
  induction l as [|d l IH]; simpl; [constructor|].
  rewrite <- insert_date_perm. now constructor.
Qed.

Lemma insert_date_sorted (d : datetime) (l : list datetime) :
  StronglySorted Rules.ordered l ->
  StronglySorted Rules.ordered (insert_date d l).
Proof.
  induction 1 as [|x l Hl IH Hx]; simpl.
  - repeat constructor.
  - destruct (date_leb d x) eqn:E.
    + constructor; [now constructor|].
      constructor; [exact E|].
      eapply Forall_impl; [|exact Hx].
      intros y Hy. unfold Rules.ordered in *. eapply date_leb_trans; eauto.
    + constructor; [exact IH|].
      eapply Permutation_Forall; [apply insert_date_perm|].
      constructor; [|exact Hx].
      now apply date_leb_total.
Qed.

Lemma sort_dates_sorted (l : list datetime) :
  StronglySorted Rules.ordered (sort_dates l).
Proof.
  induction l as [|d l IH]; simpl; [constructor|].
  now apply insert_date_sorted.
Qed.

Lemma sort_dates_length (l : list datetime) :
  List.length (sort_dates l) = List.length l.
Proof. symmetry. apply Permutation_length, sort_dates_perm. Qed.

Lemma parse_dates_length (l : list pyval) (ds : list datetime) :
  parse_dates l = Ok ds -> List.length ds = List.length l.
Proof.
  revert ds. induction l as [|bp l IH]; simpl; intros ds H.
  - injection H as <-. reflexivity.
  - destruct (_parse_date bp) as [d|e]; simpl in H; [|discriminate].
    destruct (parse_dates l) as [ds'|e]; simpl in H; [|discriminate].
    injection H as <-. simpl. now rewrite (IH ds').
Qed.

(** Every element of a list that parses is a [str]. *)
Lemma parse_dates_strings (l : list pyval) (ds : list datetime) :
  parse_dates l = Ok ds ->
  Forall2 (fun bp d => exists s, bp = PStr s /\ strptime (strip s) = Some d) l ds.
Proof.
  revert ds. induction l as [|bp l IH]; simpl; intros ds H.
  - injection H as <-. constructor.
  - destruct (_parse_date bp) as [d|e] eqn:E; simpl in H; [|discriminate].
    destruct (parse_dates l) as [ds'|e]; simpl in H; [|discriminate].
    injection H as <-. constructor; [|now apply IH].
    destruct bp; simpl in E; try discriminate.
    destruct (strptime (strip s)) eqn:Es; [|discriminate].
    injection E as <-. eauto.
Qed.

(** On lists of one length, the loop over the zipped pairs is the
    pairwise comparison. *)
Lemma forallb_within_all_close (es os : list datetime) :
  List.length es = List.length os ->
  forallb within (combine es os) = Rules.all_close 7 es os.
Proof.
  revert os. induction es as [|e es IH]; intros [|o os] H; simpl in *;
    try discriminate; [reflexivity|].
  rewrite IH by lia. reflexivity.
Qed.

Lemma all_close_length (t : Z) (es os : list datetime) :
  Rules.all_close t es os = true -> List.length es = List.length os.
Proof.
  revert os. induction es as [|e es IH]; intros [|o os] H; simpl in *;
    try discriminate; [reflexivity|].
  apply andb_true_iff in H as [_ H]. now rewrite (IH os).
Qed.

Lemma all_close_Forall2 (t : Z) (es os : list datetime) :
  Rules.all_close t es os = true <-> Forall2 (Rules.close t) es os.
Proof.
  revert os. induction es as [|e es IH]; intros [|o os]; simpl.
  - split; [constructor|reflexivity].
  - split; [discriminate|]. intros H. inversion H.
  - split; [discriminate|]. intros H. inversion H.
  - rewrite andb_true_iff, IH. unfold Rules.closeb, Rules.close.
    rewrite Z.leb_le. split.
    + intros [H1 H2]. now constructor.
    + intros H. inversion H; subst. now split.
Qed.

Lemma expected_dates_parse :
  parse_dates (map PStr EXPECTED_BREAKPOINTS) = Ok Rules.expected_dates.
Proof. reflexivity. Qed.

End BreakpointFacts.

(** ** The breakpoints field *)
Module CheckFacts.
Import Text LinearRegime.

(** With as many breakpoints as expected, all of which parse, the check
    is the pairwise comparison of the two sorted lists. *)
Lemma check_breakpoints_parsed (bps : list pyval) (ds : list datetime) :
  List.length bps = List.length EXPECTED_BREAKPOINTS ->
  parse_dates bps = Ok ds ->
  let pairs :=
    combine (sort_dates Rules.expected_dates) (sort_dates ds) in
  check_breakpoints bps
  = Ok (forallb within pairs,
        if forallb within pairs
        then "✓ All breakpoints are within ±7 day tolerance."
        else "✗ Breakpoint mismatches:" ++ newline
               ++ join newline (map describe_mismatch (filter exceeds pairs))).
Proof.
  intros Hlen Hparse pairs. unfold check_breakpoints.
  rewrite Hlen, Nat.eqb_refl. cbn [negb].
  unfold compare_breakpoints.
  rewrite BreakpointFacts.expected_dates_parse. cbn [bind]. rewrite Hparse.
  cbn [bind]. fold pairs.
  destruct (forallb within pairs); reflexivity.
Qed.

(** With another number of breakpoints nothing is parsed. *)
Lemma check_breakpoints_count (bps : list pyval) :
  List.length bps <> List.length EXPECTED_BREAKPOINTS ->
  check_breakpoints bps
  = Ok (false,
        "Expected 2 breakpoints, got "
          ++ show_int (Z.of_nat (List.length bps)) ++ ".").
Proof.
  intros Hlen. unfold check_breakpoints.
  apply Nat.eqb_neq in Hlen. rewrite Hlen. reflexivity.
Qed.

(** Whenever the check returns, its verdict is the rule for the field. *)
Lemma check_breakpoints_rule (d : dict) (bps : list pyval) (ok : bool)
  (line : string) :
  lookup "breakpoints" d = Some (PList bps) ->
  check_breakpoints bps = Ok (ok, line) ->
  ok = Rules.breakpoints_valid (PDict d).
Proof.
  intros Hd Hcheck. unfold Rules.breakpoints_valid. rewrite Hd.
  destruct (Nat.eq_dec (List.length bps) (List.length EXPECTED_BREAKPOINTS))
    as [Hlen|Hlen].
  - destruct (parse_dates bps) as [ds|e] eqn:Hparse.
    + rewrite (check_breakpoints_parsed bps ds Hlen Hparse) in Hcheck.
      apply (f_equal (fun r => match r with Ok p => fst p | Raise _ => ok end))
        in Hcheck.
      cbv beta iota delta [fst] in Hcheck. rewrite <- Hcheck.
      apply BreakpointFacts.forallb_within_all_close.
      rewrite !BreakpointFacts.sort_dates_length.
      now rewrite (BreakpointFacts.parse_dates_length bps ds Hparse), Hlen.
    + unfold check_breakpoints in Hcheck.
      rewrite Hlen, Nat.eqb_refl in Hcheck. cbn [negb] in Hcheck.
      unfold compare_breakpoints in Hcheck.
      rewrite BreakpointFacts.expected_dates_parse in Hcheck.
      cbn [bind] in Hcheck. rewrite Hparse in Hcheck. cbn [bind] in Hcheck.
      destruct (is_value_error e); [|discriminate].
      now injection Hcheck as <- _.
  - rewrite (check_breakpoints_count bps Hlen) in Hcheck.
    injection Hcheck as <- _.
    destruct (parse_dates bps) as [ds|e] eqn:Hparse; [|reflexivity].
    destruct (Rules.all_close 7 _ _) eqn:E; [|reflexivity].
    apply BreakpointFacts.all_close_length in E.
    rewrite !BreakpointFacts.sort_dates_length in E.
    rewrite (BreakpointFacts.parse_dates_length bps ds Hparse) in E.
    simpl in E, Hlen. congruence.
Qed.

End CheckFacts.

(** ** The shape of the outcomes *)
Module OutcomeFacts.
Import Text.

(** The eight-puzzle grader returns the not-found record or the grading
    of a non-empty answer. *)
Lemma eight_puzzle_outcome (result : dict) (o : outcome) :
  EightPuzzle.test result = Ok o ->
  (exists conversation,
      EightPuzzle.not_found (Rules.task_completed result) conversation = Ok o)
  \/ (exists a, a <> EmptyString
        /\ o = EightPuzzle.grade (Rules.task_completed result) a).
Proof.
  unfold EightPuzzle.test. rewrite EightPuzzleFacts.puzzle_completed_rule.
  set (direct := if truthy (get result "task_result")
                 then EightPuzzle.extract_answer (get result "task_result")
                 else Ok None).
  destruct direct as [x|e]; cbn [bind]; [|discriminate].
  set (second := match Scanner.keep string EightPuzzle.nonempty x with
                 | Some a => Ok (Some a)
                 | None => _
                 end).
  destruct second as [y|e]; cbn [bind]; [|discriminate].
  destruct (Scanner.keep string EightPuzzle.nonempty y) as [a|] eqn:E.
  - intros H. injection H as <-. right. exists a. split; [|reflexivity].
    apply ScannerAnswers.keep_found in E. intros ->. discriminate.
  - intros H. left. eauto.
Qed.

Section WithDumps.

Variable json_dumps : pyval -> string.

(** The linear-regime grader returns the not-found record or the grading
    of a non-empty object. *)
Lemma linear_regime_outcome (result : dict) (o : outcome) :
  LinearRegime.test json_dumps result = Ok o ->
  (exists conversation,
      LinearRegime.not_found (Rules.task_completed result) conversation = Ok o)
  \/ (exists j, truthy j = true /\ Rules.is_dict j
        /\ LinearRegime.grade json_dumps (Rules.task_completed result) j = Ok o).
Proof.
  unfold LinearRegime.test. rewrite LinearRegimeFacts.regime_completed_rule.
  intros H.
  destruct (if truthy (get result "task_result")
            then LinearRegime.extract_json (get result "task_result")
            else Ok None) as [x|e] eqn:Ex; cbn [bind] in H; [|discriminate].
  assert (Hx : forall j, x = Some j -> Rules.is_dict j).
  { intros j ->. destruct (truthy (get result "task_result")); [|discriminate].
    destruct (get result "task_result"); try discriminate.
    injection Ex as Ex. now apply ObjectFacts.extract_json_gives_dict in Ex. }
  destruct (match Scanner.keep pyval truthy x with
            | Some a => Ok (Some a)
            | None => LinearRegime._extract_json_from_conversation
                        (py_or (get result "conversation") (PList []))
            end) as [y|e] eqn:Ey; cbn [bind] in H; [|discriminate].
  assert (Hy : forall j, y = Some j -> Rules.is_dict j).
  { intros j ->.
    destruct (Scanner.keep pyval truthy x) as [a|] eqn:Ek.
    - injection Ey as <-. apply ScannerAnswers.keep_some in Ek as [Ek _]. auto.
    - now apply ObjectFacts.scan_gives_dict in Ey. }
  destruct (Scanner.keep pyval truthy y) as [j|] eqn:E.
  - right. exists j. apply ScannerAnswers.keep_some in E as [-> E]. auto.
  - left. eauto.
Qed.

(** The grading of an object is a rejection or a full verdict, whose two
    field flags are the two rules. *)
Lemma grade_outcome (tc : bool) (j : pyval) (o : outcome) :
  LinearRegime.grade json_dumps tc j = Ok o ->
  (exists why, o = LinearRegime.rejected tc j why)
  \/ (exists regime_count line,
        o = LinearRegime.verdict json_dumps tc j regime_count
              (Rules.regime_count_valid j) (Rules.breakpoints_valid j) line).
Proof.
  unfold LinearRegime.grade.
  destruct (py_in "regime_count" j) as [[|]|e]; cbn [bind negb];
    try discriminate.
  2:{ intros H. injection H as <-. left. eauto. }
  destruct (py_in "breakpoints" j) as [[|]|e]; cbn [bind negb];
    try discriminate.
  2:{ intros H. injection H as <-. left. eauto. }
  destruct j as [| | | | | |d]; try discriminate.
  unfold get, get_default.
  destruct (lookup "regime_count" d) as [rc|] eqn:Erc.
  2:{ intros H. injection H as <-. left. eauto. }
  destruct (LinearRegime.as_int rc) as [count|] eqn:Eint.
  2:{ intros H. injection H as <-. left. eauto. }
  destruct (lookup "breakpoints" d) as [bp|] eqn:Ebp.
  2:{ unfold LinearRegime.check_breakpoints. cbn.
      intros H. injection H as <-. right. exists rc. eexists.
      unfold Rules.regime_count_valid, Rules.breakpoints_valid.
      rewrite Erc, Ebp.
      destruct rc; try discriminate; simpl in Eint; injection Eint as <-;
        [destruct b|]; reflexivity. }
  destruct bp as [| | | | |bps|];
    try (intros H; injection H as <-; left; eauto).
  destruct (LinearRegime.check_breakpoints bps) as [[ok line]|e] eqn:Echeck;
    cbn [bind]; [|discriminate].
  intros H. injection H as <-. right. exists rc, line.
  cbn [fst snd].
  rewrite (CheckFacts.check_breakpoints_rule d bps ok line Ebp Echeck).
  f_equal.
  unfold Rules.regime_count_valid. rewrite Erc.
  destruct rc; try discriminate; simpl in Eint; injection Eint as <-.
  - now destruct b.
  - reflexivity.
Qed.

(** The verdict of a grading is the completion flag and the two rules. *)
Lemma grade_passed (tc : bool) (j : pyval) (o : outcome) :
  LinearRegime.grade json_dumps tc j = Ok o ->
  passed o = tc && (Rules.regime_count_valid j && Rules.breakpoints_valid j).
Proof.
  unfold LinearRegime.grade.
  destruct (py_in "regime_count" j) as [[|]|e] eqn:Hrc; cbn [bind negb];
    try discriminate.
  2:{ intros H. injection H as <-. cbn [LinearRegime.rejected passed].
      destruct j; simpl in Hrc; try discriminate;
        try (simpl; now rewrite andb_false_r).
      unfold Rules.regime_count_valid.
      destruct (lookup "regime_count" d); [discriminate|].
      simpl. now rewrite andb_false_r. }
  destruct (py_in "breakpoints" j) as [[|]|e] eqn:Hbp; cbn [bind negb];
    try discriminate.
  2:{ intros H. injection H as <-. cbn [LinearRegime.rejected passed].
      destruct j; simpl in Hbp; try discriminate;
        try (simpl; now rewrite andb_false_r).
      unfold Rules.breakpoints_valid.
      destruct (lookup "breakpoints" d); [discriminate|].
      now rewrite !andb_false_r. }
  destruct j as [| | | | | |d]; try discriminate.
  simpl in Hrc, Hbp. unfold get, get_default.
  destruct (lookup "regime_count" d) as [rc|] eqn:Erc; [|discriminate].
  destruct (lookup "breakpoints" d) as [bp|] eqn:Ebp; [|discriminate].
  destruct (LinearRegime.as_int rc) as [count|] eqn:Eint.
  2:{ intros H. injection H as <-. cbn [LinearRegime.rejected passed].
      unfold Rules.regime_count_valid. rewrite Erc.
      destruct rc; try discriminate; simpl; now rewrite andb_false_r. }
  destruct bp as [| | | | |bps|];
    try (intros H; injection H as <-; cbn [LinearRegime.rejected passed];
         unfold Rules.breakpoints_valid; rewrite Ebp;
         now rewrite !andb_false_r).
  destruct (LinearRegime.check_breakpoints bps) as [[ok line]|e] eqn:Echeck;
    cbn [bind]; [|discriminate].
  intros H. injection H as <-.
  cbn [LinearRegime.verdict passed fst snd].
  rewrite (CheckFacts.check_breakpoints_rule d bps ok line Ebp Echeck).
  rewrite <- andb_assoc. f_equal. f_equal.
  unfold Rules.regime_count_valid. rewrite Erc.
  destruct rc; try discriminate; simpl in Eint; injection Eint as <-.
  - now destruct b.
  - reflexivity.
Qed.

End WithDumps.

End OutcomeFacts.

(** ** Empty answers *)
Module TagFacts.
Import Text EightPuzzle.



Lemma lstrip_blank (ws : string) :
  Rules.blank ws = true -> lstrip ws = EmptyString.
Proof.
  induction ws as [|c ws IH]; simpl; [reflexivity|].
  intros H. apply andb_true_iff in H as [Hc Hws]. now rewrite Hc, IH.
Qed.




(** Case and surrounding blanks do not matter. *)

Lemma to_upper_space (c : ascii) : is_space (to_upper c) = is_space c.
Proof. destruct c as [[] [] [] [] [] [] [] []]; reflexivity. Qed.

Lemma to_upper_idem (c : ascii) : to_upper (to_upper c) = to_upper c.
Proof. destruct c as [[] [] [] [] [] [] [] []]; reflexivity. Qed.

Lemma upper_idem (s : string) : upper (upper s) = upper s.
Proof.
  induction s as [|c s IH]; simpl; [reflexivity|].
  now rewrite to_upper_idem, IH.
Qed.

Lemma upper_lstrip (s : string) : upper (lstrip s) = lstrip (upper s).
Proof.
  induction s as [|c s IH]; simpl; [reflexivity|].
  rewrite to_upper_space. destruct (is_space c); [exact IH|reflexivity].
Qed.

Lemma upper_rstrip (s : string) : upper (rstrip s) = rstrip (upper s).
Proof.
  induction s as [|c s IH]; simpl; [reflexivity|].
  rewrite <- IH, to_upper_space.
  destruct (rstrip s); simpl; [|reflexivity].
  destruct (is_space c); reflexivity.
Qed.

Lemma upper_strip (s : string) : upper (strip s) = strip (upper s).
Proof. unfold strip. now rewrite upper_rstrip, upper_lstrip. Qed.

Lemma rstrip_blank (ws : string) :
  Rules.blank ws = true -> rstrip ws = EmptyString.
Proof.
  induction ws as [|c ws IH]; simpl; [reflexivity|].
  intros H. apply andb_true_iff in H as [Hc Hws]. now rewrite IH, Hc.
Qed.

Lemma rstrip_app_blank (s ws : string) :
  Rules.blank ws = true -> rstrip (s ++ ws) = rstrip s.
Proof.
  intros H. induction s as [|c s IH]; simpl.
  - now apply rstrip_blank.
  - now rewrite IH.
Qed.

Lemma lstrip_app_blank (ws s : string) :
  Rules.blank ws = true -> lstrip (ws ++ s) = lstrip s.
Proof.
  induction ws as [|c ws IH]; simpl; [reflexivity|].
  intros H. apply andb_true_iff in H as [Hc Hws]. now rewrite Hc, IH.
Qed.

Lemma strip_app_blank (s ws : string) :
  Rules.blank ws = true -> strip (s ++ ws) = strip s.
Proof.
  intros H. unfold strip. induction s as [|c s IH].
  - simpl. now rewrite (lstrip_blank ws H).
  - change (String c s ++ ws) with (String c (s ++ ws)). cbn [lstrip].
    destruct (is_space c); [exact IH|].
    change (String c (s ++ ws)) with (String c s ++ ws).
    now apply rstrip_app_blank.
Qed.

Lemma strip_padded (before a after : string) :
  Rules.blank before = true -> Rules.blank after = true ->
  strip (before ++ a ++ after) = strip a.
Proof.
  intros Hb Ha. unfold strip. rewrite (lstrip_app_blank before _ Hb).
  apply (strip_app_blank a after Ha).
Qed.

Lemma normalize_upper (a : string) :
  _normalize_answer (upper a) = _normalize_answer a.
Proof. unfold _normalize_answer. now rewrite <- upper_strip, upper_idem. Qed.

Lemma normalize_padded (before a after : string) :
  Rules.blank before = true -> Rules.blank after = true ->
  _normalize_answer (before ++ a ++ after) = _normalize_answer a.
Proof.
  intros Hb Ha. unfold _normalize_answer. now rewrite strip_padded.
Qed.

Lemma to_lower_upper (c : ascii) : to_lower (to_upper c) = to_lower c.
Proof. destruct c as [[] [] [] [] [] [] [] []]; reflexivity. Qed.

Lemma starts_ci_upper (p s : string) :
  starts_ci p (upper s) = option_map upper (starts_ci p s).
Proof.
  revert s. induction p as [|a p IH]; intros s; simpl.
  - reflexivity.
  - destruct s as [|b s]; simpl; [reflexivity|].
    rewrite to_lower_upper. destruct (a =? to_lower b)%char; [apply IH|reflexivity].
Qed.

Lemma find_ci_upper (p s : string) :
  find_ci p (upper s) = option_map Rules.upper_both (find_ci p s).
Proof.
  induction s as [|c s IH].
  - destruct p; reflexivity.
  - cbn [upper find_ci].
    change (String (to_upper c) (upper s)) with (upper (String c s)).
    rewrite starts_ci_upper.
    destruct (starts_ci p (String c s)); [reflexivity|].
    cbn [option_map]. rewrite IH.
    destruct (find_ci p s) as [[before rest]|]; reflexivity.
Qed.

Lemma extract_upper (text : string) :
  _extract_answer_from_text (upper text)
  = option_map upper (_extract_answer_from_text text).
Proof.
  unfold _extract_answer_from_text, answer_pattern_search.
  rewrite find_ci_upper.
  destruct (find_ci "<answer>" text) as [[before after]|]; [|reflexivity].
  cbn [option_map Rules.upper_both fst snd]. rewrite find_ci_upper.
  destruct (find_ci "</answer>" after) as [[body rest]|]; [|reflexivity].
  cbn [option_map Rules.upper_both fst snd]. now rewrite upper_strip.
Qed.

End TagFacts.

(** ** The calendar, the pairing of dates and records of the expected types *)

Module CalendarFacts.
Import Text LinearRegime Calendar.

Lemma digit_bounds (c : ascii) :
  is_digit c = true -> 0 <= digit_val c <= 9.
Proof.
  unfold is_digit, digit_val, Json.is_digit, Json.digit_val.
  intros H. apply andb_true_iff in H as [H1 H2].
  apply Nat.leb_le in H1, H2. lia.
Qed.

Lemma range_bounds (lo hi c : ascii) (l h : Z) :
  Z.of_nat (code lo) - 48 = l ->
  Z.of_nat (code hi) - 48 = h ->
  in_range lo hi c = true ->
  l <= digit_val c <= h.
Proof.
  unfold in_range, digit_val, Json.digit_val.
  intros <- <- H. apply andb_true_iff in H as [H1 H2].
  apply Nat.leb_le in H1, H2. lia.
Qed.

Local Opaque Z.add Z.mul Z.sub.

Lemma read_year_bounds (s rest : string) (y : Z) :
  read_year s = Some (y, rest) -> 0 <= y <= 9999.
Proof.
  unfold read_year.
  destruct s as [|a [|b [|c [|d r]]]]; try discriminate.
  destruct (is_digit a) eqn:Ea; [|discriminate].
  destruct (is_digit b) eqn:Eb; [|discriminate].
  destruct (is_digit c) eqn:Ec; [|discriminate].
  destruct (is_digit d) eqn:Ed; [|discriminate].
  cbn [andb]. intros H. injection H as <- _.
  apply digit_bounds in Ea, Eb, Ec, Ed. lia.
Qed.

Ltac range_facts :=
  repeat match goal with
         | H : in_range _ _ _ = true |- _ =>
             eapply range_bounds in H;
             [|vm_compute; reflexivity|vm_compute; reflexivity]
         | H : is_digit _ = true |- _ => apply digit_bounds in H
         | H : (_ =? _)%char = true |- _ => apply Ascii.eqb_eq in H; subst
         | H : _ && _ = true |- _ => apply andb_true_iff in H as [? ?]
         end.

Lemma read_month_bounds (s rest : string) (m : Z) :
  read_month s = Some (m, rest) -> 1 <= m <= 12.
Proof.
  unfold read_month. destruct s as [|a [|b r]]; try discriminate.
  - destruct (in_range "1" "9" a) eqn:E; [|discriminate].
    intros H. injection H as <- _. range_facts. lia.
  - destruct ((a =? "1")%char && in_range "0" "2" b) eqn:E1.
    { intros H. injection H as <- _. range_facts. lia. }
    destruct ((a =? "0")%char && in_range "1" "9" b) eqn:E2.
    { intros H. injection H as <- _. range_facts. lia. }
    destruct (in_range "1" "9" a) eqn:E3; [|discriminate].
    intros H. injection H as <- _. range_facts. lia.
Qed.

Lemma read_day_bounds (s rest : string) (d : Z) :
  read_day s = Some (d, rest) -> 1 <= d <= 31.
Proof.
  unfold read_day. destruct s as [|a [|b r]]; try discriminate.
  - destruct (in_range "1" "9" a) eqn:E; [|discriminate].
    intros H. injection H as <- _. range_facts. lia.
  - destruct ((a =? "3")%char && in_range "0" "1" b) eqn:E1.
    { intros H. injection H as <- _. range_facts. lia. }
    destruct (in_range "1" "2" a && is_digit b) eqn:E2.
    { intros H. injection H as <- _. range_facts. lia. }
    destruct ((a =? "0")%char && in_range "1" "9" b) eqn:E3.
    { intros H. injection H as <- _. range_facts. lia. }
    destruct (in_range "1" "9" a) eqn:E4.
    { intros H. injection H as <- _. range_facts. lia. }
    destruct ((a =? " ")%char && in_range "1" "9" b) eqn:E5; [|discriminate].
    intros H. injection H as <- _. range_facts. lia.
Qed.

(** What [strptime] accepts is a date. *)
Lemma strptime_valid (s : string) (d : datetime) :
  strptime s = Some d -> valid_date d.
Proof.
  unfold strptime.
  destruct (read_year s) as [[y s1]|] eqn:Ey; [|discriminate].
  destruct (starts "-" s1) as [s2|]; [|discriminate].
  destruct (read_month s2) as [[m s3]|] eqn:Em; [|discriminate].
  destruct (starts "-" s3) as [s4|]; [|discriminate].
  destruct (read_day s4) as [[dd s5]|] eqn:Ed; [|discriminate].
  destruct s5; [|discriminate].
  destruct ((1 <=? y) && (dd <=? days_in_month y m)) eqn:E; [|discriminate].
  intros H. injection H as <-.
  apply andb_true_iff in E as [E1 E2].
  apply Z.leb_le in E1, E2.
  apply read_year_bounds in Ey. apply read_month_bounds in Em.
  apply read_day_bounds in Ed.
  unfold valid_date. cbn [year month day]. lia.
Qed.

Lemma parse_date_valid (bp : pyval) (d : datetime) :
  _parse_date bp = Ok d -> valid_date d.
Proof.
  destruct bp; try discriminate. simpl.
  destruct (strptime (strip s)) eqn:E; [|discriminate].
  intros H. injection H as <-. now apply strptime_valid in E.
Qed.

Lemma parse_dates_valid (l : list pyval) (ds : list datetime) :
  parse_dates l = Ok ds -> Forall valid_date ds.
Proof.
  revert ds. induction l as [|bp l IH]; simpl; intros ds H.
  - injection H as <-. constructor.
  - destruct (_parse_date bp) as [d|e] eqn:E; simpl in H; [|discriminate].
    destruct (parse_dates l) as [ds'|e]; simpl in H; [|discriminate].
    injection H as <-. constructor; [|now apply IH].
    now apply parse_date_valid in E.
Qed.

Local Transparent Z.add Z.mul Z.sub.

(** *** Day counts *)

Lemma year_step (y : Z) :
  days_before_year (y + 1) = days_before_year y + year_length y.
Proof.
  unfold days_before_year, year_length, is_leap.
  replace (y + 1 - 1) with y by lia.
  destruct (y mod 4 =? 0) eqn:E4; destruct (y mod 100 =? 0) eqn:E100;
    destruct (y mod 400 =? 0) eqn:E400; cbn [andb orb negb];
    rewrite ?Z.eqb_eq, ?Z.eqb_neq in *;
    Z.div_mod_to_equations; lia.
Qed.

Lemma year_length_pos (y : Z) : 365 <= year_length y <= 366.
Proof. unfold year_length. destruct (is_leap y); lia. Qed.

Lemma days_before_year_mono (y y' : Z) :
  y <= y' -> days_before_year y <= days_before_year y'.
Proof.
  intros H. replace y' with (y + Z.of_nat (Z.to_nat (y' - y))) by lia.
  induction (Z.to_nat (y' - y)) as [|n IH]; [rewrite Z.add_0_r; lia|].
  replace (y + Z.of_nat (S n)) with (y + Z.of_nat n + 1) by lia.
  rewrite year_step. pose proof (year_length_pos (y + Z.of_nat n)). lia.
Qed.

Lemma month_cases (m : Z) :
  1 <= m <= 12 ->
  m = 1 \/ m = 2 \/ m = 3 \/ m = 4 \/ m = 5 \/ m = 6 \/ m = 7 \/ m = 8
  \/ m = 9 \/ m = 10 \/ m = 11 \/ m = 12.
Proof. lia. Qed.

(** The days before a month, and the month itself, by the table. *)
Lemma month_table (y m : Z) :
  1 <= m <= 12 ->
  days_before_month y m = days_before_table (is_leap y) m
  /\ days_in_month y m = days_in_table (is_leap y) m.
Proof.
  intros Hm. unfold days_before_month.
  destruct (month_cases m Hm)
    as [->|[->|[->|[->|[->|[->|[->|[->|[->|[->|[->| ->]]]]]]]]]]];
    cbv [Z.to_nat Z.sub Z.opp Z.add Z.pos_sub Pos.to_nat Pos.iter_op
         Pos.pred_double Pos.succ Nat.add days_before_month_from
         Z.of_nat Pos.of_succ_nat Init.Nat.add];
    unfold days_in_month; cbn [Z.eqb Pos.eqb orb];
    destruct (is_leap y); split; reflexivity.
Qed.

Lemma valid_well_formed (d : datetime) : valid_date d -> well_formed d.
Proof. intros (_ & Hm & Hd). now split. Qed.

Lemma day_of_year_bounds_wf (d : datetime) :
  well_formed d ->
  1 <= days_before_month (year d) (month d) + day d <= year_length (year d).
Proof.
  intros (Hm & Hd).
  destruct (month_table (year d) (month d) Hm) as [Hb Hi].
  rewrite Hb. rewrite Hi in Hd. unfold year_length.
  destruct (month_cases _ Hm)
    as [E|[E|[E|[E|[E|[E|[E|[E|[E|[E|[E|E]]]]]]]]]]];
    rewrite E in *; cbn [days_before_table days_in_table] in *;
    destruct (is_leap (year d)); lia.
Qed.

Lemma earlier_month (y m m' : Z) :
  1 <= m -> m < m' -> m' <= 12 ->
  days_before_month y m + days_in_month y m <= days_before_month y m'.
Proof.
  intros H1 H2 H3.
  destruct (month_table y m ltac:(lia)) as [Hb Hi].
  destruct (month_table y m' ltac:(lia)) as [Hb' _].
  rewrite Hb, Hi, Hb'.
  destruct (month_cases m ltac:(lia))
    as [E|[E|[E|[E|[E|[E|[E|[E|[E|[E|[E|E]]]]]]]]]]]; rewrite E in *;
  destruct (month_cases m' ltac:(lia))
    as [E'|[E'|[E'|[E'|[E'|[E'|[E'|[E'|[E'|[E'|[E'|E']]]]]]]]]]];
    rewrite E' in *; try lia;
    cbn [days_before_table days_in_table]; destruct (is_leap y); lia.
Qed.

Lemma day_of_year_bounds (d : datetime) :
  valid_date d ->
  1 <= days_before_month (year d) (month d) + day d <= year_length (year d).
Proof. intros H. now apply day_of_year_bounds_wf, valid_well_formed. Qed.

(** On dates, the order of [datetime] is the order of the day counts. *)
Lemma date_leb_ordinal_wf (a b : datetime) :
  well_formed a -> well_formed b ->
  (date_leb a b = true <-> toordinal a <= toordinal b).
Proof.
  intros Ha Hb.
  pose proof (day_of_year_bounds_wf a Ha) as Da.
  pose proof (day_of_year_bounds_wf b Hb) as Db.
  destruct Ha as (Hma & Hda). destruct Hb as (Hmb & Hdb).
  rewrite BreakpointFacts.date_leb_spec. unfold toordinal.
  destruct (Z.lt_trichotomy (year a) (year b)) as [Hy|[Hy|Hy]].
  - pose proof (days_before_year_mono (year a + 1) (year b) ltac:(lia)).
    rewrite year_step in *. split; [lia|]. intros _. now left.
  - rewrite Hy in *.
    destruct (Z.lt_trichotomy (month a) (month b)) as [Hm|[Hm|Hm]].
    + pose proof (earlier_month (year b) (month a) (month b)
                    ltac:(lia) Hm ltac:(lia)).
      split; lia.
    + rewrite Hm in *. split; lia.
    + pose proof (earlier_month (year b) (month b) (month a)
                    ltac:(lia) Hm ltac:(lia)).
      split; lia.
  - pose proof (days_before_year_mono (year b + 1) (year a) ltac:(lia)).
    rewrite year_step in *. split; lia.
Qed.

Lemma date_leb_ordinal (a b : datetime) :
  valid_date a -> valid_date b ->
  (date_leb a b = true <-> toordinal a <= toordinal b).
Proof.
  intros Ha Hb. apply date_leb_ordinal_wf; now apply valid_well_formed.
Qed.

End CalendarFacts.

Module PairingFacts.
Import Text LinearRegime Calendar.
Local Open Scope list_scope.

Lemma date_leb_antisym (a b : datetime) :
  date_leb a b = true -> date_leb b a = true -> a = b.
Proof.
  rewrite !BreakpointFacts.date_leb_spec. intros H1 H2.
  destruct a as [ya ma da], b as [yb mb db]. cbn [year month day] in *.
  f_equal; lia.
Qed.

(** Two sorted lists with the same elements are the same list. *)
Lemma sorted_unique (l1 l2 : list datetime) :
  StronglySorted Rules.ordered l1 -> StronglySorted Rules.ordered l2 ->
  Permutation l1 l2 -> l1 = l2.
Proof.
  intros H1. revert l2. induction H1 as [|x l1 Hs IH Hx]; intros l2 H2 Hp.
  - now apply Permutation_nil in Hp.
  - destruct H2 as [|y l2 Hs2 Hy].
    + symmetry in Hp. now apply Permutation_nil in Hp.
    + assert (x = y).
      { assert (Hin1 : In y (x :: l1)).
        { eapply Permutation_in; [symmetry; exact Hp|now left]. }
        assert (Hin2 : In x (y :: l2)).
        { eapply Permutation_in; [exact Hp|now left]. }
        destruct Hin1 as [E|Hin1]; [exact E|].
        destruct Hin2 as [E|Hin2]; [now symmetry|].
        rewrite Forall_forall in Hx, Hy.
        apply date_leb_antisym; [now apply Hx|now apply Hy]. }
      subst y. f_equal. apply IH; [exact Hs2|].
      now apply Permutation_cons_inv in Hp.
Qed.

(** Sorting forgets the order in which the dates were given. *)
Lemma sort_dates_permutation (l1 l2 : list datetime) :
  Permutation l1 l2 -> sort_dates l1 = sort_dates l2.
Proof.
  intros Hp. apply sorted_unique; try apply BreakpointFacts.sort_dates_sorted.
  rewrite <- (BreakpointFacts.sort_dates_perm l1).
  now rewrite <- (BreakpointFacts.sort_dates_perm l2).
Qed.

Lemma parse_dates_Forall2 (l : list pyval) (ds : list datetime) :
  parse_dates l = Ok ds <-> Forall2 (fun bp d => _parse_date bp = Ok d) l ds.
Proof.
  revert ds. induction l as [|bp l IH]; intros ds; simpl.
  - split.
    + intros H. injection H as <-. constructor.
    + intros H. inversion H. reflexivity.
  - split.
    + destruct (_parse_date bp) as [d|e] eqn:E; simpl; [|discriminate].
      destruct (parse_dates l) as [ds'|e] eqn:E'; simpl; [|discriminate].
      intros H. injection H as <-. constructor; [exact E|]. now apply IH.
    + intros H. inversion H as [|? d ? ds' Hd Hds]; subst.
      rewrite Hd. simpl. apply IH in Hds. rewrite Hds. reflexivity.
Qed.

Lemma parse_dates_permutation (l l' : list pyval) (ds : list datetime) :
  Permutation l l' -> parse_dates l = Ok ds ->
  exists ds', parse_dates l' = Ok ds' /\ Permutation ds ds'.
Proof.
  intros Hp H. apply parse_dates_Forall2 in H.
  destruct (Permutation_Forall2 Hp H) as (ds' & Hp' & H').
  exists ds'. split; [now apply parse_dates_Forall2|exact Hp'].
Qed.

Lemma expected_sorted :
  sort_dates Rules.expected_dates = Rules.expected_dates.
Proof. reflexivity. Qed.

(** Sorted pairing finds a pairing within tolerance whenever there is
    one. *)
Lemma sorted_pairing_is_enough (t : Z) (e1 e2 a b : datetime) :
  toordinal e1 <= toordinal e2 ->
  valid_date a -> valid_date b ->
  Rules.close t e1 a -> Rules.close t e2 b ->
  Forall2 (Rules.close t) [e1; e2] (sort_dates [a; b]).
Proof.
  intros He Ha Hb H1 H2. cbn [sort_dates insert_date].
  destruct (date_leb a b) eqn:E.
  - repeat constructor; assumption.
  - apply BreakpointFacts.date_leb_total in E.
    apply (CalendarFacts.date_leb_ordinal b a Hb Ha) in E.
    unfold Rules.close in *.
    repeat constructor; lia.
Qed.

Lemma passes_iff_some_pairing (bps : list pyval) (ds : list datetime) :
  List.length bps = List.length EXPECTED_BREAKPOINTS ->
  parse_dates bps = Ok ds ->
  (forallb within (combine (sort_dates Rules.expected_dates) (sort_dates ds))
   = true
   <-> exists ds', Permutation ds ds'
                   /\ Forall2 (Rules.close TOLERANCE_DAYS)
                        Rules.expected_dates ds').
Proof.
  intros Hlen Hparse.
  pose proof (BreakpointFacts.parse_dates_length bps ds Hparse) as Hl.
  pose proof (CalendarFacts.parse_dates_valid bps ds Hparse) as Hv.
  rewrite BreakpointFacts.forallb_within_all_close
    by (rewrite !BreakpointFacts.sort_dates_length, Hl, Hlen; reflexivity).
  rewrite BreakpointFacts.all_close_Forall2, expected_sorted.
  split.
  - intros H. exists (sort_dates ds). split; [|exact H].
    apply BreakpointFacts.sort_dates_perm.
  - intros (ds' & Hp & H).
    rewrite (sort_dates_permutation ds ds' Hp).
    assert (Hv' : Forall valid_date ds').
    { eapply Permutation_Forall; eassumption. }
    unfold Rules.expected_dates in *.
    inversion H as [|e1 a l1 l1' H1 Hrest]; subst.
    inversion Hrest as [|e2 b l2 l2' H2 Hnil]; subst.
    inversion Hnil; subst.
    inversion Hv' as [|? ? Va Vb']; subst. inversion Vb' as [|? ? Vb _]; subst.
    apply sorted_pairing_is_enough; auto. vm_compute. discriminate.
Qed.

End PairingFacts.

Module TypedFacts.
Import Scanner Typed.
Local Open Scope list_scope.

Section NoRaise.
Variable A : Type.
Variable extract : pyval -> res (option A).
Variable found : A -> bool.
(** The extractors return on every text. *)
Hypothesis extract_text : forall s, exists x, extract (PStr s) = Ok x.








End NoRaise.



(** What the check of the breakpoints can raise. *)
Lemma parse_dates_raises (bps : list pyval) (e : exn) :
  LinearRegime.parse_dates bps = Raise e ->
  is_value_error e = true
  \/ (e = AttributeError /\ Exists not_text bps).
Proof.
  induction bps as [|bp bps IH]; simpl; [discriminate|].
  destruct (LinearRegime._parse_date bp) as [d|e'] eqn:E; simpl.
  - destruct (LinearRegime.parse_dates bps) as [ds|e'']; simpl;
      [discriminate|].
    intros H. injection H as <-.
    destruct (IH eq_refl) as [Hv|[-> Hx]]; [now left|].
    right. split; [reflexivity|now apply Exists_cons_tl].
  - intros H. injection H as <-.
    destruct bp; simpl in E; try (injection E as <-; right; split;
      [reflexivity|apply Exists_cons_hd; intros s; discriminate]).
    destruct (LinearRegime.strptime _); [discriminate|].
    injection E as <-. now left.
Qed.

Lemma check_breakpoints_raises (bps : list pyval) (e : exn) :
  LinearRegime.check_breakpoints bps = Raise e ->
  e = AttributeError
  /\ List.length bps = List.length LinearRegime.EXPECTED_BREAKPOINTS
  /\ Exists not_text bps.
Proof.
  unfold LinearRegime.check_breakpoints.
  destruct (Nat.eqb _ _) eqn:El; cbn [negb]; [|discriminate].
  apply Nat.eqb_eq in El.
  unfold LinearRegime.compare_breakpoints.
  rewrite BreakpointFacts.expected_dates_parse. cbn [bind].
  destruct (LinearRegime.parse_dates bps) as [ds|e'] eqn:Ep; cbn [bind].
  - destruct (forallb _ _); discriminate.
  - destruct (is_value_error e') eqn:Ev; [discriminate|].
    intros H. injection H as <-.
    destruct (parse_dates_raises bps e' Ep) as [Hv|[-> Hx]]; [congruence|].
    auto.
Qed.

Lemma check_breakpoints_texts (bps : list pyval) :
  Forall (fun v => exists s, v = PStr s) bps ->
  exists r, LinearRegime.check_breakpoints bps = Ok r.
Proof.
  intros H. destruct (LinearRegime.check_breakpoints bps) as [r|e] eqn:E;
    [eauto|].
  apply check_breakpoints_raises in E as (_ & _ & Hx).
  apply Exists_exists in Hx as (v & Hin & Hv).
  rewrite Forall_forall in H. destruct (H v Hin) as [s ->].
  now destruct (Hv s).
Qed.

Section WithDumps.
Variable json_dumps : pyval -> string.

Lemma grade_raises (tc : bool) (d : dict) (e : exn) :
  LinearRegime.grade json_dumps tc (PDict d) = Raise e ->
  e = AttributeError
  /\ exists bps, lookup "breakpoints" d = Some (PList bps)
       /\ List.length bps = List.length LinearRegime.EXPECTED_BREAKPOINTS
       /\ Exists not_text bps.
Proof.
  unfold LinearRegime.grade, Text.py_in, get, get_default.
  destruct (lookup "regime_count" d) as [rc|]; cbn [bind negb];
    [|discriminate].
  destruct (lookup "breakpoints" d) as [bp|]; cbn [bind negb];
    [|discriminate].
  destruct (LinearRegime.as_int rc); [|discriminate].
  destruct bp as [| | | | |bps|]; try discriminate.
  destruct (LinearRegime.check_breakpoints bps) as [r|e'] eqn:E;
    cbn [bind]; [discriminate|].
  intros H. injection H as <-.
  apply check_breakpoints_raises in E as (-> & Hl & Hx). eauto.
Qed.


End WithDumps.

End TypedFacts.

(** ** Day counts by the calendar *)

Module DayFacts.
Import Text LinearRegime Calendar.
Local Open Scope list_scope.

(** The first of a month comes right after the last of the month
    before. *)
Lemma next_month (y m : Z) :
  1 <= m < 12 ->
  days_before_month y (m + 1)
  = days_before_month y m + days_in_table (is_leap y) m.
Proof.
  intros Hm.
  destruct (CalendarFacts.month_table y m ltac:(lia)) as [Hb _].
  destruct (CalendarFacts.month_table y (m + 1) ltac:(lia)) as [Hb' _].
  rewrite Hb, Hb'.
  destruct (CalendarFacts.month_cases m ltac:(lia))
    as [E|[E|[E|[E|[E|[E|[E|[E|[E|[E|[E|E]]]]]]]]]]]; rewrite E in *;
    try lia; cbn [days_before_table days_in_table Z.add Pos.add Pos.succ];
    destruct (is_leap y); lia.
Qed.

(** The next day is one day later. *)
Lemma toordinal_next_day (d : datetime) :
  well_formed d -> toordinal (next_day d) = toordinal d + 1.
Proof.
  intros [Hm Hd].
  destruct (CalendarFacts.month_table (year d) (month d) Hm) as [Hb Hi].
  rewrite Hi in Hd. unfold next_day.
  destruct (day d <? days_in_table (is_leap (year d)) (month d)) eqn:Ed.
  - unfold toordinal. cbn [year month day]. lia.
  - apply Z.ltb_ge in Ed.
    destruct (month d <? 12) eqn:Em.
    + apply Z.ltb_lt in Em. unfold toordinal. cbn [year month day].
      rewrite next_month by lia. lia.
    + apply Z.ltb_ge in Em. assert (E : month d = 12) by lia.
      unfold toordinal. cbn [year month day].
      rewrite CalendarFacts.year_step. rewrite Hb.
      rewrite E in *. unfold year_length.
      change (days_before_month (year d + 1) 1) with 0.
      cbn [days_before_table days_in_table] in *.
      destruct (is_leap (year d)); lia.
Qed.

Lemma well_formed_next_day (d : datetime) :
  well_formed d -> well_formed (next_day d).
Proof.
  intros [Hm Hd].
  destruct (CalendarFacts.month_table (year d) (month d) Hm) as [_ Hi].
  unfold next_day, well_formed.
  destruct (day d <? days_in_table (is_leap (year d)) (month d)) eqn:Ed.
  - apply Z.ltb_lt in Ed. cbn [year month day]. rewrite Hi. lia.
  - destruct (month d <? 12) eqn:Em; cbn [year month day].
    + apply Z.ltb_lt in Em.
      destruct (CalendarFacts.month_table (year d) (month d + 1)
                  ltac:(lia)) as [_ Hi'].
      rewrite Hi'. split; [lia|].
      destruct (CalendarFacts.month_cases (month d + 1) ltac:(lia))
        as [E|[E|[E|[E|[E|[E|[E|[E|[E|[E|[E|E]]]]]]]]]]]; rewrite E;
        cbn [days_in_table]; destruct (is_leap (year d)); lia.
    + split; [lia|]. unfold days_in_month. cbn. lia.
Qed.

Lemma well_formed_days_after (n : nat) (d : datetime) :
  well_formed d -> well_formed (days_after n d).
Proof.
  intros H. induction n as [|n IH]; [exact H|].
  cbn [days_after]. now apply well_formed_next_day.
Qed.

Lemma toordinal_days_after (n : nat) (d : datetime) :
  well_formed d -> toordinal (days_after n d) = toordinal d + Z.of_nat n.
Proof.
  intros H. induction n as [|n IH]; [cbn [days_after]; lia|].
  cbn [days_after].
  rewrite toordinal_next_day by now apply well_formed_days_after.
  lia.
Qed.

(** Two dates with the same day count are the same date. *)
Lemma toordinal_inj (a b : datetime) :
  well_formed a -> well_formed b -> toordinal a = toordinal b -> a = b.
Proof.
  intros Ha Hb H.
  apply PairingFacts.date_leb_antisym;
    apply CalendarFacts.date_leb_ordinal_wf; auto; lia.
Qed.

(** The difference of the day counts is the number of days from one date
    to the other. *)
Lemma days_between_days_after (a b : datetime) (n : nat) :
  well_formed a -> well_formed b ->
  (days_between b a = Z.of_nat n <-> b = days_after n a).
Proof.
  intros Ha Hb. unfold days_between. split.
  - intros H. apply toordinal_inj; auto.
    + now apply well_formed_days_after.
    + rewrite toordinal_days_after by exact Ha. lia.
  - intros ->. rewrite toordinal_days_after by exact Ha. lia.
Qed.

Lemma delta_days_apart (a b : datetime) (n : nat) :
  well_formed a -> well_formed b ->
  (Z.abs (days_between a b) = Z.of_nat n <-> days_apart n a b).
Proof.
  intros Ha Hb. unfold days_apart.
  rewrite <- (days_between_days_after a b n Ha Hb).
  rewrite <- (days_between_days_after b a n Hb Ha).
  unfold days_between. lia.
Qed.

Lemma Forall2_iff_in (A B : Type) (P Q : A -> B -> Prop)
  (l1 : list A) (l2 : list B) :
  (forall a b, In a l1 -> In b l2 -> (P a b <-> Q a b)) ->
  (Forall2 P l1 l2 <-> Forall2 Q l1 l2).
Proof.
  intros H. split; intros F.
  - induction F as [|a b l1 l2 Hab F IH]; constructor.
    + apply H; [now left|now left|exact Hab].
    + apply IH. intros x y Hx Hy. apply H; now right.
  - induction F as [|a b l1 l2 Hab F IH]; constructor.
    + apply H; [now left|now left|exact Hab].
    + apply IH. intros x y Hx Hy. apply H; now right.
Qed.

(** Within the tolerance: at most that many days apart. *)
Lemma close_days_apart (t : Z) (a b : datetime) :
  well_formed a -> well_formed b ->
  (Rules.close t a b
   <-> exists n, Z.of_nat n <= t /\ days_apart n a b).
Proof.
  intros Ha Hb. unfold Rules.close.
  change (toordinal a - toordinal b) with (days_between a b). split.
  - intros H. exists (Z.to_nat (Z.abs (days_between a b))). split; [lia|].
    apply delta_days_apart; auto. lia.
  - intros (n & Hn & H). apply delta_days_apart in H; auto. lia.
Qed.

Lemma expected_dates_valid : Forall valid_date Rules.expected_dates.
Proof.
  repeat constructor; cbn; try lia; intros H; discriminate H.
Qed.

End DayFacts.

(** ** The source of an outcome *)

Module CauseFacts.
Local Open Scope list_scope.

(** What a direct result can be when the grader returns: absent or
    empty, or a text. *)
Lemma puzzle_direct_cases (result : dict) (o : outcome) :
  EightPuzzle.test result = Ok o ->
  truthy (get result "task_result") = false
  \/ exists s, get result "task_result" = PStr s.
Proof.
  unfold EightPuzzle.test.
  destruct (truthy (get result "task_result")) eqn:Et; [|now left].
  destruct (get result "task_result"); try discriminate. eauto.
Qed.

Lemma regime_direct_cases (json_dumps : pyval -> string) (result : dict)
  (o : outcome) :
  LinearRegime.test json_dumps result = Ok o ->
  truthy (get result "task_result") = false
  \/ exists s, get result "task_result" = PStr s.
Proof.
  unfold LinearRegime.test.
  destruct (truthy (get result "task_result")) eqn:Et; [|now left].
  destruct (get result "task_result"); try discriminate. eauto.
Qed.

(** The source of an outcome of the eight-puzzle grader: no payload, and
    the outcome is the not-found record; or a first payload, and the
    outcome is its grading. *)
Lemma puzzle_test_cases (result : dict) (o : outcome) :
  EightPuzzle.test result = Ok o ->
  (Rules.no_payload EightPuzzle._extract_answer_from_text
     EightPuzzle.nonempty EightPuzzle._extract_answer_from_conversation
     result
   /\ EightPuzzle.not_found (Rules.task_completed result)
        (py_or (get result "conversation") (PList [])) = Ok o)
  \/ (exists a,
        Rules.first_payload EightPuzzle._extract_answer_from_text
          EightPuzzle.nonempty EightPuzzle._extract_answer_from_conversation
          result a
        /\ o = EightPuzzle.grade (Rules.task_completed result) a).
Proof.
  intros H.
  assert (Hfall :
    (truthy (get result "task_result") = false
     \/ exists s, get result "task_result" = PStr s
          /\ Scanner.keep string EightPuzzle.nonempty
               (EightPuzzle._extract_answer_from_text s) = None) ->
    (Rules.no_payload EightPuzzle._extract_answer_from_text
       EightPuzzle.nonempty EightPuzzle._extract_answer_from_conversation
       result
     /\ EightPuzzle.not_found (Rules.task_completed result)
          (py_or (get result "conversation") (PList [])) = Ok o)
    \/ (exists a,
          Rules.first_payload EightPuzzle._extract_answer_from_text
            EightPuzzle.nonempty
            EightPuzzle._extract_answer_from_conversation result a
          /\ o = EightPuzzle.grade (Rules.task_completed result) a)).
  { intros Hd.
    pose proof (EightPuzzleFacts.test_falls_through result Hd) as Ht.
    rewrite Ht in H. unfold Rules.from_conversation in H.
    destruct (EightPuzzle._extract_answer_from_conversation
                (py_or (get result "conversation") (PList [])))
      as [[a|]|e] eqn:Es; cbn [bind] in H; [| |discriminate].
    - right. exists a. split; [now apply Rules.from_conversation_scan|].
      pose proof (ScannerAnswers.scan_found _ _ _ _ _ Es) as Hf.
      cbn [Scanner.keep] in H. rewrite Hf in H.
      now injection H as <-.
    - left. split; [split; assumption|exact H]. }
  destruct (puzzle_direct_cases result o H) as [Hd|[s Hs]].
  - apply Hfall. now left.
  - destruct (Scanner.keep string EightPuzzle.nonempty
                (EightPuzzle._extract_answer_from_text s)) as [a|] eqn:Ek.
    + right. exists a. apply ScannerAnswers.keep_some in Ek as [Ex Hf].
      split; [now apply Rules.from_direct_result with (s := s)|].
      rewrite (EightPuzzleFacts.puzzle_test_direct result s a) in H; auto.
      * now injection H as <-.
      * intros ->. discriminate.
    + apply Hfall. right. eauto.
Qed.

Section WithDumps.
Variable json_dumps : pyval -> string.

Lemma regime_test_cases (result : dict) (o : outcome) :
  LinearRegime.test json_dumps result = Ok o ->
  (Rules.no_payload LinearRegime._extract_json_from_text truthy
     LinearRegime._extract_json_from_conversation result
   /\ LinearRegime.not_found (Rules.task_completed result)
        (py_or (get result "conversation") (PList [])) = Ok o)
  \/ (exists j,
        Rules.first_payload LinearRegime._extract_json_from_text truthy
          LinearRegime._extract_json_from_conversation result j
        /\ LinearRegime.grade json_dumps (Rules.task_completed result) j
           = Ok o).
Proof.
  intros H.
  assert (Hfall :
    (truthy (get result "task_result") = false
     \/ exists s, get result "task_result" = PStr s
          /\ Scanner.keep pyval truthy
               (LinearRegime._extract_json_from_text s) = None) ->
    (Rules.no_payload LinearRegime._extract_json_from_text truthy
       LinearRegime._extract_json_from_conversation result
     /\ LinearRegime.not_found (Rules.task_completed result)
          (py_or (get result "conversation") (PList [])) = Ok o)
    \/ (exists j,
          Rules.first_payload LinearRegime._extract_json_from_text truthy
            LinearRegime._extract_json_from_conversation result j
          /\ LinearRegime.grade json_dumps (Rules.task_completed result) j
             = Ok o)).
  { intros Hd.
    destruct (LinearRegime._extract_json_from_conversation
                (py_or (get result "conversation") (PList [])))
      as [[j|]|e] eqn:Es.
    - right. exists j. split; [now apply Rules.from_conversation_scan|].
      now rewrite <- (LinearRegimeFacts.regime_test_scanned json_dumps
                        result j Hd Es).
    - left. split; [split; assumption|].
      rewrite <- H. unfold LinearRegime.test.
      rewrite LinearRegimeFacts.regime_completed_rule.
      destruct Hd as [Hd|(s & Hs & Hk)].
      + rewrite Hd. cbn [bind Scanner.keep]. now rewrite Es.
      + rewrite Hs. destruct (truthy (PStr s));
          cbn [bind LinearRegime.extract_json].
        * now rewrite Hk, Es.
        * cbn [Scanner.keep]. now rewrite Es.
    - exfalso. revert H. unfold LinearRegime.test.
      destruct Hd as [Hd|(s & Hs & Hk)].
      + rewrite Hd. cbn [bind Scanner.keep]. now rewrite Es.
      + rewrite Hs. destruct (truthy (PStr s));
          cbn [bind LinearRegime.extract_json].
        * now rewrite Hk, Es.
        * cbn [Scanner.keep]. now rewrite Es. }
  destruct (regime_direct_cases json_dumps result o H) as [Hd|[s Hs]].
  - apply Hfall. now left.
  - destruct (Scanner.keep pyval truthy
                (LinearRegime._extract_json_from_text s)) as [j|] eqn:Ek.
    + right. exists j. apply ScannerAnswers.keep_some in Ek as [Ex Hf].
      split; [now apply Rules.from_direct_result with (s := s)|].
      now rewrite <- (LinearRegimeFacts.regime_test_direct json_dumps
                        result s j Hs Ex Hf).
    + apply Hfall. right. eauto.
Qed.

End WithDumps.

Section Grading.
Variable json_dumps : pyval -> string.

Lemma ok_inj (A : Type) (a b : A) : Ok a = Ok b -> a = b.
Proof. intros H. now injection H. Qed.

(** A rejection and a full verdict differ in the number of details. *)
Lemma rejected_is_no_verdict (tc tc' : bool) (j j' rc : pyval) (why : string)
  (rcc bc : bool) (line : string) :
  LinearRegime.verdict json_dumps tc j rc rcc bc line
  <> LinearRegime.rejected tc' j' why.
Proof.
  intros H. apply (f_equal (fun o => List.length (details o))) in H.
  discriminate H.
Qed.

(** The grading of an object is a rejection exactly when a field is
    missing or of the wrong type, and a full verdict otherwise. *)
Lemma grade_cases (tc : bool) (d : dict) (o : outcome) :
  LinearRegime.grade json_dumps tc (PDict d) = Ok o ->
  (Rules.malformed (PDict d) = true
   /\ exists why, o = LinearRegime.rejected tc (PDict d) why)
  \/ (Rules.malformed (PDict d) = false
      /\ exists regime_count line,
           o = LinearRegime.verdict json_dumps tc (PDict d) regime_count
                 (Rules.regime_count_valid (PDict d))
                 (Rules.breakpoints_valid (PDict d)) line).
Proof.
  intros H.
  assert (Hm : Rules.malformed (PDict d) = true
               \/ Rules.malformed (PDict d) = false)
    by (destruct (Rules.malformed (PDict d)); auto).
  destruct (OutcomeFacts.grade_outcome json_dumps tc (PDict d) o H)
    as [(why & Ho)|(count & line & Ho)].
  - left. split; [|eauto].
    destruct Hm as [Hm|Hm]; [exact Hm|]. exfalso.
    revert H. subst o.
    unfold Rules.malformed in Hm. unfold LinearRegime.grade, Text.py_in.
    unfold get, get_default.
    destruct (lookup "regime_count" d) as [rc|]; [|discriminate].
    destruct (lookup "breakpoints" d) as [bp|];
      [|destruct rc; discriminate].
    cbn [bind negb].
    destruct rc; try discriminate; destruct bp; try discriminate;
      cbn [LinearRegime.as_int];
      (destruct (LinearRegime.check_breakpoints l) as [[ok line]|e];
       cbn [bind]; [|discriminate];
       intros H; apply ok_inj in H;
       now apply rejected_is_no_verdict in H).
  - right. split; [|eauto].
    destruct Hm as [Hm|Hm]; [|exact Hm]. exfalso.
    revert H. subst o.
    unfold Rules.malformed in Hm. unfold LinearRegime.grade, Text.py_in.
    unfold get, get_default.
    destruct (lookup "regime_count" d) as [rc|]; cbn [bind negb];
      [|intros H; apply ok_inj in H; symmetry in H;
        now apply rejected_is_no_verdict in H].
    destruct (lookup "breakpoints" d) as [bp|]; cbn [bind negb];
      [|intros H; apply ok_inj in H; symmetry in H;
        now apply rejected_is_no_verdict in H].
    destruct rc; try discriminate; cbn [LinearRegime.as_int];
      try (intros H; apply ok_inj in H; symmetry in H;
           now apply rejected_is_no_verdict in H);
      destruct bp; try discriminate;
      intros H; apply ok_inj in H; symmetry in H;
      now apply rejected_is_no_verdict in H.
Qed.

End Grading.

Lemma first_payload_dict (result : dict) (j : pyval) :
  Rules.first_payload LinearRegime._extract_json_from_text truthy
    LinearRegime._extract_json_from_conversation result j ->
  exists d, j = PDict d.
Proof.
  intros [s Hs He Hf|Hd Hs].
  - now apply ObjectFacts.extract_json_gives_dict in He.
  - now apply ObjectFacts.scan_gives_dict in Hs.
Qed.

End CauseFacts.

(** * The claims *)

(** C1, as amended.  Both scanners read the conversation in two passes.
    The answer is the [task_complete] result of the newest assistant
    message that carries one, whatever any message says in its content;
    only when no message carries one is it the content answer of the
    newest assistant message that has one.  A tool-call result of an
    older message is therefore preferred to the content of a newer one. *)
Theorem scanner_prefers_tool_call_results :
  (forall (msgs : list pyval) (a : string),
      EightPuzzle._extract_answer_from_conversation (PList msgs) = Ok (Some a)
      <->
      Rules.newest_with
        (Scanner.tool_call_answer string EightPuzzle.extract_answer
           EightPuzzle.nonempty) msgs a
      \/ (Rules.silent
            (Scanner.tool_call_answer string EightPuzzle.extract_answer
               EightPuzzle.nonempty) msgs
          /\ Rules.newest_with
               (Scanner.content_answer string EightPuzzle.extract_answer
                  EightPuzzle.nonempty) msgs a))
  /\
  (forall (msgs : list pyval) (j : pyval),
      LinearRegime._extract_json_from_conversation (PList msgs) = Ok (Some j)
      <->
      Rules.newest_with
        (Scanner.tool_call_answer pyval LinearRegime.extract_json truthy)
        msgs j
      \/ (Rules.silent
            (Scanner.tool_call_answer pyval LinearRegime.extract_json truthy)
            msgs
          /\ Rules.newest_with
               (Scanner.content_answer pyval LinearRegime.extract_json truthy)
               msgs j)).
Proof.
  split; intros msgs a.
  - apply ScannerFacts.scan_spec.
  - apply ScannerFacts.scan_spec.
Qed.

(** C1, as stated, fails: with an older [task_complete] result [OLD] and a
    newer content answer [NEW], each of which its own pass finds, the
    scanner returns [OLD]. *)
Lemma newer_content_does_not_win :
  Scanner.tool_call_answer string EightPuzzle.extract_answer
    EightPuzzle.nonempty (Samples.completes "<answer>OLD</answer>")
  = Ok (Some "OLD")
  /\ Scanner.content_answer string EightPuzzle.extract_answer
       EightPuzzle.nonempty (Samples.says "<answer>NEW</answer>")
     = Ok (Some "NEW")
  /\ EightPuzzle._extract_answer_from_conversation Samples.old_call_new_content
     = Ok (Some "OLD")
  /\ EightPuzzle._extract_answer_from_conversation Samples.old_call_new_content
     <> Ok (Some "NEW").
Proof.
  repeat split; try (vm_compute; reflexivity).
  vm_compute. discriminate.
Qed.

(** C2.  When the direct result carries a non-empty answer, the outcome is
    the grading of that answer and nothing else: any record with the same
    status and the same direct result, whatever its conversation, gets
    the same outcome. *)
Theorem direct_result_wins (result other : dict) (s a : string) :
  get result "task_result" = PStr s ->
  EightPuzzle._extract_answer_from_text s = Some a ->
  a <> EmptyString ->
  get other "task_result" = PStr s ->
  lookup "status" other = lookup "status" result ->
  EightPuzzle.test result
  = Ok (EightPuzzle.grade (Rules.task_completed result) a)
  /\ EightPuzzle.test other = EightPuzzle.test result.
Proof.
  intros Hres Hext Hne Hother Hstatus.
  rewrite (EightPuzzleFacts.puzzle_test_direct result s a Hres Hext Hne).
  rewrite (EightPuzzleFacts.puzzle_test_direct other s a Hother Hext Hne).
  split; [reflexivity|].
  unfold Rules.task_completed. now rewrite Hstatus.
Qed.

(** C2 on a record whose conversation carries another answer. *)
Lemma direct_result_wins_witness :
  EightPuzzle.test Samples.direct_and_conversation
  = Ok (EightPuzzle.grade true "EFPTGK")
  /\ EightPuzzle.test Samples.direct_only
     = EightPuzzle.test Samples.direct_and_conversation.
Proof.
  apply (direct_result_wins Samples.direct_and_conversation Samples.direct_only
           "The code is <answer>EFPTGK</answer>." "EFPTGK").
  - reflexivity.
  - reflexivity.
  - discriminate.
  - reflexivity.
  - reflexivity.
Defined.

(** C3.  The claim fails on the code, by a missed case.  A payload whose
    breakpoints are numbers makes [_parse_date] raise [AttributeError],
    which the handler of [ValueError] lets through; a message whose
    content is a list of parts makes the pattern search raise
    [TypeError].  Neither grader returns an outcome. *)
Theorem ill_typed_values_escape (json_dumps : pyval -> string) :
  LinearRegime.test json_dumps Samples.numeric_breakpoints
  = Raise AttributeError
  /\ EightPuzzle.test Samples.structured_content = Raise TypeError.
Proof. split; reflexivity. Qed.

(** C4.  For as many breakpoints as expected, all of which parse as dates:
    the expected and the actual dates are each sorted in ascending order,
    paired by position, and the field passes exactly when every pair is at
    most [TOLERANCE_DAYS] = 7 days apart; when it fails, the diagnostics
    are those of the pairs that exceed the tolerance, and of no other
    (their text for years of four digits).  The difference of a pair is
    the number of days from one date to the other by the calendar: [n]
    exactly when one date is reached from the other by [n] steps to the
    next day.  With the actual breakpoints 2025-02-20 and 2024-07-25 the
    sorted pairs are 2 and 4 days apart and the field passes. *)
Theorem tolerant_dates_by_sorted_pairing (bps : list pyval)
  (ds : list LinearRegime.datetime) :
  List.length bps = List.length LinearRegime.EXPECTED_BREAKPOINTS ->
  LinearRegime.parse_dates bps = Ok ds ->
  let es := LinearRegime.sort_dates Rules.expected_dates in
  let os := LinearRegime.sort_dates ds in
  let delta := fun p : LinearRegime.datetime * LinearRegime.datetime =>
                 Z.abs (LinearRegime.days_between (fst p) (snd p)) in
  let ok := forallb (fun p => delta p <=? LinearRegime.TOLERANCE_DAYS)
              (combine es os) in
  LinearRegime.TOLERANCE_DAYS = 7
  /\ LinearRegime.parse_dates (map PStr LinearRegime.EXPECTED_BREAKPOINTS)
     = Ok Rules.expected_dates
  /\ Forall2
       (fun bp d =>
          exists s, bp = PStr s
                    /\ LinearRegime.strptime (Text.strip s) = Some d) bps ds
  /\ Permutation Rules.expected_dates es /\ StronglySorted Rules.ordered es
  /\ Permutation ds os /\ StronglySorted Rules.ordered os
  /\ (forall a b n, Calendar.valid_date a -> Calendar.valid_date b ->
        (delta (a, b) = Z.of_nat n <-> Calendar.days_apart n a b))
  /\ (ok = true
      <-> Forall2
            (fun e o => exists n, (n <= 7)%nat /\ Calendar.days_apart n e o)
            es os)
  /\ (ok = true <-> Forall2 (Rules.close LinearRegime.TOLERANCE_DAYS) es os)
  /\ (exists line,
        LinearRegime.check_breakpoints bps = Ok (ok, line)
        /\ (ok = true ->
            line = "✓ All breakpoints are within ±7 day tolerance.")
        /\ (ok = false ->
            Forall (fun d => 1000 <= LinearRegime.year d) ds ->
            line
            = "✗ Breakpoint mismatches:" ++ Text.newline
                ++ Text.join Text.newline
                     (map LinearRegime.describe_mismatch
                        (filter
                           (fun p => LinearRegime.TOLERANCE_DAYS <? delta p)
                           (combine es os)))))
  /\ map delta
       (combine es
          (LinearRegime.sort_dates
             [ {| LinearRegime.year := 2025; LinearRegime.month := 2;
                  LinearRegime.day := 20 |};
               {| LinearRegime.year := 2024; LinearRegime.month := 7;
                  LinearRegime.day := 25 |} ]))
     = [2; 4]
  /\ LinearRegime.check_breakpoints Samples.close_breakpoints
     = Ok (true, "✓ All breakpoints are within ±7 day tolerance.").
Proof.
  intros Hlen Hparse es os delta ok.
  assert (Hok : ok = forallb LinearRegime.within (combine es os)) by reflexivity.
  assert (Hlens : List.length es = List.length os).
  { unfold es, os. rewrite !BreakpointFacts.sort_dates_length.
    now rewrite (BreakpointFacts.parse_dates_length bps ds Hparse), Hlen. }
  assert (Hclose : ok = true
                   <-> Forall2 (Rules.close LinearRegime.TOLERANCE_DAYS) es os).
  { rewrite Hok, (BreakpointFacts.forallb_within_all_close es os Hlens).
    split; apply BreakpointFacts.all_close_Forall2. }
  assert (Hes : Forall Calendar.well_formed es).
  { eapply Permutation_Forall; [apply BreakpointFacts.sort_dates_perm|].
    eapply Forall_impl; [|exact DayFacts.expected_dates_valid].
    apply CalendarFacts.valid_well_formed. }
  assert (Hos : Forall Calendar.well_formed os).
  { eapply Permutation_Forall; [apply BreakpointFacts.sort_dates_perm|].
    eapply Forall_impl; [|exact (CalendarFacts.parse_dates_valid bps ds Hparse)].
    apply CalendarFacts.valid_well_formed. }
  split; [reflexivity|]. split; [reflexivity|].
  split; [now apply BreakpointFacts.parse_dates_strings|].
  split; [apply BreakpointFacts.sort_dates_perm|].
  split; [apply BreakpointFacts.sort_dates_sorted|].
  split; [apply BreakpointFacts.sort_dates_perm|].
  split; [apply BreakpointFacts.sort_dates_sorted|].
  split.
  { intros a b n Ha Hb. unfold delta. cbn [fst snd].
    apply DayFacts.delta_days_apart; now apply CalendarFacts.valid_well_formed. }
  split.
  { rewrite Hclose. apply DayFacts.Forall2_iff_in. intros e o He Ho.
    rewrite Forall_forall in Hes, Hos.
    rewrite (DayFacts.close_days_apart _ e o (Hes e He) (Hos o Ho)).
    split; intros (n & Hn & H); exists n; (split; [|exact H]).
    - unfold LinearRegime.TOLERANCE_DAYS in Hn. lia.
    - unfold LinearRegime.TOLERANCE_DAYS. lia. }
  split; [exact Hclose|].
  split.
  { pose proof (CheckFacts.check_breakpoints_parsed bps ds Hlen Hparse) as H.
    cbv zeta in H. fold es os in H. rewrite <- Hok in H.
    eexists. split; [exact H|].
    split; intros E; rewrite E; [reflexivity|]. intros _. reflexivity. }
  split; reflexivity.
Qed.

(** C4 on two breakpoints of which one is 32 days late: the only
    diagnostic is that of the late one; and on two dates on either side
    of a new year. *)
Lemma tolerant_dates_by_sorted_pairing_witness :
  LinearRegime.check_breakpoints Samples.far_breakpoints
  = Ok (false,
        "✗ Breakpoint mismatches:" ++ Text.newline
          ++ "Expected 2025-02-16, got 2025-03-20 (delta: 32 days)")
  /\ Calendar.days_apart 3
       {| LinearRegime.year := 2024; LinearRegime.month := 12;
          LinearRegime.day := 30 |}
       {| LinearRegime.year := 2025; LinearRegime.month := 1;
          LinearRegime.day := 2 |}.
Proof.
  pose proof (tolerant_dates_by_sorted_pairing Samples.far_breakpoints
                [ {| LinearRegime.year := 2025; LinearRegime.month := 3;
                     LinearRegime.day := 20 |};
                  {| LinearRegime.year := 2024; LinearRegime.month := 7;
                     LinearRegime.day := 30 |} ]
                eq_refl eq_refl) as H.
  cbv zeta in H.
  destruct H as (_ & _ & _ & _ & _ & _ & _ & Hdays & _ & _ & Hline & _).
  split.
  - destruct Hline as (line & Hcheck & _ & Hline).
    rewrite Hcheck. f_equal. f_equal. apply Hline; [reflexivity|].
    repeat constructor; cbn; intros H; discriminate H.
  - apply Hdays.
    + repeat split; cbn; intros H; discriminate H.
    + repeat split; cbn; intros H; discriminate H.
    + reflexivity.
Defined.

(** C5.  When the payload has another number of breakpoints than expected,
    the field fails with the count diagnostic, whatever the elements are:
    nothing is parsed, so that even elements that are not strings raise
    nothing, and the verdict of the grader is a failure. *)
Theorem count_mismatch_fails_at_once (json_dumps : pyval -> string)
  (task_completed : bool) (d : dict) (regime_count : pyval) (count : Z)
  (bps : list pyval) :
  List.length bps <> List.length LinearRegime.EXPECTED_BREAKPOINTS ->
  lookup "regime_count" d = Some regime_count ->
  LinearRegime.as_int regime_count = Some count ->
  lookup "breakpoints" d = Some (PList bps) ->
  let diagnostic :=
    "Expected 2 breakpoints, got "
      ++ Text.show_int (Z.of_nat (List.length bps)) ++ "." in
  LinearRegime.check_breakpoints bps = Ok (false, diagnostic)
  /\ (forall others : list pyval,
        List.length others = List.length bps ->
        LinearRegime.check_breakpoints others
        = LinearRegime.check_breakpoints bps)
  /\ LinearRegime.grade json_dumps task_completed (PDict d)
     = Ok (LinearRegime.verdict json_dumps task_completed (PDict d)
             regime_count (count =? LinearRegime.EXPECTED_REGIME_COUNT)
             false diagnostic)
  /\ (forall o,
        LinearRegime.grade json_dumps task_completed (PDict d) = Ok o ->
        passed o = false
        /\ lookup "breakpoints_correct" (details o) = Some (PBool false)).
Proof.
  intros Hlen Hrc Hint Hbps diagnostic.
  assert (Hcheck : LinearRegime.check_breakpoints bps = Ok (false, diagnostic)).
  { now apply CheckFacts.check_breakpoints_count. }
  assert (Hgrade :
    LinearRegime.grade json_dumps task_completed (PDict d)
    = Ok (LinearRegime.verdict json_dumps task_completed (PDict d)
            regime_count (count =? LinearRegime.EXPECTED_REGIME_COUNT)
            false diagnostic)).
  { unfold LinearRegime.grade, Text.py_in, get, get_default.
    rewrite Hrc, Hbps. cbn [bind negb]. rewrite Hint, Hcheck. reflexivity. }
  split; [exact Hcheck|]. split; [|split; [exact Hgrade|]].
  - intros others Hothers. rewrite Hcheck.
    rewrite CheckFacts.check_breakpoints_count by congruence.
    unfold diagnostic. now rewrite Hothers.
  - intros o Ho. rewrite Hgrade in Ho. injection Ho as <-.
    unfold LinearRegime.verdict. cbn [passed details].
    split; [now rewrite andb_false_r|reflexivity].
Qed.

(** C5 on a single breakpoint that is a number. *)
Lemma count_mismatch_fails_at_once_witness :
  LinearRegime.check_breakpoints [PInt 20250216]
  = Ok (false, "Expected 2 breakpoints, got 1.").
Proof.
  pose proof (count_mismatch_fails_at_once Samples.no_dump true
                Samples.one_breakpoint (PInt 3) 3 [PInt 20250216]) as H.
  cbv zeta in H.
  refine (proj1 (H _ eq_refl eq_refl eq_refl)).
  simpl. discriminate.
Defined.

(** C6.  The tag is found whatever its case, and its body is trimmed: both
    spellings of the answer give payloads that normalize to [EFPTGK], the
    normalized expected answer; and the extracted answer [efptgk], with a
    completed task, passes.  In general, extraction commutes with putting
    the text in upper case, and normalization ignores the case of the
    answer and the blanks around it. *)
Theorem tag_answers_ignore_case_and_blanks :
  EightPuzzle._extract_answer_from_text "<answer> efptgk </answer>"
  = Some "efptgk"
  /\ EightPuzzle._extract_answer_from_text "<ANSWER>EFPTGK</ANSWER>"
     = Some "EFPTGK"
  /\ EightPuzzle._normalize_answer "efptgk" = "EFPTGK"
  /\ EightPuzzle._normalize_answer "EFPTGK" = "EFPTGK"
  /\ EightPuzzle._normalize_answer " efptgk " = "EFPTGK"
  /\ EightPuzzle._normalize_answer EightPuzzle.EXPECTED_ANSWER = "EFPTGK"
  /\ passed (EightPuzzle.grade true "efptgk") = true
  /\ (exists o,
        EightPuzzle.test
          [("status", PStr "success");
           ("task_result", PStr "<answer> efptgk </answer>")] = Ok o
        /\ passed o = true)
  /\ (exists o,
        EightPuzzle.test
          [("status", PStr "success");
           ("conversation", PList [Samples.says "<ANSWER>EFPTGK</ANSWER>"])]
        = Ok o
        /\ passed o = true)
  /\ (forall text,
        EightPuzzle._extract_answer_from_text (Text.upper text)
        = option_map Text.upper (EightPuzzle._extract_answer_from_text text))
  /\ (forall a,
        EightPuzzle._normalize_answer (Text.upper a)
        = EightPuzzle._normalize_answer a)
  /\ (forall before a after,
        Rules.blank before = true -> Rules.blank after = true ->
        EightPuzzle._normalize_answer (before ++ a ++ after)
        = EightPuzzle._normalize_answer a).
Proof.
  repeat split; try reflexivity.
  - eexists. split; [vm_compute; reflexivity|reflexivity].
  - eexists. split; [vm_compute; reflexivity|reflexivity].
  - apply TagFacts.extract_upper.
  - apply TagFacts.normalize_upper.
  - apply TagFacts.normalize_padded.
Qed.

(** C7.  For a record whose first source with a payload gives that payload:
    the verdict is the conjunction of the completion flag, which holds
    exactly when the status is the literal [success], and of the
    validity of every field of that payload; the two are independent.
    The eight-puzzle grader always gives this verdict; the linear-regime
    grader gives it unless a breakpoint of the payload is not a text, in
    which case it gives none and raises. *)
Theorem verdict_is_completion_and_validity (json_dumps : pyval -> string)
  (puzzle : dict) (a : string) (regime : dict) (j : pyval) :
  Rules.first_payload EightPuzzle._extract_answer_from_text
    EightPuzzle.nonempty EightPuzzle._extract_answer_from_conversation
    puzzle a ->
  Rules.first_payload LinearRegime._extract_json_from_text truthy
    LinearRegime._extract_json_from_conversation regime j ->
  (exists o1,
      EightPuzzle.test puzzle = Ok o1
      /\ passed o1 = Rules.task_completed puzzle && Rules.answer_valid a
      /\ lookup "task_completed" (details o1)
         = Some (PBool (Rules.task_completed puzzle)))
  /\ ((exists o2,
         LinearRegime.test json_dumps regime = Ok o2
         /\ passed o2
            = Rules.task_completed regime
              && (Rules.regime_count_valid j && Rules.breakpoints_valid j)
         /\ lookup "task_completed" (details o2)
            = Some (PBool (Rules.task_completed regime)))
      \/ (LinearRegime.test json_dumps regime = Raise AttributeError
          /\ exists d bps,
               j = PDict d
               /\ lookup "breakpoints" d = Some (PList bps)
               /\ List.length bps
                  = List.length LinearRegime.EXPECTED_BREAKPOINTS
               /\ Exists Typed.not_text bps))
  /\ (forall result : dict,
        Rules.task_completed result = true
        <-> lookup "status" result = Some (PStr "success")).
Proof.
  intros Hp Hr. split; [|split].
  - exists (EightPuzzle.grade (Rules.task_completed puzzle) a).
    split; [|split; reflexivity].
    destruct Hp as [s Hs He Hf|Hd Hs].
    + apply EightPuzzleFacts.puzzle_test_direct with (s := s); auto.
      intros ->. discriminate.
    + now apply EightPuzzleScan.puzzle_test_scanned.
  - assert (Hregime : LinearRegime.test json_dumps regime
                      = LinearRegime.grade json_dumps
                          (Rules.task_completed regime) j).
    { destruct Hr as [s Hs He Hf|Hd Hs].
      - now apply LinearRegimeFacts.regime_test_direct with (s := s).
      - now apply LinearRegimeFacts.regime_test_scanned. }
    rewrite Hregime.
    destruct (CauseFacts.first_payload_dict regime j Hr) as [d ->].
    destruct (LinearRegime.grade json_dumps (Rules.task_completed regime)
                (PDict d)) as [o|e] eqn:Eg.
    + left. exists o. split; [reflexivity|]. split.
      * now apply OutcomeFacts.grade_passed in Eg.
      * apply OutcomeFacts.grade_outcome in Eg
          as [(why & ->)|(rc & line & ->)]; reflexivity.
    + right. apply TypedFacts.grade_raises in Eg as (-> & bps & Hb & Hl & Hx).
      split; [reflexivity|]. exists d, bps. auto.
  - intros result. unfold Rules.task_completed.
    destruct (lookup "status" result) as [[]|]; split; try discriminate.
    + intros H. apply String.eqb_eq in H. now subst.
    + intros H. injection H as ->. reflexivity.
Qed.

(** C7 on the right answer of a run that failed and a wrong count of a run
    that completed, and on a wrong answer of a run that completed and a
    right payload of a run that completed. *)
Lemma verdict_is_completion_and_validity_witness :
  (exists o1,
      EightPuzzle.test Samples.right_answer_failed_run = Ok o1
      /\ passed o1 = false && true)
  /\ (exists o2,
        LinearRegime.test Samples.no_dump Samples.wrong_count_completed_run
        = Ok o2
        /\ passed o2 = true && (false && true))
  /\ (exists o1,
        EightPuzzle.test Samples.wrong_call_right_content = Ok o1
        /\ passed o1 = true && false)
  /\ (exists o2,
        LinearRegime.test Samples.no_dump Cases.right_payload_run = Ok o2
        /\ passed o2 = true && (true && true)).
Proof.
  destruct (verdict_is_completion_and_validity Samples.no_dump
              Samples.right_answer_failed_run "EFPTGK"
              Samples.wrong_count_completed_run
              Samples.wrong_count_payload) as (H1 & H2 & _).
  { apply Rules.from_direct_result with (s := "<answer>EFPTGK</answer>");
      reflexivity. }
  { apply Rules.from_direct_result with (s := Samples.wrong_count_json);
      reflexivity. }
  destruct (verdict_is_completion_and_validity Samples.no_dump
              Samples.wrong_call_right_content "ABCDEF"
              Cases.right_payload_run Cases.right_payload)
    as (H3 & H4 & _).
  { apply Rules.from_conversation_scan.
    - right. exists "<answer> </answer>". split; reflexivity.
    - reflexivity. }
  { apply Rules.from_direct_result with (s := Samples.full_json);
      reflexivity. }
  split; [|split; [|split]].
  - destruct H1 as (o1 & Ht & Hp & _). exists o1. split; assumption.
  - destruct H2 as [(o2 & Ht & Hp & _)|(Hraise & _)].
    + exists o2. split; assumption.
    + discriminate Hraise.
  - destruct H3 as (o1 & Ht & Hp & _). exists o1. split; assumption.
  - destruct H4 as [(o2 & Ht & Hp & _)|(Hraise & _)].
    + exists o2. split; assumption.
    + discriminate Hraise.
Defined.

(** C8, as amended.  Every outcome exposes the completion flag.  When no
    source gives a payload the outcome exposes, besides it, only the
    length of the conversation; when the first payload has a field
    missing or of the wrong type, it is exposed with the completion flag
    and nothing else; otherwise, after the comparison, the outcome
    exposes the first payload, the expected values, one flag per field
    and (for the dates) the tolerance. *)
Theorem details_follow_the_outcome (json_dumps : pyval -> string)
  (puzzle : dict) (o1 : outcome) (regime : dict) (o2 : outcome) :
  EightPuzzle.test puzzle = Ok o1 ->
  LinearRegime.test json_dumps regime = Ok o2 ->
  Rules.puzzle_details puzzle o1 /\ Rules.regime_details regime o2.
Proof.
  intros H1 H2. split.
  - apply CauseFacts.puzzle_test_cases in H1 as [(Hn & H)|(a & Hp & ->)].
    + left. split; [exact Hn|]. unfold EightPuzzle.not_found in H.
      destruct (len _) as [n|e]; cbn [bind] in H; [|discriminate].
      injection H as <-. split; [reflexivity|]. exists n. now split.
    + right. exists a. split; [exact Hp|reflexivity].
  - apply CauseFacts.regime_test_cases in H2 as [(Hn & H)|(j & Hp & H)].
    + left. split; [exact Hn|]. unfold LinearRegime.not_found in H.
      destruct (len _) as [n|e]; cbn [bind] in H; [|discriminate].
      injection H as <-. split; [reflexivity|]. exists n. now split.
    + right. destruct (CauseFacts.first_payload_dict regime j Hp) as [d ->].
      apply CauseFacts.grade_cases in H
        as [(Hm & why & ->)|(Hm & rc & line & ->)].
      * left. exists (PDict d). repeat split; auto.
      * right. exists (PDict d). repeat split; auto.
Qed.

(** C8, as amended, on a record with a user message only and on a payload
    without its breakpoints. *)
Lemma details_follow_the_outcome_witness :
  Rules.puzzle_details Cases.user_only
    {| passed := false;
       feedback := "No valid answer found in assistant responses. Expected format: <answer>CODE</answer>";
       details := [("task_completed", PBool true);
                   ("conversation_length", PInt 1)] |}
  /\ Rules.regime_details Samples.missing_breakpoints
       (LinearRegime.rejected true (PDict [("regime_count", PInt 3)])
          "JSON output missing 'breakpoints' field.").
Proof.
  apply (details_follow_the_outcome Samples.no_dump Cases.user_only _
           Samples.missing_breakpoints _).
  - reflexivity.
  - reflexivity.
Defined.

(** C8, as stated, fails: the not-found outcome exposes neither a payload
    nor an expected value nor a flag per field, and a payload without its
    breakpoints is returned with the completion flag only, without the
    expected values, the flags or the tolerance. *)
Lemma failing_outcomes_have_bare_details :
  (exists o,
      EightPuzzle.test [] = Ok o
      /\ passed o = false
      /\ map fst (details o) = ["task_completed"; "conversation_length"]
      /\ lookup "output_answer" (details o) = None
      /\ lookup "expected_answer" (details o) = None
      /\ lookup "answer_correct" (details o) = None)
  /\ (exists o,
        LinearRegime.test Samples.no_dump Samples.missing_breakpoints = Ok o
        /\ passed o = false
        /\ map fst (details o) = ["task_completed"; "output_json"]
        /\ lookup "expected_breakpoints" (details o) = None
        /\ lookup "expected_regime_count" (details o) = None
        /\ lookup "breakpoints_correct" (details o) = None
        /\ lookup "tolerance_days" (details o) = None).
Proof.
  split; eexists; (split; [vm_compute; reflexivity|]); repeat split.
Qed.





(** * Further properties *)

(** ** Messages and tool calls the scanner passes over *)

Module TranscriptFacts.
Import Scanner Transcript.
Local Open Scope list_scope.

Section Ignore.
Variable A : Type.
Variable extract : pyval -> res (option A).
Variable found : A -> bool.

Lemma tool_call_answer_other (m : pyval) :
  is_assistant m = false -> tool_call_answer A extract found m = Ok None.
Proof.
  destruct m; simpl; try reflexivity. intros ->. reflexivity.
Qed.

Lemma content_answer_other (m : pyval) :
  is_assistant m = false -> content_answer A extract found m = Ok None.
Proof.
  destruct m; simpl; try reflexivity. intros ->. reflexivity.
Qed.

Lemma first_answer_filter (body : pyval -> res (option A)) (l : list pyval) :
  (forall m, is_assistant m = false -> body m = Ok None) ->
  first_answer A body (filter is_assistant l) = first_answer A body l.
Proof.
  intros Hbody. induction l as [|m l IH]; simpl; [reflexivity|].
  destruct (is_assistant m) eqn:E; simpl.
  - destruct (body m) as [[a|]|e]; simpl; auto.
  - now rewrite (Hbody m E).
Qed.

Lemma scan_filter (msgs : list pyval) :
  scan A extract found (PList (filter is_assistant msgs))
  = scan A extract found (PList msgs).
Proof.
  rewrite !ScannerFacts.scan_list, <- !filter_rev.
  rewrite !first_answer_filter; auto using tool_call_answer_other,
    content_answer_other.
Qed.

Lemma scan_no_assistant (msgs : list pyval) :
  Forall (fun m => is_assistant m = false) msgs ->
  scan A extract found (PList msgs) = Ok None.
Proof.
  intros H. rewrite <- scan_filter.
  replace (filter is_assistant msgs) with (@nil pyval); [reflexivity|].
  symmetry. induction H as [|m l Hm _ IH]; simpl; [reflexivity|].
  now rewrite Hm.
Qed.

End Ignore.
End TranscriptFacts.

Module CallFacts.
Import Scanner Transcript.
Local Open Scope list_scope.

Section Skip.
Variable A : Type.
Variable extract : pyval -> res (option A).
Variable found : A -> bool.
(** The extractors raise on anything but a [str]. *)
Hypothesis extract_text_only :
  forall v, (forall s, v <> PStr s) -> exists e, extract v = Raise e.

Lemma ignorable_gives_nothing (func : dict) :
  eq_str (get func "name") "task_complete" = true ->
  ignorable func ->
  catch_all (try_tool_call A extract found func) None = None.
Proof.
  intros Hname [Hother|s Hs Hl|args Hd Hr|args v Hd Hr Hv].
  - congruence.
  - unfold try_tool_call, get_default. rewrite Hs. simpl. now rewrite Hl.
  - unfold try_tool_call. rewrite Hd. simpl. now rewrite Hr.
  - unfold try_tool_call. rewrite Hd. simpl. rewrite Hr. simpl.
    destruct (extract_text_only v Hv) as [e ->]. reflexivity.
Qed.

Lemma ignorable_is_skipped (tc func : dict) (rest : list pyval) :
  lookup "function" tc = Some (PDict func) ->
  ignorable func ->
  scan_tool_calls A extract found (PDict tc :: rest)
  = scan_tool_calls A extract found rest.
Proof.
  intros Hf Hi. cbn [scan_tool_calls]. unfold get_default. rewrite Hf.
  destruct (eq_str (get func "name") "task_complete") eqn:E; [|reflexivity].
  now rewrite ignorable_gives_nothing.
Qed.

End Skip.

Lemma extract_answer_text_only (v : pyval) :
  (forall s, v <> PStr s) -> exists e, EightPuzzle.extract_answer v = Raise e.
Proof.
  intros H. destruct v; try (now eexists). now destruct (H s).
Qed.

Lemma extract_json_text_only (v : pyval) :
  (forall s, v <> PStr s) -> exists e, LinearRegime.extract_json v = Raise e.
Proof.
  intros H. destruct v; try (now eexists). now destruct (H s).
Qed.

End CallFacts.

(** X1. Both conversation scanners read the assistant messages only:
    dropping every message that is not a dict with role assistant from a
    conversation changes neither what they return nor what they raise. *)
Theorem only_assistant_messages_are_scanned (msgs : list pyval) :
  EightPuzzle._extract_answer_from_conversation
    (PList (filter Transcript.is_assistant msgs))
  = EightPuzzle._extract_answer_from_conversation (PList msgs)
  /\ LinearRegime._extract_json_from_conversation
       (PList (filter Transcript.is_assistant msgs))
     = LinearRegime._extract_json_from_conversation (PList msgs).
Proof. split; apply TranscriptFacts.scan_filter. Qed.

(** X2. With no usable direct result and a conversation that holds no
    assistant message, both graders return their not-found outcome: not
    passed, with the completion flag and the length of the conversation as
    the only details, whatever the other messages say. *)
Theorem no_assistant_no_answer (json_dumps : pyval -> string)
  (result : dict) (msgs : list pyval) :
  truthy (get result "task_result") = false ->
  get result "conversation" = PList msgs ->
  Forall (fun m => Transcript.is_assistant m = false) msgs ->
  EightPuzzle.test result
  = Ok {| passed := false;
          feedback := "No valid answer found in assistant responses. Expected format: <answer>CODE</answer>";
          details := [("task_completed", PBool (Rules.task_completed result));
                      ("conversation_length",
                       PInt (Z.of_nat (List.length msgs)))] |}
  /\ LinearRegime.test json_dumps result
     = Ok {| passed := false;
             feedback := "No valid JSON object found in assistant responses.";
             details := [("task_completed", PBool (Rules.task_completed result));
                         ("conversation_length",
                          PInt (Z.of_nat (List.length msgs)))] |}.
Proof.
  intros Hres Hconv Hmsgs. split.
  - rewrite EightPuzzleFacts.test_falls_through by now left.
    unfold Rules.from_conversation. rewrite Hconv, PyFacts.py_or_list.
    unfold EightPuzzle._extract_answer_from_conversation.
    rewrite TranscriptFacts.scan_no_assistant by exact Hmsgs.
    reflexivity.
  - unfold LinearRegime.test. rewrite Hres, Hconv, PyFacts.py_or_list.
    rewrite LinearRegimeFacts.regime_completed_rule.
    cbn [bind Scanner.keep].
    unfold LinearRegime._extract_json_from_conversation.
    rewrite TranscriptFacts.scan_no_assistant by exact Hmsgs.
    reflexivity.
Qed.

(** X2 at a record whose only message is the user's and carries a tagged
    answer. *)
Lemma no_assistant_no_answer_witness :
  EightPuzzle.test Cases.user_only
  = Ok {| passed := false;
          feedback := "No valid answer found in assistant responses. Expected format: <answer>CODE</answer>";
          details := [("task_completed",
                       PBool (Rules.task_completed Cases.user_only));
                      ("conversation_length",
                       PInt (Z.of_nat (List.length [Cases.user_message])))] |}
  /\ LinearRegime.test (fun _ => EmptyString) Cases.user_only
     = Ok {| passed := false;
             feedback := "No valid JSON object found in assistant responses.";
             details := [("task_completed",
                          PBool (Rules.task_completed Cases.user_only));
                         ("conversation_length",
                          PInt (Z.of_nat (List.length [Cases.user_message])))] |}.
Proof.
  apply (no_assistant_no_answer (fun _ => EmptyString) Cases.user_only
           [Cases.user_message]).
  - reflexivity.
  - reflexivity.
  - repeat constructor.
Defined.

(** X3. A tool call is passed over, both scanners going on with the calls
    after it, when its function is not task_complete, its arguments are a
    text that does not decode as JSON, the decoded arguments have no result
    entry, or the result is not a text. *)
Theorem unusable_tool_calls_are_skipped (tc func : dict) (rest : list pyval) :
  lookup "function" tc = Some (PDict func) ->
  Transcript.ignorable func ->
  Scanner.scan_tool_calls string EightPuzzle.extract_answer
    EightPuzzle.nonempty (PDict tc :: rest)
  = Scanner.scan_tool_calls string EightPuzzle.extract_answer
      EightPuzzle.nonempty rest
  /\ Scanner.scan_tool_calls pyval LinearRegime.extract_json truthy
       (PDict tc :: rest)
     = Scanner.scan_tool_calls pyval LinearRegime.extract_json truthy rest.
Proof.
  intros Hf Hi. split.
  - apply (CallFacts.ignorable_is_skipped _ _ _
             CallFacts.extract_answer_text_only tc func rest Hf Hi).
  - apply (CallFacts.ignorable_is_skipped _ _ _
             CallFacts.extract_json_text_only tc func rest Hf Hi).
Qed.

(** X3 at a call of another tool. *)
Lemma unusable_tool_calls_are_skipped_witness :
  Scanner.scan_tool_calls string EightPuzzle.extract_answer
    EightPuzzle.nonempty [PDict Cases.search_call]
  = Scanner.scan_tool_calls string EightPuzzle.extract_answer
      EightPuzzle.nonempty []
  /\ Scanner.scan_tool_calls pyval LinearRegime.extract_json truthy
       [PDict Cases.search_call]
     = Scanner.scan_tool_calls pyval LinearRegime.extract_json truthy [].
Proof.
  apply (unusable_tool_calls_are_skipped Cases.search_call
           Cases.search_function []).
  - reflexivity.
  - apply Transcript.other_function. reflexivity.
Defined.

(** X4. Whatever the linear-regime grader extracts is a JSON object: the
    text extraction only returns dicts, the conversation scan only returns
    dicts that are not empty, and the output_json an outcome records is a
    dict that is not empty. *)
Theorem json_payloads_are_objects :
  (forall text j,
      LinearRegime._extract_json_from_text text = Some j -> Rules.is_dict j)
  /\ (forall conversation j,
        LinearRegime._extract_json_from_conversation conversation = Ok (Some j) ->
        Rules.is_dict j /\ j <> PDict [])
  /\ (forall json_dumps result o j,
        LinearRegime.test json_dumps result = Ok o ->
        lookup "output_json" (details o) = Some j ->
        Rules.is_dict j /\ j <> PDict []).
Proof.
  split; [|split].
  - apply ObjectFacts.extract_json_gives_dict.
  - intros conversation j H. split.
    + now apply ObjectFacts.scan_gives_dict in H.
    + apply ScannerAnswers.scan_found in H. intros ->. discriminate.
  - intros json_dumps result o j Ho Hj.
    apply OutcomeFacts.linear_regime_outcome in Ho
      as [(c & H)|(j' & Ht & Hd & H)].
    + unfold LinearRegime.not_found in H.
      destruct (len c); cbn [bind] in H; [|discriminate].
      injection H as <-. discriminate.
    + rewrite (GradeFacts.grade_records_payload _ _ _ _ H) in Hj.
      injection Hj as <-. split; [exact Hd|]. intros ->. discriminate.
Qed.

(** ** Tagged answers *)

Module StripFacts.
Import Text Tags.

Lemma rstrip_idem (s : string) : rstrip (rstrip s) = rstrip s.
Proof.
  induction s as [|c s IH]; simpl; [reflexivity|].
  destruct (rstrip s) as [|d r] eqn:E.
  - destruct (is_space c) eqn:Ec; simpl; [reflexivity|]. now rewrite Ec.
  - cbn [rstrip]. cbn [rstrip] in IH. rewrite IH. reflexivity.
Qed.

(** [rstrip] keeps a first character that is not a space. *)
Lemma rstrip_head (c : ascii) (s : string) :
  is_space c = false -> exists r, rstrip (String c s) = String c r.
Proof.
  intros Hc. simpl. destruct (rstrip s).
  - rewrite Hc. eauto.
  - eauto.
Qed.

Lemma lstrip_head (s : string) :
  lstrip s = EmptyString
  \/ exists c r, lstrip s = String c r /\ is_space c = false.
Proof.
  induction s as [|c s IH]; simpl; [now left|].
  destruct (is_space c) eqn:E; [exact IH|]. right. eauto.
Qed.

Lemma lstrip_strip (s : string) : lstrip (strip s) = strip s.
Proof.
  unfold strip. destruct (lstrip_head s) as [->|(c & r & -> & Hc)].
  - reflexivity.
  - destruct (rstrip_head c r Hc) as [r' ->]. simpl. now rewrite Hc.
Qed.

Lemma strip_trimmed (s : string) : trimmed (strip s).
Proof.
  split; [apply lstrip_strip|]. unfold strip. apply rstrip_idem.
Qed.

Lemma strip_idem (s : string) : strip (strip s) = strip s.
Proof.
  destruct (strip_trimmed s) as [Hl Hr]. unfold strip at 1.
  now rewrite Hl, Hr.
Qed.

End StripFacts.

Module FindFacts.
Import Text Tags.

Lemma append_assoc (a b c : string) : (a ++ b) ++ c = a ++ (b ++ c).
Proof. induction a as [|x a IH]; simpl; [reflexivity|now rewrite IH]. Qed.

Lemma length_append (a b : string) :
  String.length (a ++ b) = (String.length a + String.length b)%nat.
Proof. induction a as [|x a IH]; simpl; [reflexivity|now rewrite IH]. Qed.

Lemma append_suffix (x x' y y' : string) :
  x ++ y = x' ++ y' ->
  (String.length x <= String.length x')%nat ->
  exists z, y = z ++ y'.
Proof.
  revert x'. induction x as [|c x IH]; intros x' H Hle.
  - exists x'. exact H.
  - destruct x' as [|c' x']; [simpl in Hle; lia|].
    simpl in H. injection H as _ H. apply (IH x' H). simpl in Hle. lia.
Qed.

(** A successful case-blind prefix test cuts off a spelling of the
    pattern. *)
Lemma starts_ci_split (p s rest : string) :
  starts_ci p s = Some rest -> exists m, s = m ++ rest /\ lower m = p.
Proof.
  revert s. induction p as [|a p IH]; intros s H; simpl in H.
  - injection H as <-. exists EmptyString. now split.
  - destruct s as [|b s]; [discriminate|].
    destruct (a =? to_lower b)%char eqn:E; [|discriminate].
    apply Ascii.eqb_eq in E. apply IH in H as (m & -> & <-).
    exists (String b m). split; [reflexivity|]. simpl. now rewrite E.
Qed.

Lemma starts_ci_complete (m rest : string) :
  starts_ci (lower m) (m ++ rest) = Some rest.
Proof.
  induction m as [|b m IH]; simpl; [reflexivity|].
  now rewrite Ascii.eqb_refl.
Qed.

Lemma find_ci_split (p s before rest : string) :
  find_ci p s = Some (before, rest) ->
  exists m, s = before ++ m ++ rest /\ lower m = p.
Proof.
  revert before. induction s as [|c s IH]; intros before H.
  - cbn [find_ci] in H. destruct (starts_ci p EmptyString) eqn:E;
      [|discriminate].
    injection H as <- <-. apply starts_ci_split in E. exact E.
  - cbn [find_ci] in H. destruct (starts_ci p (String c s)) eqn:E.
    + injection H as <- <-. apply starts_ci_split in E. exact E.
    + destruct (find_ci p s) as [[b r]|] eqn:F; [|discriminate].
      injection H as <- <-.
      destruct (IH b eq_refl) as (m & -> & Hm).
      exists m. now split.
Qed.

(** The occurrence found is the leftmost one. *)
Lemma find_ci_leftmost (p s before rest : string) :
  find_ci p s = Some (before, rest) ->
  forall before' m' rest',
    s = before' ++ m' ++ rest' -> lower m' = p ->
    (String.length before <= String.length before')%nat.
Proof.
  revert before. induction s as [|c s IH]; intros before H b' m' r' Hs Hm.
  - cbn [find_ci] in H. destruct (starts_ci p EmptyString); [|discriminate].
    injection H as <- <-. simpl. lia.
  - cbn [find_ci] in H. destruct (starts_ci p (String c s)) eqn:E.
    + injection H as <- <-. simpl. lia.
    + destruct (find_ci p s) as [[b r]|] eqn:F; [|discriminate].
      injection H as <- <-.
      destruct b' as [|x b'].
      * simpl in Hs. rewrite Hs, <- Hm, starts_ci_complete in E. discriminate.
      * simpl in Hs. injection Hs as _ Hs.
        specialize (IH b eq_refl b' m' r' Hs Hm). simpl. lia.
Qed.

Lemma find_ci_none (p s : string) :
  find_ci p s = None ->
  forall before m rest, s = before ++ m ++ rest -> lower m <> p.
Proof.
  induction s as [|c s IH]; intros H b m r Hs Hm.
  - cbn [find_ci] in H. destruct (starts_ci p EmptyString) eqn:E;
      [discriminate|].
    destruct b; [|discriminate]. simpl in Hs.
    rewrite Hs, <- Hm, starts_ci_complete in E. discriminate.
  - cbn [find_ci] in H. destruct (starts_ci p (String c s)) eqn:E;
      [discriminate|].
    destruct (find_ci p s) as [[b0 r0]|] eqn:F; [discriminate|].
    destruct b as [|x b].
    + simpl in Hs. rewrite Hs, <- Hm, starts_ci_complete in E. discriminate.
    + simpl in Hs. injection Hs as _ Hs. exact (IH eq_refl b m r Hs Hm).
Qed.

End FindFacts.

(** X5. Stripping and normalizing are idempotent and give texts with no
    whitespace at either end, and two answers with the same normal form are
    both valid or both invalid. *)
Theorem normalized_answers_are_canonical (a : string) :
  Tags.trimmed (Text.strip a)
  /\ Text.strip (Text.strip a) = Text.strip a
  /\ EightPuzzle._normalize_answer (EightPuzzle._normalize_answer a)
     = EightPuzzle._normalize_answer a
  /\ Tags.trimmed (EightPuzzle._normalize_answer a)
  /\ (forall b,
        EightPuzzle._normalize_answer a = EightPuzzle._normalize_answer b ->
        Rules.answer_valid a = Rules.answer_valid b).
Proof.
  split; [apply StripFacts.strip_trimmed|].
  split; [apply StripFacts.strip_idem|].
  assert (Hcanon : Text.strip (EightPuzzle._normalize_answer a)
                   = EightPuzzle._normalize_answer a).
  { unfold EightPuzzle._normalize_answer.
    now rewrite TagFacts.upper_strip, StripFacts.strip_idem. }
  split; [|split].
  - unfold EightPuzzle._normalize_answer at 1. rewrite Hcanon.
    unfold EightPuzzle._normalize_answer. apply TagFacts.upper_idem.
  - rewrite <- Hcanon. apply StripFacts.strip_trimmed.
  - intros b H. unfold Rules.answer_valid.
    unfold EightPuzzle._normalize_answer in H. now rewrite H.
Qed.

(** X6. An answer extracted from an ASCII text is the stripped text between
    the leftmost opening tag, in any case, and the first closing tag after
    it. *)
Theorem answer_is_between_the_first_tags (text a : string) :
  Tags.ascii_only text = true ->
  EightPuzzle._extract_answer_from_text text = Some a ->
  exists before opening body closing rest,
    text = before ++ opening ++ body ++ closing ++ rest
    /\ Tags.lower opening = "<answer>"
    /\ Tags.lower closing = "</answer>"
    /\ a = Text.strip body
    /\ (forall before' m' rest',
          text = before' ++ m' ++ rest' -> Tags.lower m' = "<answer>" ->
          (String.length before <= String.length before')%nat)
    /\ (forall body' m' rest',
          body ++ closing ++ rest = body' ++ m' ++ rest' ->
          Tags.lower m' = "</answer>" ->
          (String.length body <= String.length body')%nat).
Proof.
  intros _. unfold EightPuzzle._extract_answer_from_text,
    EightPuzzle.answer_pattern_search.
  destruct (Text.find_ci "<answer>" text) as [[before after]|] eqn:E1;
    [|discriminate].
  destruct (Text.find_ci "</answer>" after) as [[body rest]|] eqn:E2;
    [|discriminate].
  intros H. injection H as <-.
  destruct (FindFacts.find_ci_split _ _ _ _ E1) as (opening & Ht & Ho).
  destruct (FindFacts.find_ci_split _ _ _ _ E2) as (closing & Ha & Hc).
  exists before, opening, body, closing, rest.
  split; [now rewrite Ht, Ha|].
  repeat split; auto.
  - apply (FindFacts.find_ci_leftmost _ _ _ _ E1).
  - rewrite <- Ha. apply (FindFacts.find_ci_leftmost _ _ _ _ E2).
Qed.

(** X6 at a text whose tags are in mixed case. *)
Lemma answer_is_between_the_first_tags_witness :
  EightPuzzle._extract_answer_from_text Cases.mixed_case_tags
  = Some "efptgk"
  /\ exists before opening body closing rest,
       Cases.mixed_case_tags = before ++ opening ++ body ++ closing ++ rest
       /\ Tags.lower opening = "<answer>"
       /\ Tags.lower closing = "</answer>"
       /\ "efptgk" = Text.strip body
       /\ (forall before' m' rest',
             Cases.mixed_case_tags = before' ++ m' ++ rest' ->
             Tags.lower m' = "<answer>" ->
             (String.length before <= String.length before')%nat)
       /\ (forall body' m' rest',
             body ++ closing ++ rest = body' ++ m' ++ rest' ->
             Tags.lower m' = "</answer>" ->
             (String.length body <= String.length body')%nat).
Proof.
  split; [reflexivity|].
  apply (answer_is_between_the_first_tags Cases.mixed_case_tags "efptgk").
  - reflexivity.
  - reflexivity.
Defined.

(** X7. The text extraction of the eight-puzzle grader finds nothing in an
    ASCII text exactly when the text has no opening tag followed, anywhere
    later, by a closing tag. *)
Theorem no_tag_pair_no_answer (text : string) :
  Tags.ascii_only text = true ->
  EightPuzzle._extract_answer_from_text text = None <->
  (forall before opening body closing rest,
      text = before ++ opening ++ body ++ closing ++ rest ->
      Tags.lower opening = "<answer>" ->
      Tags.lower closing <> "</answer>").
Proof.
  intros _. unfold EightPuzzle._extract_answer_from_text,
    EightPuzzle.answer_pattern_search.
  split.
  - intros H before opening body closing rest Ht Ho Hc.
    destruct (Text.find_ci "<answer>" text) as [[b after]|] eqn:E1.
    + destruct (Text.find_ci "</answer>" after) as [[bd r]|] eqn:E2;
        [discriminate|].
      destruct (FindFacts.find_ci_split _ _ _ _ E1) as (op & Hs & Hop).
      (* the found opening is at or before the given one, so the given
         closing lies after it *)
      pose proof (FindFacts.find_ci_leftmost _ _ _ _ E1 before opening
                    (body ++ closing ++ rest) Ht Ho) as Hle.
      assert (Hlen : String.length op = String.length opening).
      { apply (f_equal String.length) in Hop, Ho.
        assert (L : forall s, String.length (Tags.lower s) = String.length s).
        { induction s; simpl; congruence. }
        rewrite L in Hop, Ho. congruence. }
      assert (Hsuf : exists pre, after = pre ++ closing ++ rest).
      { destruct (FindFacts.append_suffix (b ++ op) (before ++ opening)
                    after (body ++ closing ++ rest)) as [z Hz].
        - rewrite !FindFacts.append_assoc. congruence.
        - rewrite !FindFacts.length_append. lia.
        - exists (z ++ body). now rewrite FindFacts.append_assoc. }
      destruct Hsuf as [pre Hpre].
      exact (FindFacts.find_ci_none _ _ E2 pre closing rest Hpre Hc).
    + exact (FindFacts.find_ci_none _ _ E1 before opening
               (body ++ closing ++ rest) Ht Ho).
  - intros H.
    destruct (Text.find_ci "<answer>" text) as [[b after]|] eqn:E1;
      [|reflexivity].
    destruct (Text.find_ci "</answer>" after) as [[bd r]|] eqn:E2;
      [|reflexivity].
    destruct (FindFacts.find_ci_split _ _ _ _ E1) as (op & Hs & Hop).
    destruct (FindFacts.find_ci_split _ _ _ _ E2) as (cl & Ha & Hcl).
    exfalso. apply (H b op bd cl r); auto. now rewrite Hs, Ha.
Qed.

(** X7 at a text whose opening tag is never closed. *)
Lemma no_tag_pair_no_answer_witness :
  EightPuzzle._extract_answer_from_text Cases.unclosed_tag = None
  /\ (EightPuzzle._extract_answer_from_text Cases.unclosed_tag = None <->
      (forall before opening body closing rest,
          Cases.unclosed_tag = before ++ opening ++ body ++ closing ++ rest ->
          Tags.lower opening = "<answer>" ->
          Tags.lower closing <> "</answer>")).
Proof.
  split; [reflexivity|].
  apply (no_tag_pair_no_answer Cases.unclosed_tag). reflexivity.
Defined.

(** ** JSON objects in plain text *)

Module BraceFacts.
Import Text LinearRegime Braces.

Lemma brace_body_free (inner : bool) (p s : string) :
  brace_free p = true ->
  brace_body inner (p ++ s)
  = match brace_body inner s with
    | Some m => Some (p ++ m)
    | None => None
    end.
Proof.
  induction p as [|c p IH]; intros H.
  - simpl. now destruct (brace_body inner s).
  - simpl in H. apply andb_true_iff in H as [Hc Hp].
    unfold is_brace in Hc. apply negb_true_iff, orb_false_iff in Hc as [H1 H2].
    change (String c p ++ s) with (String c (p ++ s)).
    cbn [brace_body]. rewrite H1, H2, (IH Hp).
    now destruct (brace_body inner s).
Qed.

(** The pattern matches an object that holds objects without objects of
    their own, up to its closing brace. *)
Lemma brace_body_nested (body post : string) :
  nested_once body ->
  brace_body false (body ++ "}" ++ post) = Some (body ++ "}").
Proof.
  induction 1 as [p Hp|p q rest Hp Hq Hrest IH].
  - rewrite (brace_body_free _ _ _ Hp). reflexivity.
  - rewrite !FindFacts.append_assoc.
    rewrite (brace_body_free _ _ _ Hp).
    change ("{" ++ q ++ "}" ++ rest ++ "}" ++ post)
      with (String "{" (q ++ String "}" (rest ++ "}" ++ post))).
    cbn [brace_body]. cbn [Ascii.eqb Bool.eqb].
    rewrite (brace_body_free _ _ _ Hq).
    cbn [brace_body]. cbn [Ascii.eqb Bool.eqb].
    rewrite IH. reflexivity.
Qed.

Lemma findall_skip (m post : string) :
  findall (String.length m) (m ++ post) = findall 0 post.
Proof.
  induction m as [|c m IH]; [reflexivity|]. exact IH.
Qed.

Lemma findall_free (pre s : string) :
  brace_free pre = true -> findall 0 (pre ++ s) = findall 0 s.
Proof.
  induction pre as [|c pre IH]; intros H; [reflexivity|].
  simpl in H. apply andb_true_iff in H as [Hc Hp].
  unfold is_brace in Hc. apply negb_true_iff, orb_false_iff in Hc as [H1 _].
  change (String c pre ++ s) with (String c (pre ++ s)).
  cbn [findall]. rewrite H1. now apply IH.
Qed.

Lemma findall_object (pre body post : string) :
  brace_free pre = true -> nested_once body ->
  findall 0 (pre ++ "{" ++ body ++ "}" ++ post)
  = ("{" ++ body ++ "}") :: findall 0 post.
Proof.
  intros Hpre Hbody. rewrite (findall_free _ _ Hpre).
  change ("{" ++ body ++ "}" ++ post) with (String "{" (body ++ "}" ++ post)).
  cbn [findall]. cbn [Ascii.eqb Bool.eqb].
  rewrite (brace_body_nested body post Hbody).
  replace (body ++ "}" ++ post) with ((body ++ "}") ++ post)
    by apply FindFacts.append_assoc.
  now rewrite findall_skip.
Qed.

Lemma fence_free_no_block (text : string) :
  fence_free text = true -> json_block_search text = None.
Proof.
  induction text as [|c text IH]; intros H; [reflexivity|].
  simpl in H. apply andb_true_iff in H as [Hc Ht].
  apply negb_true_iff in Hc.
  cbn [json_block_search].
  assert (Hb : block_at (String c text) = None).
  { unfold block_at, backticks. cbn [starts].
    rewrite Ascii.eqb_sym, Hc. reflexivity. }
  rewrite Hb. now apply IH.
Qed.

Lemma fence_free_suffix (a b : string) :
  fence_free (a ++ b) = true -> fence_free b = true.
Proof.
  induction a as [|c a IH]; intros H; [exact H|].
  simpl in H. apply andb_true_iff in H as [_ H]. now apply IH.
Qed.

End BraceFacts.

(** X8. In a text without a backtick, an object that comes after brace-free
    prose and holds, between its braces, only brace-free text and objects
    with brace-free text inside, is the first candidate of the extraction:
    what is extracted is what json.loads makes of it, and when it does not
    decode, what is extracted from the text after it. *)
Theorem plain_json_objects_are_found (pre body post : string) :
  Braces.brace_free pre = true ->
  Braces.nested_once body ->
  Braces.fence_free (pre ++ "{" ++ body ++ "}" ++ post) = true ->
  LinearRegime._extract_json_from_text (pre ++ "{" ++ body ++ "}" ++ post)
  = match Json.loads ("{" ++ body ++ "}") with
    | Some v => Some v
    | None => LinearRegime._extract_json_from_text post
    end.
Proof.
  intros Hpre Hbody Hfence.
  unfold LinearRegime._extract_json_from_text.
  rewrite (BraceFacts.fence_free_no_block _ Hfence).
  rewrite (BraceFacts.findall_object pre body post Hpre Hbody).
  cbn [LinearRegime.first_decoded].
  destruct (Json.loads ("{" ++ body ++ "}")) as [v|]; [reflexivity|].
  assert (Hpost : Braces.fence_free post = true).
  { apply (BraceFacts.fence_free_suffix (pre ++ "{" ++ body ++ "}") post).
    now rewrite !FindFacts.append_assoc. }
  now rewrite (BraceFacts.fence_free_no_block _ Hpost).
Qed.

(** X8 at a payload with one inner object, in the middle of a sentence. *)
Lemma plain_json_objects_are_found_witness :
  LinearRegime._extract_json_from_text Cases.payload_in_prose
  = Some (PDict [("regime_count", PInt 3); ("meta", PDict [("n", PInt 1)])])
  /\ LinearRegime._extract_json_from_text Cases.payload_in_prose
     = match
         Json.loads
           ("{" ++ (Cases.payload_before ++ "{" ++ Cases.payload_inside
                    ++ "}" ++ "") ++ "}")
       with
       | Some v => Some v
       | None => LinearRegime._extract_json_from_text " as asked."
       end.
Proof.
  split; [reflexivity|].
  apply (plain_json_objects_are_found "Result: "
           (Cases.payload_before ++ "{" ++ Cases.payload_inside ++ "}" ++ "")
           " as asked.").
  - reflexivity.
  - apply (Braces.group Cases.payload_before Cases.payload_inside "");
      [reflexivity|reflexivity|].
    apply Braces.plain. reflexivity.
  - reflexivity.
Defined.

(** ** Dates: the calendar, the order and the pairing *)

(** X9. The dates that parse are dates of the calendar, on them the order
    used for sorting is the order of the day numbers, and the sorted dates
    ascend in day number. *)
Theorem sorted_dates_ascend_in_days (bps : list pyval)
  (ds : list LinearRegime.datetime) :
  LinearRegime.parse_dates bps = Ok ds ->
  Forall Calendar.valid_date ds
  /\ StronglySorted
       (fun a b => LinearRegime.toordinal a <= LinearRegime.toordinal b)
       (LinearRegime.sort_dates ds)
  /\ (forall a b, In a ds -> In b ds ->
        (LinearRegime.date_leb a b = true
         <-> LinearRegime.toordinal a <= LinearRegime.toordinal b)).
Proof.
  intros Hparse.
  pose proof (CalendarFacts.parse_dates_valid bps ds Hparse) as Hv.
  split; [exact Hv|]. split.
  - assert (Hvs : Forall Calendar.valid_date (LinearRegime.sort_dates ds)).
    { eapply Permutation_Forall; [apply BreakpointFacts.sort_dates_perm|].
      exact Hv. }
    pose proof (BreakpointFacts.sort_dates_sorted ds) as Hs.
    induction Hs as [|x l Hl IH Hx]; [constructor|].
    inversion Hvs as [|? ? Vx Vl]; subst.
    constructor; [now apply IH|].
    rewrite Forall_forall in *. intros y Hy.
    apply (CalendarFacts.date_leb_ordinal x y Vx (Vl y Hy)).
    now apply Hx.
  - rewrite Forall_forall in Hv. intros a b Ha Hb.
    apply CalendarFacts.date_leb_ordinal; auto.
Qed.

(** X9 at two breakpoints given the later one first. *)
Lemma sorted_dates_ascend_in_days_witness :
  Forall Calendar.valid_date Cases.later_first_dates
  /\ StronglySorted
       (fun a b => LinearRegime.toordinal a <= LinearRegime.toordinal b)
       (LinearRegime.sort_dates Cases.later_first_dates)
  /\ (forall a b, In a Cases.later_first_dates ->
        In b Cases.later_first_dates ->
        (LinearRegime.date_leb a b = true
         <-> LinearRegime.toordinal a <= LinearRegime.toordinal b)).
Proof.
  apply (sorted_dates_ascend_in_days Cases.later_first
           Cases.later_first_dates).
  reflexivity.
Defined.

(** X10. When there are as many breakpoints as expected and they all parse,
    the check passes exactly when the parsed dates can be put in some order
    in which each is within the tolerance of the expected date at its
    position: pairing the sorted lists loses nothing. *)
Theorem breakpoints_pass_iff_some_pairing_is_close (bps : list pyval)
  (ds : list LinearRegime.datetime) :
  List.length bps = List.length LinearRegime.EXPECTED_BREAKPOINTS ->
  LinearRegime.parse_dates bps = Ok ds ->
  (exists line, LinearRegime.check_breakpoints bps = Ok (true, line))
  <-> exists ds', Permutation ds ds'
                  /\ Forall2 (Rules.close LinearRegime.TOLERANCE_DAYS)
                       Rules.expected_dates ds'.
Proof.
  intros Hlen Hparse.
  rewrite <- (PairingFacts.passes_iff_some_pairing bps ds Hlen Hparse).
  pose proof (CheckFacts.check_breakpoints_parsed bps ds Hlen Hparse) as H.
  cbv zeta in H. rewrite H. split.
  - intros (line & E).
    apply (f_equal (fun r => match r with Ok p => fst p | Raise _ => false end))
      in E. exact E.
  - intros E. rewrite E. eauto.
Qed.

(** X10 at two breakpoints given the later one first. *)
Lemma breakpoints_pass_iff_some_pairing_is_close_witness :
  (exists line,
      LinearRegime.check_breakpoints Cases.later_first = Ok (true, line))
  <-> exists ds', Permutation Cases.later_first_dates ds'
                  /\ Forall2 (Rules.close LinearRegime.TOLERANCE_DAYS)
                       Rules.expected_dates ds'.
Proof.
  apply (breakpoints_pass_iff_some_pairing_is_close Cases.later_first
           Cases.later_first_dates).
  - reflexivity.
  - reflexivity.
Defined.

(** X11. The order in which the breakpoints are listed is immaterial: when
    they all parse, any permutation of them gets the same verdict and the
    same feedback line. *)
Theorem breakpoints_order_is_immaterial (bps bps' : list pyval)
  (ds : list LinearRegime.datetime) :
  Permutation bps bps' ->
  LinearRegime.parse_dates bps = Ok ds ->
  LinearRegime.check_breakpoints bps' = LinearRegime.check_breakpoints bps.
Proof.
  intros Hp Hparse.
  destruct (PairingFacts.parse_dates_permutation bps bps' ds Hp Hparse)
    as (ds' & Hparse' & Hpd).
  unfold LinearRegime.check_breakpoints, LinearRegime.compare_breakpoints.
  rewrite <- (Permutation_length Hp), Hparse, Hparse'.
  cbn [bind]. now rewrite (PairingFacts.sort_dates_permutation ds ds' Hpd).
Qed.

(** X11 at two breakpoints and their reversal. *)
Lemma breakpoints_order_is_immaterial_witness :
  LinearRegime.check_breakpoints (rev Cases.later_first)
  = LinearRegime.check_breakpoints Cases.later_first.
Proof.
  apply (breakpoints_order_is_immaterial Cases.later_first
           (rev Cases.later_first) Cases.later_first_dates).
  - apply Permutation_rev.
  - reflexivity.
Defined.

Module PrintingFacts.
Import Text LinearRegime Calendar Printing.

Lemma years_print_as_read :
  forallb prints_as_read four_digit_years = true.
Proof. vm_compute. reflexivity. Qed.

Lemma digit_is_no_space (c : ascii) : is_digit c = true -> is_space c = false.
Proof.
  unfold is_digit, Json.is_digit, is_space. intros H.
  apply andb_true_iff in H as [H1 H2]. apply Nat.leb_le in H1, H2.
  apply orb_false_iff. split; apply andb_false_iff.
  - right. apply Nat.leb_gt. lia.
  - right. apply Nat.leb_gt. lia.
Qed.

Lemma read_year_printed (y : Z) (rest : string) :
  1000 <= y <= 9999 ->
  read_year (pad 4 y ++ rest) = Some (y, rest)
  /\ lstrip (pad 4 y ++ rest) = pad 4 y ++ rest.
Proof.
  intros Hy.
  pose proof years_print_as_read as H. rewrite forallb_forall in H.
  specialize (H y).
  assert (Hin : In y four_digit_years).
  { unfold four_digit_years. apply in_map_iff.
    exists (Z.to_nat (y - 1000)). split; [lia|]. apply in_seq. lia. }
  apply H in Hin. unfold prints_as_read in Hin.
  destruct (pad 4 y) as [|a [|b [|c [|d [|? ?]]]]]; try discriminate.
  apply andb_true_iff in Hin as [Hin Hv].
  apply andb_true_iff in Hin as [Hin Hd].
  apply andb_true_iff in Hin as [Hin Hc].
  apply andb_true_iff in Hin as [Ha Hb].
  apply Z.eqb_eq in Hv. split.
  - cbn [append read_year]. rewrite Ha, Hb, Hc, Hd. cbn [andb].
    now rewrite Hv.
  - cbn [append lstrip]. now rewrite (digit_is_no_space a Ha).
Qed.

Lemma day_cases (d : Z) :
  1 <= d <= 31 ->
  d = 1 \/ d = 2 \/ d = 3 \/ d = 4 \/ d = 5 \/ d = 6 \/ d = 7 \/ d = 8
  \/ d = 9 \/ d = 10 \/ d = 11 \/ d = 12 \/ d = 13 \/ d = 14 \/ d = 15
  \/ d = 16 \/ d = 17 \/ d = 18 \/ d = 19 \/ d = 20 \/ d = 21 \/ d = 22
  \/ d = 23 \/ d = 24 \/ d = 25 \/ d = 26 \/ d = 27 \/ d = 28 \/ d = 29
  \/ d = 30 \/ d = 31.
Proof. lia. Qed.

Lemma read_month_printed (m : Z) (rest : string) :
  1 <= m <= 12 -> read_month (pad 2 m ++ rest) = Some (m, rest).
Proof.
  intros Hm.
  destruct (CalendarFacts.month_cases m Hm)
    as [->|[->|[->|[->|[->|[->|[->|[->|[->|[->|[->| ->]]]]]]]]]]];
    reflexivity.
Qed.

Lemma read_day_printed (d : Z) :
  1 <= d <= 31 ->
  read_day (pad 2 d) = Some (d, EmptyString)
  /\ rstrip (pad 2 d) = pad 2 d /\ pad 2 d <> EmptyString.
Proof.
  intros Hd.
  repeat match goal with
         | H : _ \/ _ |- _ => destruct H as [->|H]
         | H : 1 <= _ <= 31 |- _ => apply day_cases in H
         end; try subst d; (split; [reflexivity|split; [reflexivity|discriminate]]).
Qed.

(** Trailing text that does not end in whitespace protects what comes
    before it. *)
Lemma rstrip_app_kept (s t : string) :
  rstrip t = t -> t <> EmptyString -> rstrip (s ++ t) = s ++ t.
Proof.
  intros Ht Hne. induction s as [|c s IH]; [exact Ht|].
  cbn [append rstrip]. rewrite IH.
  destruct (s ++ t) eqn:E; [|reflexivity].
  destruct s; [now subst|discriminate].
Qed.

Lemma strptime_strftime (d : datetime) :
  valid_date d -> 1000 <= year d ->
  strip (strftime d) = strftime d /\ strptime (strftime d) = Some d.
Proof.
  intros (Hy & Hm & Hd) Hy1000.
  assert (Hd31 : 1 <= day d <= 31).
  { assert (days_in_month (year d) (month d) <= 31).
    { unfold days_in_month.
      repeat match goal with
             | |- context [if ?b then _ else _] => destruct b
             end; lia. }
    lia. }
  destruct (read_day_printed (day d) Hd31) as (Rd & Sd & Nd).
  unfold strftime.
  destruct (read_year_printed (year d)
              ("-" ++ pad 2 (month d) ++ "-" ++ pad 2 (day d))
              ltac:(lia)) as [Ry Ly].
  split.
  - unfold strip. rewrite Ly.
    rewrite <- !FindFacts.append_assoc.
    apply rstrip_app_kept; assumption.
  - unfold strptime. rewrite Ry. cbn [append starts Ascii.eqb Bool.eqb].
    rewrite (read_month_printed (month d) _ Hm).
    cbn [append starts Ascii.eqb Bool.eqb]. rewrite Rd.
    replace ((1 <=? year d) && (day d <=? days_in_month (year d) (month d)))
      with true.
    + now destruct d.
    + symmetry. apply andb_true_iff. split; apply Z.leb_le; lia.
Qed.

End PrintingFacts.

(** X12. A date of the calendar from the year 1000 on, printed with the
    format of the feedback lines, parses back to itself. *)
Theorem printed_dates_parse_back (d : LinearRegime.datetime) :
  Calendar.valid_date d -> 1000 <= LinearRegime.year d ->
  LinearRegime._parse_date (PStr (LinearRegime.strftime d)) = Ok d.
Proof.
  intros Hv Hy.
  destruct (PrintingFacts.strptime_strftime d Hv Hy) as [Hs Hp].
  unfold LinearRegime._parse_date. now rewrite Hs, Hp.
Qed.

(** X12 at a leap day. *)
Lemma printed_dates_parse_back_witness :
  LinearRegime.strftime Cases.leap_day = "2024-02-29"
  /\ LinearRegime._parse_date (PStr (LinearRegime.strftime Cases.leap_day))
     = Ok Cases.leap_day.
Proof.
  split; [reflexivity|].
  apply (printed_dates_parse_back Cases.leap_day).
  - unfold Calendar.valid_date.
    repeat split; vm_compute; intros H; discriminate H.
  - vm_compute. intros H. discriminate H.
Defined.

(** ** Records of the expected types *)



(** ** executor/utils.py: the reported configuration *)

Module ConfigFacts.
Import Config.

Lemma lookup_pop_same (k : string) (d : dict) : lookup k (pop k d) = None.
Proof.
  induction d as [|[k' v] d IH]; simpl; [reflexivity|].
  destruct (k' =? k)%string eqn:E; simpl; [assumption|]. now rewrite E.
Qed.

Lemma lookup_pop_other (k k' : string) (d : dict) :
  k <> k' -> lookup k' (pop k d) = lookup k' d.
Proof.
  intros Hne. induction d as [|[k0 v] d IH]; simpl; [reflexivity|].
  destruct (k0 =? k)%string eqn:E; simpl.
  - apply String.eqb_eq in E. subst k0.
    destruct (k =? k')%string eqn:E'; [|assumption].
    apply String.eqb_eq in E'. contradiction.
  - now rewrite IH.
Qed.

(** Popping keeps the other entries in their order. *)
Lemma pop_filter (k : string) (d : dict) :
  pop k d = filter (fun kv => negb (fst kv =? k)%string) d.
Proof.
  induction d as [|[k' v] d IH]; simpl; [reflexivity|].
  destruct (k' =? k)%string; simpl; now rewrite IH.
Qed.

Lemma extract_config_info_ok (config info config' : dict) :
  extract_config_info config = Ok (info, config') ->
  exists controller args,
    lookup "controller" config = Some (PDict controller)
    /\ lookup "args" controller = Some (PDict args)
    /\ info = [("controller", PDict (set "args" (PDict (pop "api_key" args))
                                       controller));
               ("sandbox", get_default config "sandbox" (PDict []))]
    /\ config' = set "controller"
                   (PDict (set "args" (PDict (pop "api_key" args)) controller))
                   config.
Proof.
  unfold extract_config_info, get_default.
  destruct (lookup "controller" config) as [[| | | | | |controller]|] eqn:Ec;
    try discriminate.
  destruct (lookup "args" controller) as [[| | | | | |args]|] eqn:Ea;
    try discriminate.
  cbn [pop_in_place bind]. intros H. injection H as <- <-.
  exists controller, args. repeat split; auto.
Qed.

End ConfigFacts.

(** X14. When extract_config_info returns, the controller args it reports
    have no api_key and are otherwise those of the configuration, the
    sandbox is reported as it is, and the configuration of the caller has
    lost the api_key too, nothing else of it having changed. *)
Theorem api_key_is_dropped_everywhere (config info config' : dict) :
  Config.extract_config_info config = Ok (info, config') ->
  exists controller args controller' args',
    lookup "controller" config = Some (PDict controller)
    /\ lookup "args" controller = Some (PDict args)
    /\ lookup "controller" info = Some (PDict controller')
    /\ lookup "controller" config' = Some (PDict controller')
    /\ lookup "args" controller' = Some (PDict args')
    /\ lookup "api_key" args' = None
    /\ (forall k, k <> "api_key" -> lookup k args' = lookup k args)
    /\ (forall k, k <> "args" -> lookup k controller' = lookup k controller)
    /\ (forall k, k <> "controller" -> lookup k config' = lookup k config)
    /\ lookup "sandbox" info
       = Some (get_default config "sandbox" (PDict [])).
Proof.
  intros H.
  apply ConfigFacts.extract_config_info_ok in H
    as (controller & args & Hc & Ha & -> & ->).
  exists controller, args,
    (set "args" (PDict (Config.pop "api_key" args)) controller),
    (Config.pop "api_key" args).
  repeat split; auto.
  - apply PyFacts.lookup_set_same.
  - apply PyFacts.lookup_set_same.
  - apply ConfigFacts.lookup_pop_same.
  - intros k Hk. apply ConfigFacts.lookup_pop_other. congruence.
  - intros k Hk. apply PyFacts.lookup_set_other. congruence.
  - intros k Hk. apply PyFacts.lookup_set_other. congruence.
Qed.

(** X14 at a configuration with a key, with what the call returns and leaves
    behind. *)
Lemma api_key_is_dropped_everywhere_witness :
  Config.extract_config_info Cases.llm_config
  = Ok (Cases.llm_info, Cases.llm_config_after)
  /\ exists controller args controller' args',
       lookup "controller" Cases.llm_config = Some (PDict controller)
       /\ lookup "args" controller = Some (PDict args)
       /\ lookup "controller" Cases.llm_info = Some (PDict controller')
       /\ lookup "controller" Cases.llm_config_after
          = Some (PDict controller')
       /\ lookup "args" controller' = Some (PDict args')
       /\ lookup "api_key" args' = None
       /\ (forall k, k <> "api_key" -> lookup k args' = lookup k args)
       /\ (forall k, k <> "args" ->
           lookup k controller' = lookup k controller)
       /\ (forall k, k <> "controller" ->
           lookup k Cases.llm_config_after = lookup k Cases.llm_config)
       /\ lookup "sandbox" Cases.llm_info
          = Some (get_default Cases.llm_config "sandbox" (PDict [])).
Proof.
  split; [reflexivity|].
  apply (api_key_is_dropped_everywhere Cases.llm_config Cases.llm_info
           Cases.llm_config_after).
  reflexivity.
Defined.

(** X15. extract_config_info returns exactly when the configuration has a
    controller that is a dict with args that are a dict; without a
    controller entry it raises KeyError, the default of the lookup having no
    args. *)
Theorem config_info_needs_controller_args (config : dict) :
  ((exists r, Config.extract_config_info config = Ok r)
   <-> exists controller args,
         lookup "controller" config = Some (PDict controller)
         /\ lookup "args" controller = Some (PDict args))
  /\ (lookup "controller" config = None ->
      Config.extract_config_info config = Raise KeyError).
Proof.
  split; [split|].
  - intros [[info config'] H].
    apply ConfigFacts.extract_config_info_ok in H
      as (controller & args & Hc & Ha & _).
    eauto.
  - intros (controller & args & Hc & Ha).
    unfold Config.extract_config_info, get_default. rewrite Hc, Ha.
    cbn. eauto.
  - intros Hc. unfold Config.extract_config_info, get_default.
    now rewrite Hc.
Qed.

(** ** executor/utils.py: retries *)

Module RetryFacts.
Import Retry.
Local Open Scope list_scope.

Section Facts.
Variables State A E : Type.
Variable func : State -> attempted A E * State.
Variable sleep_error : E.
Variable max_retries : Z.
Variable delay : Q.

Lemma sleep_accepted (attempt : Z) (w : world State) :
  (0 <= delay)%Q ->
  sleep State (delay * inject_Z (2 ^ attempt)) w
  = Some {| state := state w;
            slept := slept w ++ [(delay * inject_Z (2 ^ attempt))%Q] |}.
Proof.
  intros delay_pos. unfold sleep.
  assert (H : (0 <= delay * inject_Z (2 ^ attempt))%Q).
  { apply Qmult_le_0_compat; [exact delay_pos|].
    change 0%Q with (inject_Z 0). rewrite <- Zle_Qle.
    destruct (Z.le_gt_cases 0 attempt) as [Ha|Ha].
    - now apply Z.pow_nonneg.
    - rewrite Z.pow_neg_r by lia. lia. }
  apply Qle_bool_iff in H. now rewrite H.
Qed.

Lemma after_succ (k : nat) (s : State) :
  after State A E func (S k) s
  = snd (func (after State A E func k s)).
Proof.
  revert s. induction k as [|k IH]; intros s; [reflexivity|].
  change (after State A E func (S (S k)) s)
    with (after State A E func (S k) (snd (func s))).
  now rewrite IH.
Qed.

Lemma failing_tail (k : nat) (s : State) :
  failing State A E func (S k) s ->
  (exists e, fst (func s) = Failed e)
  /\ failing State A E func k (snd (func s)).
Proof.
  intros H. split.
  - apply (H O). lia.
  - intros i Hi. apply (H (S i)). lia.
Qed.

Lemma backoff_from_succ (attempt : Z) (k : nat) :
  backoff_from delay attempt (S k)
  = (delay * inject_Z (2 ^ attempt))%Q :: backoff_from delay (attempt + 1) k.
Proof.
  unfold backoff_from. simpl. rewrite Z.add_0_r. f_equal.
  rewrite <- seq_shift, map_map. apply map_ext. intros i.
  do 3 f_equal. lia.
Qed.

Lemma backoff_from_zero (k : nat) : backoff_from delay 0 k = backoff delay k.
Proof. reflexivity. Qed.

Lemma attempts_success (k : nat) :
  (0 <= delay)%Q ->
  forall (remaining : nat) (attempt : Z) (w : world State) (a : A),
  attempt + Z.of_nat remaining = max_retries ->
  (k < remaining)%nat ->
  failing State A E func k (state w) ->
  fst (func (after State A E func k (state w))) = Returned a ->
  attempts State A E func sleep_error max_retries delay remaining attempt w
  = (Return a,
     {| state := after State A E func (S k) (state w);
        slept := slept w ++ backoff_from delay attempt k |}).
Proof.
  intros Hd.
  induction k as [|k IH]; intros remaining attempt w a Hmax Hk Hfail Hok.
  - destruct remaining as [|remaining]; [lia|]. simpl in *.
    destruct (func (state w)) as [r s]. simpl in Hok. subst r.
    now rewrite app_nil_r.
  - destruct remaining as [|remaining]; [lia|].
    apply failing_tail in Hfail as [[e He] Hfail].
    change (after State A E func (S k) (state w))
      with (after State A E func k (snd (func (state w)))) in Hok.
    change (after State A E func (S (S k)) (state w))
      with (after State A E func (S k) (snd (func (state w)))).
    cbn [attempts].
    destruct (func (state w)) as [r s]. cbn [fst snd] in *. subst r.
    destruct (attempt =? max_retries - 1) eqn:El; [lia|].
    rewrite sleep_accepted by exact Hd. cbn [state slept].
    rewrite (IH remaining (attempt + 1) _ a); cbn [state slept];
      try assumption; try lia.
    rewrite backoff_from_succ, <- app_assoc. reflexivity.
Qed.

Lemma attempts_exhausted (k : nat) :
  (0 <= delay)%Q ->
  forall (remaining : nat) (attempt : Z) (w : world State) (e : E),
  remaining = S k ->
  attempt + Z.of_nat remaining = max_retries ->
  failing State A E func k (state w) ->
  fst (func (after State A E func k (state w))) = Failed e ->
  attempts State A E func sleep_error max_retries delay remaining attempt w
  = (Raise e,
     {| state := after State A E func (S k) (state w);
        slept := slept w ++ backoff_from delay attempt k |}).
Proof.
  intros Hd.
  induction k as [|k IH]; intros remaining attempt w e Hr Hmax Hfail Hlast.
  - subst remaining. simpl in *.
    destruct (func (state w)) as [r s]. simpl in Hlast. subst r.
    destruct (attempt =? max_retries - 1) eqn:El; [|lia].
    now rewrite app_nil_r.
  - destruct remaining as [|remaining]; [discriminate|].
    injection Hr as Hr.
    apply failing_tail in Hfail as [[e' He'] Hfail].
    change (after State A E func (S k) (state w))
      with (after State A E func k (snd (func (state w)))) in Hlast.
    change (after State A E func (S (S k)) (state w))
      with (after State A E func (S k) (snd (func (state w)))).
    cbn [attempts].
    destruct (func (state w)) as [r s]. cbn [fst snd] in *. subst r.
    destruct (attempt =? max_retries - 1) eqn:El; [lia|].
    rewrite sleep_accepted by exact Hd. cbn [state slept].
    rewrite (IH remaining (attempt + 1) _ e); cbn [state slept];
      try assumption; try lia.
    rewrite backoff_from_succ, <- app_assoc. reflexivity.
Qed.

(** Whatever [func] does and whatever the delay is: the calls made and
    how the loop can end. *)
Lemma attempts_bounded (remaining : nat) :
  forall (attempt : Z) (w : world State),
  attempt + Z.of_nat remaining = max_retries ->
  exists k,
    (k <= remaining)%nat
    /\ state (snd (attempts State A E func sleep_error max_retries delay
                     remaining attempt w))
       = after State A E func k (state w)
    /\ (fst (attempts State A E func sleep_error max_retries delay
               remaining attempt w) = ReturnNone
        <-> remaining = O).
Proof.
  induction remaining as [|remaining IH]; intros attempt w Hmax.
  - exists O. simpl. repeat split; auto.
  - cbn [attempts].
    destruct (func (state w)) as [r s] eqn:Ef.
    destruct r as [a|e].
    + exists 1%nat. cbn. rewrite Ef. repeat split; try lia; discriminate.
    + destruct (attempt =? max_retries - 1) eqn:El.
      * exists 1%nat. cbn. rewrite Ef. repeat split; try lia; discriminate.
      * destruct (sleep State _ _) as [w'|] eqn:Es.
        -- assert (Hw : state w' = s).
           { unfold sleep in Es. destruct (Qle_bool _ _); [|discriminate].
             now injection Es as <-. }
           destruct (IH (attempt + 1) w' ltac:(lia)) as (k & Hk & Hs & Hn).
           exists (S k). rewrite Hs, Hw. cbn [after]. rewrite Ef.
           repeat split; try lia; try discriminate.
           intros Hnone. apply Hn in Hnone. lia.
        -- exists 1%nat. cbn. rewrite Ef.
           repeat split; try lia; discriminate.
Qed.

End Facts.

(** The sleeps add up to one delay less than the next sleep would be. *)
Lemma total_app (l : list Q) (x : Q) : (total (l ++ [x]) == total l + x)%Q.
Proof.
  induction l as [|y l IHl]; simpl; [ring|]. rewrite IHl. ring.
Qed.

Lemma backoff_total (delay : Q) (k : nat) :
  (total (backoff delay k) == delay * inject_Z (2 ^ Z.of_nat k - 1))%Q.
Proof.
  unfold backoff.
  induction k as [|k IH].
  - simpl. ring.
  - rewrite seq_S, map_app. cbn [map Nat.add].
    rewrite total_app, IH.
    rewrite Nat2Z.inj_succ, Z.pow_succ_r by lia.
    unfold Z.sub. rewrite !inject_Z_plus, inject_Z_mult.
    change (inject_Z (- (1))) with (- (1))%Q. change (inject_Z 2) with 2%Q.
    ring.
Qed.

End RetryFacts.

(** X16. With a delay that is not negative, if the first k calls of func
    raise and the next one returns, k being less than max_retries and at
    most 1024, and the sleeps delay, 2 delay, ... before the retries are all
    at most 4000000 seconds, lengths that time.sleep accepts, then
    retry_request returns that value after exactly k + 1 calls, having slept
    those lengths, delay (2^k - 1) in all. *)
Theorem retry_returns_the_first_success (State A E : Type)
  (func : State -> Retry.attempted A E * State) (sleep_error : E)
  (max_retries : Z) (delay : Q) (w : Retry.world State) (k : nat) (a : A) :
  (0 <= delay)%Q ->
  (k <= 1024)%nat ->
  Forall (fun d => (d <= Retry.max_sleep)%Q) (Retry.backoff delay k) ->
  (k < Z.to_nat max_retries)%nat ->
  Retry.failing State A E func k (Retry.state w) ->
  fst (func (Retry.after State A E func k (Retry.state w)))
  = Retry.Returned a ->
  Retry.retry_request State A E func sleep_error max_retries delay w
  = (Retry.Return a,
     {| Retry.state := Retry.after State A E func (S k) (Retry.state w);
        Retry.slept := List.app (Retry.slept w) (Retry.backoff delay k) |})
  /\ (Retry.total (Retry.backoff delay k)
      == delay * inject_Z (2 ^ Z.of_nat k - 1))%Q.
Proof.
  intros Hd _ _ Hk Hfail Hok. split.
  - unfold Retry.retry_request.
    rewrite (RetryFacts.attempts_success State A E func sleep_error
               max_retries delay k Hd (Z.to_nat max_retries) 0 w a);
      auto.
    lia.
  - apply RetryFacts.backoff_total.
Qed.

(** X16 at a request that fails twice, retried up to three times with a
    delay of one. *)
Lemma retry_returns_the_first_success_witness :
  Retry.retry_request nat nat string Cases.flaky Cases.negative_sleep 3 1
    Cases.fresh
  = (Retry.Return 2%nat,
     {| Retry.state :=
          Retry.after nat nat string Cases.flaky 3 (Retry.state Cases.fresh);
        Retry.slept :=
          List.app (Retry.slept Cases.fresh) (Retry.backoff 1 2) |})
  /\ (Retry.total (Retry.backoff 1 2)
      == 1 * inject_Z (2 ^ Z.of_nat 2 - 1))%Q.
Proof.
  apply (retry_returns_the_first_success nat nat string Cases.flaky
           Cases.negative_sleep 3 1 Cases.fresh 2 2%nat).
  - unfold Qle. simpl. lia.
  - lia.
  - repeat constructor; unfold Qle; simpl; lia.
  - simpl. lia.
  - intros [|[|i]] Hi; [exists "timeout"; reflexivity
                       |exists "timeout"; reflexivity|lia].
  - reflexivity.
Defined.

(** X17. With a delay that is not negative, if all of the max_retries = k +
    1 calls of func raise, k being at most 1024 and the sleeps delay, 2
    delay, ... between them at most 4000000 seconds each, lengths that
    time.sleep accepts, then retry_request raises what the last call raised,
    after exactly max_retries calls and without a sleep after the last one.
    *)
Theorem retry_raises_the_last_error (State A E : Type)
  (func : State -> Retry.attempted A E * State) (sleep_error : E)
  (max_retries : Z) (delay : Q) (w : Retry.world State) (k : nat) (e : E) :
  (0 <= delay)%Q ->
  (k <= 1024)%nat ->
  Forall (fun d => (d <= Retry.max_sleep)%Q) (Retry.backoff delay k) ->
  max_retries = Z.of_nat (S k) ->
  Retry.failing State A E func k (Retry.state w) ->
  fst (func (Retry.after State A E func k (Retry.state w)))
  = Retry.Failed e ->
  Retry.retry_request State A E func sleep_error max_retries delay w
  = (Retry.Raise e,
     {| Retry.state := Retry.after State A E func (S k) (Retry.state w);
        Retry.slept := List.app (Retry.slept w) (Retry.backoff delay k) |}).
Proof.
  intros Hd _ _ Hmax Hfail Hlast. unfold Retry.retry_request.
  rewrite (RetryFacts.attempts_exhausted State A E func sleep_error
             max_retries delay k Hd (Z.to_nat max_retries) 0 w e); auto; lia.
Qed.

(** X17 at a request that always fails, tried three times with a delay of
    one. *)
Lemma retry_raises_the_last_error_witness :
  Retry.retry_request nat nat string Cases.broken Cases.negative_sleep 3 1
    Cases.fresh
  = (Retry.Raise "refused",
     {| Retry.state :=
          Retry.after nat nat string Cases.broken 3
            (Retry.state Cases.fresh);
        Retry.slept :=
          List.app (Retry.slept Cases.fresh) (Retry.backoff 1 2) |}).
Proof.
  apply (retry_raises_the_last_error nat nat string Cases.broken
           Cases.negative_sleep 3 1 Cases.fresh 2 "refused").
  - unfold Qle. simpl. lia.
  - lia.
  - repeat constructor; unfold Qle; simpl; lia.
  - reflexivity.
  - intros i Hi. exists "refused". reflexivity.
  - reflexivity.
Defined.

(** X18. Whatever func does and whatever the delay is, retry_request calls
    func at most max_retries times; it returns None without a call exactly
    when max_retries is not positive; and with a negative delay and at least
    two attempts allowed, a first failure is not retried: the error of the
    sleep is raised instead. *)
Theorem retry_never_exceeds_max_retries (State A E : Type)
  (func : State -> Retry.attempted A E * State) (sleep_error : E)
  (max_retries : Z) (delay : Q) (w : Retry.world State) :
  (exists k,
     (k <= Z.to_nat max_retries)%nat
     /\ Retry.state
          (snd (Retry.retry_request State A E func sleep_error max_retries
                  delay w))
        = Retry.after State A E func k (Retry.state w))
  /\ (fst (Retry.retry_request State A E func sleep_error max_retries
             delay w) = Retry.ReturnNone
      <-> max_retries <= 0)
  /\ (max_retries <= 0 ->
      Retry.retry_request State A E func sleep_error max_retries delay w
      = (Retry.ReturnNone, w))
  /\ (forall e, (delay < 0)%Q -> 2 <= max_retries ->
      fst (func (Retry.state w)) = Retry.Failed e ->
      Retry.retry_request State A E func sleep_error max_retries delay w
      = (Retry.Raise sleep_error,
         {| Retry.state := snd (func (Retry.state w));
            Retry.slept := Retry.slept w |})).
Proof.
  assert (Hnone : max_retries <= 0 ->
    Retry.retry_request State A E func sleep_error max_retries delay w
    = (Retry.ReturnNone, w)).
  { intros Hm. unfold Retry.retry_request.
    replace (Z.to_nat max_retries) with O by lia. reflexivity. }
  split; [|split; [|split]].
  - destruct (Z.le_gt_cases max_retries 0) as [Hm|Hm].
    + exists O. rewrite (Hnone Hm). split; [lia|reflexivity].
    + destruct (RetryFacts.attempts_bounded State A E func sleep_error
                  max_retries delay (Z.to_nat max_retries) 0 w)
        as (k & Hk & Hs & _); [lia|].
      exists k. now split.
  - destruct (Z.le_gt_cases max_retries 0) as [Hm|Hm].
    + rewrite (Hnone Hm). split; auto.
    + destruct (RetryFacts.attempts_bounded State A E func sleep_error
                  max_retries delay (Z.to_nat max_retries) 0 w)
        as (k & _ & _ & Hn); [lia|].
      unfold Retry.retry_request. rewrite Hn. lia.
  - exact Hnone.
  - intros e Hd Hm He. unfold Retry.retry_request.
    destruct (Z.to_nat max_retries) as [|remaining] eqn:Er; [lia|].
    cbn [Retry.attempts].
    destruct (func (Retry.state w)) as [r s]. cbn [fst snd] in *. subst r.
    destruct (0 =? max_retries - 1) eqn:El; [lia|].
    unfold Retry.sleep.
    assert (Hneg : Qle_bool 0 (delay * inject_Z (2 ^ 0)) = false).
    { destruct (Qle_bool 0 (delay * inject_Z (2 ^ 0))) eqn:Eq; [|reflexivity].
      apply Qle_bool_iff in Eq. change (inject_Z (2 ^ 0)) with 1%Q in Eq.
      rewrite Qmult_1_r in Eq. exfalso. apply (Qlt_not_le _ _ Hd Eq). }
    now rewrite Hneg.
Qed.

(** ** decrypt_utils.py *)

Module DecryptFacts.
Import Decrypt.

Lemma xor_byte_involutive (a b : ascii) : xor_byte (xor_byte a b) b = a.
Proof.
  destruct a, b. simpl.
  now rewrite !xorb_assoc, !xorb_nilpotent, !xorb_false_r.
Qed.

Lemma length_xor_zip (x y : string) :
  String.length (xor_zip x y)
  = Nat.min (String.length x) (String.length y).
Proof.
  revert y. induction x as [|a x IH]; intros [|b y]; simpl; auto.
Qed.

Lemma xor_zip_involutive (x y : string) :
  (String.length x <= String.length y)%nat ->
  xor_zip (xor_zip x y) y = x.
Proof.
  revert y. induction x as [|a x IH]; intros [|b y] H; simpl in *;
    try reflexivity; try lia.
  rewrite xor_byte_involutive, IH by lia. reflexivity.
Qed.

Lemma length_times (k : nat) (key : string) :
  String.length (times k key) = (k * String.length key)%nat.
Proof.
  induction k as [|k IH]; simpl; [reflexivity|].
  now rewrite FindFacts.length_append, IH.
Qed.

Lemma length_take (n : nat) (key : string) :
  String.length (take n key) = Nat.min n (String.length key).
Proof.
  revert key. induction n as [|n IH]; intros [|c key]; simpl; auto.
Qed.

Lemma get_take (n i : nat) (key : string) :
  (i < n)%nat -> String.get i (take n key) = String.get i key.
Proof.
  revert i key. induction n as [|n IH]; intros i [|c key] H; simpl;
    try reflexivity; try lia.
  destruct i as [|i]; [reflexivity|]. apply IH. lia.
Qed.

Lemma get_times (k i : nat) (key : string) :
  (i < k * String.length key)%nat ->
  String.get i (times k key) = String.get (i mod String.length key) key.
Proof.
  revert i. induction k as [|k IH]; intros i H; [simpl in H; lia|].
  cbn [times].
  destruct (Nat.lt_ge_cases i (String.length key)) as [Hi|Hi].
  - rewrite Nat.mod_small by exact Hi. symmetry. now apply append_correct1.
  - replace i with ((i - String.length key) + String.length key)%nat
      at 1 by lia.
    rewrite <- append_correct2, IH by (simpl in H; lia).
    f_equal.
    replace i
      with ((i - String.length key) + 1 * String.length key)%nat at 2
      by lia.
    rewrite Nat.Div0.mod_add. reflexivity.
Qed.

Section Key.
Variable sha256 : string -> string.
Hypothesis digest_size : forall m, String.length (sha256 m) = 32%nat.

Lemma key_parts (n : Z) :
  0 <= n ->
  (Z.to_nat (n / 32) * 32 + Z.to_nat (n mod 32) = Z.to_nat n)%nat
  /\ (Z.to_nat (n mod 32) < 32)%nat.
Proof.
  intros Hn.
  pose proof (Z.div_mod n 32 ltac:(lia)) as Hd.
  pose proof (Z.mod_pos_bound n 32 ltac:(lia)) as Hm.
  assert (Hq : 0 <= n / 32) by (apply Z.div_pos; lia).
  lia.
Qed.

Lemma derive_key_parts (password : string) (n : Z) :
  derive_key sha256 password n
  = times (Z.to_nat (n / 32)) (sha256 password)
    ++ take (Z.to_nat (n mod 32)) (sha256 password).
Proof. unfold derive_key. now rewrite digest_size. Qed.

Lemma derive_key_length (password : string) (n : Z) :
  0 <= n ->
  String.length (derive_key sha256 password n) = Z.to_nat n.
Proof.
  intros Hn. rewrite derive_key_parts.
  rewrite FindFacts.length_append, length_times, length_take, digest_size.
  destruct (key_parts n Hn) as [Hsum Hlt]. lia.
Qed.

Lemma derive_key_get (password : string) (n : Z) (i : nat) :
  (i < Z.to_nat n)%nat ->
  String.get i (derive_key sha256 password n)
  = String.get (i mod 32) (sha256 password).
Proof.
  intros Hi. assert (Hn : 0 <= n) by lia.
  destruct (key_parts n Hn) as [Hsum Hlt].
  rewrite derive_key_parts.
  set (q := Z.to_nat (n / 32)) in *. set (r := Z.to_nat (n mod 32)) in *.
  destruct (Nat.lt_ge_cases i (q * 32)) as [Hq|Hq].
  - rewrite <- append_correct1 by (rewrite length_times, digest_size; lia).
    rewrite get_times by (rewrite digest_size; lia).
    now rewrite digest_size.
  - replace i
      with ((i - q * 32) + String.length (times q (sha256 password)))%nat
      at 1 by (rewrite length_times, digest_size; lia).
    rewrite <- append_correct2, get_take by lia.
    f_equal.
    replace i with ((i - q * 32) + q * 32)%nat at 2 by lia.
    rewrite Nat.Div0.mod_add. symmetry. apply Nat.mod_small. lia.
Qed.

(** The XOR with the key keeps the length and undoes itself. *)
Lemma xor_with_key_length (password text : string) :
  String.length (xor_with_key sha256 password text) = String.length text.
Proof.
  unfold xor_with_key.
  rewrite length_xor_zip, derive_key_length by lia. lia.
Qed.

Lemma xor_with_key_involutive (password text : string) :
  xor_with_key sha256 password (xor_with_key sha256 password text) = text.
Proof.
  unfold xor_with_key at 1. rewrite xor_with_key_length.
  unfold xor_with_key. apply xor_zip_involutive.
  rewrite derive_key_length by lia. lia.
Qed.

End Key.

Lemma decrypt_done (sha256 : string -> string)
  (b64decode : string -> string + string) (decode_error : string -> string)
  (ciphertext_b64 password plaintext : string) :
  (forall m, String.length (sha256 m) = 32%nat) ->
  decrypt sha256 b64decode decode_error ciphertext_b64 password
  = Done plaintext
  <-> b64decode ciphertext_b64
      = inl (xor_with_key sha256 password plaintext)
      /\ valid_utf8 plaintext = true.
Proof.
  intros Hd. unfold decrypt.
  destruct (b64decode ciphertext_b64) as [encrypted|e].
  - change (xor_zip encrypted
              (derive_key sha256 password
                 (Z.of_nat (String.length encrypted))))
      with (xor_with_key sha256 password encrypted).
    split.
    + destruct (valid_utf8 _) eqn:Ev; [|discriminate].
      intros H. injection H as <-.
      now rewrite xor_with_key_involutive.
    + intros [H Hv]. injection H as ->.
      rewrite xor_with_key_involutive by exact Hd.
      now rewrite Hv.
  - split; [discriminate|]. intros [H _]. discriminate.
Qed.

(** Whatever the library raises, [decrypt] raises a [ValueError]. *)
Lemma decrypt_fail (sha256 : string -> string)
  (b64decode : string -> string + string) (decode_error : string -> string)
  (ciphertext_b64 password : string) (e : error) :
  decrypt sha256 b64decode decode_error ciphertext_b64 password = Fail e ->
  is_value_error e = true.
Proof.
  unfold decrypt. destruct (b64decode ciphertext_b64).
  - destruct (valid_utf8 _); [discriminate|].
    intros H. now injection H as <-.
  - intros H. now injection H as <-.
Qed.

End DecryptFacts.

(** X19. For a length that is not negative and digests of 32 bytes, the
    derived key has that length and its byte at position i is the byte of
    the digest at position i mod 32. *)
Theorem derived_key_cycles_the_digest (sha256 : string -> string)
  (password : string) (length : Z) :
  (forall m, String.length (sha256 m) = 32%nat) ->
  0 <= length ->
  String.length (Decrypt.derive_key sha256 password length)
  = Z.to_nat length
  /\ forall i, (i < Z.to_nat length)%nat ->
       String.get i (Decrypt.derive_key sha256 password length)
       = String.get (i mod 32) (sha256 password).
Proof.
  intros Hd Hn. split.
  - now apply DecryptFacts.derive_key_length.
  - intros i Hi. now apply DecryptFacts.derive_key_get.
Qed.

(** X19 for a key of 70 bytes. *)
Lemma derived_key_cycles_the_digest_witness :
  String.length (Decrypt.derive_key Cases.canary_digest "canary" 70)
  = Z.to_nat 70
  /\ forall i, (i < Z.to_nat 70)%nat ->
       String.get i (Decrypt.derive_key Cases.canary_digest "canary" 70)
       = String.get (i mod 32) (Cases.canary_digest "canary").
Proof.
  apply (derived_key_cycles_the_digest Cases.canary_digest "canary" 70).
  - intros m. reflexivity.
  - lia.
Defined.

(** X20. With digests of 32 bytes, decrypt returns a plaintext exactly when
    the base64 text decodes to the XOR of that plaintext with the key
    derived for its length and the plaintext is well-formed UTF-8: decrypt
    undoes the encryption by the same XOR. *)
Theorem decrypt_undoes_the_xor (sha256 : string -> string)
  (b64decode : string -> string + string) (decode_error : string -> string)
  (ciphertext_b64 password plaintext : string) :
  (forall m, String.length (sha256 m) = 32%nat) ->
  Decrypt.decrypt sha256 b64decode decode_error ciphertext_b64 password
  = Decrypt.Done plaintext
  <-> b64decode ciphertext_b64
      = inl (Decrypt.xor_with_key sha256 password plaintext)
      /\ Decrypt.valid_utf8 plaintext = true.
Proof. apply DecryptFacts.decrypt_done. Qed.

(** X20 at the encryption of hello under the key of canary. *)
Lemma decrypt_undoes_the_xor_witness :
  Decrypt.decrypt Cases.canary_digest Cases.decode_hello Cases.no_text
    "iWWXom8=" "canary" = Decrypt.Done "hello"
  /\ (Decrypt.decrypt Cases.canary_digest Cases.decode_hello Cases.no_text
        "iWWXom8=" "canary" = Decrypt.Done "hello"
      <-> Cases.decode_hello "iWWXom8="
          = inl (Decrypt.xor_with_key Cases.canary_digest "canary" "hello")
          /\ Decrypt.valid_utf8 "hello" = true).
Proof.
  split; [reflexivity|].
  apply (decrypt_undoes_the_xor Cases.canary_digest Cases.decode_hello
           Cases.no_text "iWWXom8=" "canary" "hello").
  intros m. reflexivity.
Defined.

(** X21. With digests of 32 bytes and a file whose text, if it has one, is
    ASCII: decrypt_file_to_memory returns a plaintext exactly when the file
    holds a text that, stripped, is not empty and decrypts to it, so that
    whitespace around the text of the file is immaterial; and when it fails,
    the error is the OSError of the existence test when the file cannot be
    looked at, a FileNotFoundError when it is missing and a ValueError
    otherwise. *)
Theorem encrypted_files_decrypt_or_fail_typed (sha256 : string -> string)
  (b64decode : string -> string + string) (decode_error : string -> string)
  (path : Type) (show : path -> string) (fs : path -> Decrypt.file)
  (encrypted_file_path : path) (canary : string) :
  (forall m, String.length (sha256 m) = 32%nat) ->
  (forall content,
     fs encrypted_file_path = Decrypt.Holds content ->
     Tags.ascii_only content = true) ->
  (forall plaintext,
     Decrypt.decrypt_file_to_memory sha256 b64decode decode_error path show
       fs encrypted_file_path canary = Decrypt.Done plaintext
     <-> exists content,
           fs encrypted_file_path = Decrypt.Holds content
           /\ Text.strip content <> EmptyString
           /\ b64decode (Text.strip content)
              = inl (Decrypt.xor_with_key sha256 canary plaintext)
           /\ Decrypt.valid_utf8 plaintext = true)
  /\ (forall e,
        Decrypt.decrypt_file_to_memory sha256 b64decode decode_error path
          show fs encrypted_file_path canary = Decrypt.Fail e ->
        match fs encrypted_file_path with
        | Decrypt.Inaccessible m => e = Decrypt.OSError m
        | Decrypt.Missing => exists m, e = Decrypt.FileNotFoundError m
        | _ => Decrypt.is_value_error e = true
        end).
Proof.
  intros Hd _. unfold Decrypt.decrypt_file_to_memory. split.
  - intros plaintext.
    destruct (fs encrypted_file_path) as [m| |m|m|content].
    + split; [discriminate|]. intros (c & H & _). discriminate.
    + split; [discriminate|]. intros (c & H & _). discriminate.
    + split; [discriminate|]. intros (c & H & _). discriminate.
    + split; [discriminate|]. intros (c & H & _). discriminate.
    + destruct (Text.strip content =? EmptyString)%string eqn:Ee.
      * apply String.eqb_eq in Ee. split; [discriminate|].
        intros (c & H & Hne & _). injection H as <-. contradiction.
      * apply String.eqb_neq in Ee.
        pose proof (DecryptFacts.decrypt_done sha256 b64decode decode_error
                      (Text.strip content) canary plaintext Hd) as Hx.
        destruct (Decrypt.decrypt sha256 b64decode decode_error
                    (Text.strip content) canary) as [p|e].
        -- split.
           ++ intros H. injection H as ->. exists content.
              destruct Hx as [Hx _]. destruct (Hx eq_refl). auto.
           ++ intros (c & H & _ & Hb & Hv). injection H as <-.
              destruct Hx as [_ Hx]. now rewrite (Hx (conj Hb Hv)).
        -- split.
           ++ destruct (Decrypt.is_value_error e); discriminate.
           ++ intros (c & H & _ & Hb & Hv). injection H as <-.
              destruct Hx as [_ Hx]. discriminate (Hx (conj Hb Hv)).
  - intros e.
    destruct (fs encrypted_file_path) as [m| |m|m|content].
    + intros H. now injection H as <-.
    + intros H. injection H as <-. eauto.
    + intros H. now injection H as <-.
    + intros H. now injection H as <-.
    + destruct (Text.strip content =? EmptyString)%string.
      * intros H. now injection H as <-.
      * destruct (Decrypt.decrypt _ _ _ _ _) as [p|e'] eqn:Ed;
          [discriminate|].
        apply DecryptFacts.decrypt_fail in Ed. rewrite Ed.
        intros H. now injection H as <-.
Qed.

(** X21 at a file that ends in a newline. *)
Lemma encrypted_files_decrypt_or_fail_typed_witness :
  Decrypt.decrypt_file_to_memory Cases.canary_digest Cases.decode_hello
    Cases.no_text string (fun p => p) Cases.task_files "task.yaml.enc"
    "canary" = Decrypt.Done "hello"
  /\ (forall plaintext,
        Decrypt.decrypt_file_to_memory Cases.canary_digest
          Cases.decode_hello Cases.no_text string (fun p => p)
          Cases.task_files "task.yaml.enc" "canary"
        = Decrypt.Done plaintext
        <-> exists content,
              Cases.task_files "task.yaml.enc" = Decrypt.Holds content
              /\ Text.strip content <> EmptyString
              /\ Cases.decode_hello (Text.strip content)
                 = inl (Decrypt.xor_with_key Cases.canary_digest "canary"
                          plaintext)
              /\ Decrypt.valid_utf8 plaintext = true)
  /\ (forall e,
        Decrypt.decrypt_file_to_memory Cases.canary_digest
          Cases.decode_hello Cases.no_text string (fun p => p)
          Cases.task_files "task.yaml.enc" "canary" = Decrypt.Fail e ->
        match Cases.task_files "task.yaml.enc" with
        | Decrypt.Inaccessible m => e = Decrypt.OSError m
        | Decrypt.Missing => exists m, e = Decrypt.FileNotFoundError m
        | _ => Decrypt.is_value_error e = true
        end).
Proof.
  split; [reflexivity|].
  apply (encrypted_files_decrypt_or_fail_typed Cases.canary_digest
           Cases.decode_hello Cases.no_text string (fun p => p)
           Cases.task_files "task.yaml.enc" "canary").
  - intros m. reflexivity.
  - intros content H. injection H as <-. reflexivity.
Defined.

(** X22. When the text of the canary file, if it has one, is ASCII:
    read_canary returns a canary exactly when the file holds a text that is
    not blank, and the canary is that text stripped: it is never empty and
    has no whitespace at either end. It returns None exactly when the file
    is missing, and what it raises is the OSError of the existence test when
    the file cannot be looked at and a ValueError otherwise. *)
Theorem canary_is_trimmed_and_not_empty (path : Type)
  (show : path -> string) (child : path -> string -> path)
  (fs : path -> Decrypt.file) (task_dir : path) :
  (forall content,
     fs (child task_dir "canary.txt") = Decrypt.Holds content ->
     Tags.ascii_only content = true) ->
  (forall canary,
     Decrypt.read_canary path show child fs task_dir
     = Decrypt.Done (Some canary)
     <-> exists content,
           fs (child task_dir "canary.txt") = Decrypt.Holds content
           /\ Text.strip content = canary /\ canary <> EmptyString)
  /\ (forall canary,
        Decrypt.read_canary path show child fs task_dir
        = Decrypt.Done (Some canary) ->
        canary <> EmptyString /\ Tags.trimmed canary)
  /\ (Decrypt.read_canary path show child fs task_dir = Decrypt.Done None
      <-> fs (child task_dir "canary.txt") = Decrypt.Missing)
  /\ (forall e,
        Decrypt.read_canary path show child fs task_dir = Decrypt.Fail e ->
        match fs (child task_dir "canary.txt") with
        | Decrypt.Inaccessible m => e = Decrypt.OSError m
        | _ => Decrypt.is_value_error e = true
        end).
Proof.
  intros _.
  assert (Hiff : forall canary,
     Decrypt.read_canary path show child fs task_dir
     = Decrypt.Done (Some canary)
     <-> exists content,
           fs (child task_dir "canary.txt") = Decrypt.Holds content
           /\ Text.strip content = canary /\ canary <> EmptyString).
  { intros canary. unfold Decrypt.read_canary.
    destruct (fs (child task_dir "canary.txt")) as [m| |m|m|content].
    - split; [discriminate|]. intros (c & H & _). discriminate.
    - split; [discriminate|]. intros (c & H & _). discriminate.
    - split; [discriminate|]. intros (c & H & _). discriminate.
    - split; [discriminate|]. intros (c & H & _). discriminate.
    - destruct (Text.strip content =? EmptyString)%string eqn:Ee.
      + apply String.eqb_eq in Ee. split; [discriminate|].
        intros (c & H & <- & Hne). injection H as <-. contradiction.
      + apply String.eqb_neq in Ee. split.
        * intros H. injection H as <-. exists content. auto.
        * intros (c & H & <- & _). now injection H as <-. }
  split; [exact Hiff|]. split; [|split].
  - intros canary H. apply Hiff in H as (content & _ & <- & Hne).
    split; [exact Hne|apply StripFacts.strip_trimmed].
  - unfold Decrypt.read_canary.
    destruct (fs (child task_dir "canary.txt")) as [m| |m|m|content].
    + split; discriminate.
    + now split.
    + split; discriminate.
    + split; discriminate.
    + destruct (Text.strip content =? EmptyString)%string; split;
        discriminate.
  - intros e. unfold Decrypt.read_canary.
    destruct (fs (child task_dir "canary.txt")) as [m| |m|m|content].
    + intros H. now injection H as <-.
    + discriminate.
    + intros H. now injection H as <-.
    + intros H. now injection H as <-.
    + destruct (Text.strip content =? EmptyString)%string; [|discriminate].
      intros H. now injection H as <-.
Qed.

(** X22 at a canary file that ends in a newline. *)
Lemma canary_is_trimmed_and_not_empty_witness :
  Decrypt.read_canary string (fun p => p) Cases.inside Cases.canary_files
    "task" = Decrypt.Done (Some "canary")
  /\ (forall canary,
        Decrypt.read_canary string (fun p => p) Cases.inside
          Cases.canary_files "task" = Decrypt.Done (Some canary) ->
        canary <> EmptyString /\ Tags.trimmed canary).
Proof.
  split; [reflexivity|].
  apply (canary_is_trimmed_and_not_empty string (fun p => p) Cases.inside
           Cases.canary_files "task").
  intros content H. injection H as <-. reflexivity.
Defined.
